(** * rtdl.data: binning and encoding of tabular features

    A shallow embedding of [rtdl/data.py] and the properties of its
    functions.

    Conventions of the embedding.
    - Real numbers held by arrays are exact rationals ([Q]); a tensor
      element may also be one of the two infinities ([scalar]), and an
      element of the matrices that are binned may also be NaN
      ([float_value]).  Rounding is not part of the model.
    - A matrix of torch carries its dtype, and an array of integers of
      numpy the size of its integers: the sums of integers wrap around.
    - An array is its shape and its elements in row-major order.
    - A function that can raise returns a [result]; a function that can
      warn also returns the warnings it issued, in order.
    - numpy, torch and scikit-learn are libraries outside of the
      repository: the few operations used are written down from their
      documented behaviour ([np_unique], [np_quantile], ...),
      [torch.bucketize] as the binary search that it runs, and the
      decision-tree fitter is a parameter.
    - The constructors of the backbones of [rtdl/nn/_backbones.py] follow
      the functions of [rtdl/data.py]; the layers that they assemble are
      parameters. *)

From Stdlib Require Import String Ascii DecimalString.
From Stdlib Require Import List ZArith QArith Qround Lia Lqa Bool Sorted Permutation.
Import ListNotations.

Open Scope string_scope.
Open Scope Z_scope.

(** ** Exceptions and results *)

Inductive exception : Type :=
| ValueError (msg : string)
| IndexError
| RuntimeError
| AttributeError.

Inductive result (A : Type) : Type :=
| Ok (a : A)
| Raise (e : exception).

Arguments Ok {A} a.
Arguments Raise {A} e.

Definition bind {A B : Type} (r : result A) (k : A -> result B) : result B :=
  match r with
  | Ok a => k a
  | Raise e => Raise e
  end.

Notation "x <- r ;; k" := (bind r (fun x => k))
  (at level 61, r at next level, right associativity).

Definition is_Ok {A : Type} (r : result A) : bool :=
  match r with Ok _ => true | Raise _ => false end.

(** [for x in l: body(x)], collecting what each iteration appends; the first
    exception ends the loop. *)
Fixpoint mapM {A B : Type} (f : A -> result B) (l : list A) : result (list B) :=
  match l with
  | [] => Ok []
  | x :: l' => y <- f x ;; ys <- mapM f l' ;; Ok (y :: ys)
  end.

(** ** Strings: f-string fields and Python's [in] *)

Definition str_of_nat (n : nat) : string := NilEmpty.string_of_uint (Nat.to_uint n).
Definition str_of_Z (z : Z) : string := NilEmpty.string_of_int (Z.to_int z).

(** [needle in hay] on Python strings. *)
Fixpoint str_in (needle hay : string) : bool :=
  match hay with
  | EmptyString => String.prefix needle EmptyString
  | String _ hay' => String.prefix needle hay || str_in needle hay'
  end.

(** [c in s] for a character [c]. *)
Fixpoint occurs (c : ascii) (s : string) : bool :=
  match s with
  | EmptyString => false
  | String c' s' => Ascii.eqb c c' || occurs c s'
  end.

(** ** Arrays *)

Record ndarray (A : Type) : Type := mk_ndarray {
  shape : list nat;
  data : list A
}.

Arguments mk_ndarray {A} shape data.
Arguments shape {A} n.
Arguments data {A} n.

Definition ndim {A : Type} (X : ndarray A) : nat := length (shape X).

Definition numel (s : list nat) : nat := fold_right Nat.mul 1%nat s.

Definition shape_eqb (s1 s2 : list nat) : bool :=
  if list_eq_dec Nat.eq_dec s1 s2 then true else false.

(** The two extents of a 2-D array. *)
Definition n_rows {A : Type} (X : ndarray A) : nat := nth 0 (shape X) 0%nat.
Definition n_cols {A : Type} (X : ndarray A) : nat := nth 1 (shape X) 0%nat.

(** [X[i, j]] of a 2-D array. *)
Definition get2 {A : Type} (d : A) (X : ndarray A) (i j : nat) : A :=
  nth (i * n_cols X + j) (data X) d.

(** [X.T[j]]: column [j] of a 2-D array. *)
Definition column {A : Type} (d : A) (X : ndarray A) (j : nat) : list A :=
  map (fun i => get2 d X i j) (seq 0 (n_rows X)).

(** [X.T], as the list of columns that iterating over it yields. *)
Definition columns {A : Type} (d : A) (X : ndarray A) : list (list A) :=
  map (column d X) (seq 0 (n_cols X)).

(** [torch.stack(cols, 1)] of [f] one-dimensional tensors of length [n]. *)
Definition stack1 {A : Type} (d : A) (n : nat) (cols : list (list A)) : ndarray A :=
  mk_ndarray [n; length cols]
    (flat_map (fun i => map (fun c => nth i c d) cols) (seq 0 n)).

(** [zip] stops at the shorter of its arguments; [combine] is [zip]. *)
Definition zip3 {A B C : Type} (a : list A) (b : list B) (c : list C) : list (A * B * C) :=
  combine (combine a b) c.

(** [enumerate]. *)
Definition enumerate {A : Type} (l : list A) : list (nat * A) :=
  combine (seq 0 (length l)) l.

(** [.any()] of a boolean tensor. *)
Definition any (l : list bool) : bool := existsb (fun b => b) l.

(** ** Tensor elements *)

Inductive scalar : Type :=
| NegInf
| Fin (q : Q)
| PosInf.

Definition Qltb (x y : Q) : bool := negb (Qle_bool y x).

Definition scalar_ltb (a b : scalar) : bool :=
  match a, b with
  | NegInf, NegInf => false
  | NegInf, _ => true
  | Fin _, NegInf => false
  | Fin x, Fin y => Qltb x y
  | Fin _, PosInf => true
  | PosInf, _ => false
  end.

Definition scalar_leb (a b : scalar) : bool := negb (scalar_ltb b a).

Definition scalar_of_Z (z : Z) : scalar := Fin (inject_Z z).

(** ** torch dtypes *)

Module torch.

Inductive dtype : Type :=
| uint8 | int8 | int16 | int32 | int64
| float16 | bfloat16 | float32 | float64
| complex64 | complex128
| bool.

(** [str(dtype)]. *)
Definition str (d : dtype) : string :=
  match d with
  | uint8 => "torch.uint8"
  | int8 => "torch.int8"
  | int16 => "torch.int16"
  | int32 => "torch.int32"
  | int64 => "torch.int64"
  | float16 => "torch.float16"
  | bfloat16 => "torch.bfloat16"
  | float32 => "torch.float32"
  | float64 => "torch.float64"
  | complex64 => "torch.complex64"
  | complex128 => "torch.complex128"
  | bool => "torch.bool"
  end.

(** The attribute names under which [getattr(torch, name)] finds a dtype. *)
Definition all : list dtype :=
  [uint8; int8; int16; int32; int64; float16; bfloat16; float32; float64;
   complex64; complex128; bool].

Definition name (d : dtype) : string :=
  String.substring 6 (String.length (str d) - 6) (str d).

Definition is_floating_point (d : dtype) : Datatypes.bool :=
  match d with
  | float16 | bfloat16 | float32 | float64 => true
  | _ => false
  end.

Definition is_complex (d : dtype) : Datatypes.bool :=
  match d with
  | complex64 | complex128 => true
  | _ => false
  end.

(** The value range of an integer dtype. *)
Definition int_range (d : dtype) : option (Z * Z) :=
  match d with
  | uint8 => Some (0, 255)
  | int8 => Some (-128, 127)
  | int16 => Some (-32768, 32767)
  | int32 => Some (-2147483648, 2147483647)
  | int64 => Some (-9223372036854775808, 9223372036854775807)
  | _ => None
  end.

End torch.

(** A torch tensor: its dtype and its contents. *)
Record Tensor : Type := mk_Tensor {
  dtype : torch.dtype;
  values_of :> ndarray scalar
}.

(** ** Python scalars *)

Inductive py_type : Type := py_int | py_float.

(** [Number = TypeVar('Number', int, float)] *)
Inductive Number : Type :=
| PyInt (z : Z)
| PyFloat (x : scalar).

Definition type (v : Number) : py_type :=
  match v with PyInt _ => py_int | PyFloat _ => py_float end.

Definition py_type_eqb (a b : py_type) : bool :=
  match a, b with
  | py_int, py_int | py_float, py_float => true
  | _, _ => false
  end.

(** [str(type(v))]. *)
Definition str_type (t : py_type) : string :=
  match t with
  | py_int => "<class 'int'>"
  | py_float => "<class 'float'>"
  end.

(** [int(z)] and [float(z)] of a Python integer literal. *)
Definition call_class (t : py_type) (z : Z) : Number :=
  match t with
  | py_int => PyInt z
  | py_float => PyFloat (scalar_of_Z z)
  end.

Definition scalar_of_Number (v : Number) : scalar :=
  match v with PyInt z => scalar_of_Z z | PyFloat x => x end.

(** ** Operations of torch on tensors *)

(** Truncation toward zero, the conversion of a float to an integer. *)
Definition Qtrunc (q : Q) : Z := Z.quot (Qnum q) (Zpos (Qden q)).

(** The element that storing the Python number [v] in a tensor of dtype
    [dt] yields ([torch.tensor(v, dtype=dt)], [t[mask] = v]): an integer
    dtype truncates and refuses what does not fit, an infinity included. *)
Definition torch_tensor (v : Number) (dt : torch.dtype) : result scalar :=
  match torch.int_range dt with
  | Some (lo, hi) =>
      match scalar_of_Number v with
      | Fin q =>
          if (lo <=? Qtrunc q) && (Qtrunc q <=? hi)
          then Ok (scalar_of_Z (Qtrunc q))
          else Raise RuntimeError
      | _ => Raise RuntimeError
      end
  | None =>
      match dt, scalar_of_Number v with
      | torch.bool, Fin q => Ok (scalar_of_Z (if Qeq_bool q 0 then 0 else 1))
      | torch.bool, _ => Ok (scalar_of_Z 1)
      | _, x => Ok x
      end
  end.

(** [torch.full(shape, v, dtype=dt)] *)
Definition torch_full (s : list nat) (v : Z) (dt : torch.dtype) : result Tensor :=
  x <- torch_tensor (PyInt v) dt ;;
  Ok (mk_Tensor dt (mk_ndarray s (repeat x (numel s)))).

(** [torch.zeros_like(t)] and [torch.ones_like(t)] *)
Definition like (v : Z) (t : Tensor) : Tensor :=
  mk_Tensor (dtype t) (mk_ndarray (shape t) (map (fun _ => scalar_of_Z v) (data t))).

Definition is_prefix (s1 s2 : list nat) : bool :=
  shape_eqb s1 (firstn (length s1) s2).

(** [t[mask] = v] for a boolean mask and a Python float [v]: the value is
    converted first; the mask selects along the leading axes of [t], whose
    extents it must have. *)
Definition masked_assign (t : Tensor) (mask : ndarray Datatypes.bool) (v : scalar)
  : result Tensor :=
  x <- torch_tensor (PyFloat v) (dtype t) ;;
  if is_prefix (shape mask) (shape t) then
    let inner := numel (skipn (length (shape mask)) (shape t)) in
    Ok (mk_Tensor (dtype t)
          (mk_ndarray (shape t)
             (map (fun ke => if nth (fst ke / inner)%nat (data mask) false
                             then x else snd ke)
                  (enumerate (data t)))))
  else Raise IndexError.

(** [a < b] and [a > b] of two tensors of one shape, elementwise; complex
    numbers are not ordered. *)
Definition tensor_lt (a b : Tensor) : result (list Datatypes.bool) :=
  if torch.is_complex (dtype a) then Raise RuntimeError
  else Ok (map (fun xy => scalar_ltb (fst xy) (snd xy)) (combine (data a) (data b))).

Definition tensor_gt (a b : Tensor) : result (list Datatypes.bool) :=
  if torch.is_complex (dtype a) then Raise RuntimeError
  else Ok (map (fun xy => scalar_ltb (snd xy) (fst xy)) (combine (data a) (data b))).

(** [t >= c] for a Python integer [c]. *)
Definition tensor_ge_int (t : Tensor) (c : Z) : result (list Datatypes.bool) :=
  if torch.is_complex (dtype t) then Raise RuntimeError
  else Ok (map (fun x => scalar_leb (scalar_of_Z c) x) (data t)).

(** [l[i] = v] on a list, in range. *)
Fixpoint list_set {A : Type} (l : list A) (i : nat) (v : A) : list A :=
  match l, i with
  | [], _ => []
  | _ :: l', O => v :: l'
  | x :: l', S i' => x :: list_set l' i' v
  end.

(** An index along an axis of extent [d]: negative indices count from the
    end, and an index outside of [-d, d) is refused. *)
Definition normalize_index (d : Z) (i : Z) : result nat :=
  if (i <? - d) || (d <=? i) then Raise IndexError
  else Ok (Z.to_nat (if i <? 0 then i + d else i)).

(** The integer held by an element of an integer tensor. *)
Definition index_of_scalar (x : scalar) : Z :=
  match x with Fin q => Qfloor q | _ => 0 end.

(** Tensors of these dtypes are indices; byte and boolean tensors are
    masks, and a tensor of another dtype is refused as an index. *)
Definition is_index_dtype (dt : torch.dtype) : bool :=
  match dt with
  | torch.int32 | torch.int64 => true
  | _ => false
  end.

(** [encoding[object_indices, feature_indices, idx] = vals], where slot
    number [k] is the pair (object, feature) [k] of the row-major order and
    [d] is the extent of the last axis. *)
Fixpoint index_put (d : nat) (encoding : list scalar) (slots : list (nat * (scalar * scalar)))
  : result (list scalar) :=
  match slots with
  | [] => Ok encoding
  | (k, (i, v)) :: slots' =>
      p <- normalize_index (Z.of_nat d) (index_of_scalar i) ;;
      index_put d (list_set encoding (k * d + p) v) slots'
  end.

(** ** The Left-Value-Right encoding *)

Definition msg_same_type : string := "left and right must be of the same type".
Definition msg_dtype : string :=
  "The `values` array has dtype incompatible with left and right".
Definition msg_two_dims : string := "values must have two dimensions".
Definition msg_same_shape : string := "values and indices must be of the same shape".
Definition msg_indices : string := "All indices must be less than d_encoding".

(** What follows the validation in [_LVR_encoding]: [indices] is the tensor
    the function has bound to that name by then. *)
Definition LVR_fill (values indices : Tensor) (d_encoding : Z) (left right : Number)
  : result Tensor :=
  let dt := dtype values in
  if d_encoding <? 0 then Raise RuntimeError (* torch.arange *) else
  let d := Z.to_nat d_encoding in
  let left_mask :=
    flat_map (fun i => map (fun p => scalar_ltb (scalar_of_Z (Z.of_nat p)) i) (seq 0 d))
             (data indices) in
  l <- torch_tensor left dt ;;
  r <- torch_tensor right dt ;;
  let encoding := map (fun m : Datatypes.bool => if m then l else r) left_mask in
  let n_objects := n_rows values in
  let n_features := n_cols values in
  if negb (is_index_dtype (dtype indices)) then Raise IndexError else
  e <- index_put d encoding (enumerate (combine (data indices) (data values))) ;;
  Ok (mk_Tensor dt (mk_ndarray [n_objects; n_features; d] e)).

Definition _LVR_encoding (values : Tensor) (indices : ndarray Z) (d_encoding : Z)
    (left right : Number) : result Tensor :=
  (* indices = as_tensor(values) *)
  let indices := values in
  if negb (py_type_eqb (type left) (type right)) then Raise (ValueError msg_same_type) else
  if negb (str_in (str_type (type left)) (torch.str (dtype values)))
  then Raise (ValueError msg_dtype) else
  if negb (ndim values =? 2)%nat then Raise (ValueError msg_two_dims) else
  if negb (shape_eqb (shape values) (shape indices)) then Raise (ValueError msg_same_shape) else
  ge <- tensor_ge_int indices d_encoding ;;
  if any ge then Raise (ValueError msg_indices) else
  LVR_fill values indices d_encoding left right.

(** ** dtype helpers *)

(** The [dtype] argument: a [torch.dtype], or a numpy number class, of which
    only [__name__] is read. *)
Inductive dtype_arg : Type :=
| torch_dtype (d : torch.dtype)
| np_number (__name__ : string).

Definition getattr_torch (name : string) : result torch.dtype :=
  match find (fun d => String.eqb (torch.name d) name) torch.all with
  | Some d => Ok d
  | None => Raise AttributeError
  end.

Definition _get_torch_dtype (dtype : dtype_arg) : result torch.dtype :=
  match dtype with
  | torch_dtype d => Ok d
  | np_number name => getattr_torch name
  end.

Definition _get_scalar_class (dtype : torch.dtype) : result py_type :=
  if str_in "int" (torch.str dtype) then Ok py_int
  else if str_in "float" (torch.str dtype) then Ok py_float
  else Raise (ValueError "unsupported dtype").

(** ** The two encoders *)

Definition ordinal_binary_encoding (indices : ndarray Z) (d_encoding : Z) (dtype : dtype_arg)
  : result Tensor :=
  dtype <- _get_torch_dtype dtype ;;
  Scalar <- _get_scalar_class dtype ;;
  ones <- torch_full (shape indices) 1 dtype ;;
  _LVR_encoding ones indices d_encoding (call_class Scalar 1) (call_class Scalar 0).

Definition pwl_message : string :=
  "values do not satisfy requirements for the piecewise linear encoding. Use rtdl.data.compute_piecewise_linear_bin_values to obtain valid values.".

Definition piecewise_linear_encoding (values : Tensor) (indices : ndarray Z) (d_encoding : Z)
  : result Tensor :=
  let lower_bounds := like 0 values in
  let is_first_bin := mk_ndarray (shape indices) (map (fun i => i =? 0) (data indices)) in
  lower_bounds <- masked_assign lower_bounds is_first_bin NegInf ;;
  below <- tensor_lt values lower_bounds ;;
  if any below then Raise (ValueError pwl_message) else
  let upper_bounds := like 1 values in
  let is_last_bin :=
    mk_ndarray (shape indices) (map (fun i => i + 1 =? d_encoding) (data indices)) in
  upper_bounds <- masked_assign upper_bounds is_last_bin PosInf ;;
  above <- tensor_gt values upper_bounds ;;
  if any above then Raise (ValueError pwl_message) else
  _LVR_encoding values indices d_encoding (PyFloat (Fin 1)) (PyFloat (Fin 0)).

(** ** Sorting and distinct values *)

Section Order.

Context {A : Type}.
Variable leb : A -> A -> bool.

Definition order_eqb (x y : A) : bool := leb x y && leb y x.

(** The order and the equality that the test [leb] decides. *)
Definition order_le (x y : A) : Prop := leb x y = true.
Definition order_lt (x y : A) : Prop := leb y x = false.
Definition order_eqv (x y : A) : Prop := leb x y = true /\ leb y x = true.

Fixpoint insert (x : A) (l : list A) : list A :=
  match l with
  | [] => [x]
  | y :: l' => if leb x y then x :: l else y :: insert x l'
  end.

(** [sorted(l)], [np.sort(l)] *)
Definition sort (l : list A) : list A := fold_right insert [] l.

(** Drops every element equal to the last one kept. *)
Fixpoint dedup_from (x : A) (l : list A) : list A :=
  match l with
  | [] => []
  | y :: l' => if order_eqb x y then dedup_from x l' else y :: dedup_from y l'
  end.

Definition dedup (l : list A) : list A :=
  match l with
  | [] => []
  | x :: l' => x :: dedup_from x l'
  end.

(** [np.unique(l)] and [sorted(set(l))]: the distinct values in increasing
    order. *)
Definition np_unique (l : list A) : list A := dedup (sort l).

Definition msg_empty_reduction (op : string) : string :=
  "zero-size array to reduction operation " ++ op ++ " which has no identity".

(** [l.min()] and [l.max()] *)
Definition np_min (l : list A) : result A :=
  match l with
  | [] => Raise (ValueError (msg_empty_reduction "minimum"))
  | x :: l' => Ok (fold_left (fun m y => if leb m y then m else y) l' x)
  end.

Definition np_max (l : list A) : result A :=
  match l with
  | [] => Raise (ValueError (msg_empty_reduction "maximum"))
  | x :: l' => Ok (fold_left (fun m y => if leb y m then m else y) l' x)
  end.

End Order.

(** ** numpy on real columns *)

(** [np.linspace(start, stop, num)] *)
Definition np_linspace (start stop : Q) (num : Z) : list Q :=
  let step := ((stop - start) / inject_Z (num - 1))%Q in
  map (fun i => (inject_Z (Z.of_nat i) * step + start)%Q) (seq 0 (Z.to_nat num)).

(** [np.quantile(a, q)] of a non-empty one-dimensional [a] at one level [q]
    of [0, 1], with the default linear interpolation between the two order
    statistics around position [q * (len(a) - 1)]. *)
Definition np_quantile (a : list Q) (q : Q) : Q :=
  let s := sort Qle_bool a in
  let n := Z.of_nat (length a) in
  let pos := (q * inject_Z (n - 1))%Q in
  let lo := Qfloor pos in
  let hi := Z.min (lo + 1) (n - 1) in
  let gamma := (pos - inject_Z lo)%Q in
  let x_lo := nth (Z.to_nat lo) s 0%Q in
  let x_hi := nth (Z.to_nat hi) s 0%Q in
  (x_lo + (x_hi - x_lo) * gamma)%Q.

(** ** Functions that warn *)

Definition warns (A : Type) : Type := (list string * result A)%type.

Definition quiet {A : Type} (r : result A) : warns A := ([], r).

(** ** Bin counts *)

Definition msg_n_bins : string := "n_bins must be greater than 1".

Definition msg_constant_column (i : nat) : string :=
  "All elements in the column " ++ str_of_nat i ++ " are the same".

Definition msg_fewer_bins (i : nat) : string :=
  "For the feature " ++ str_of_nat i
  ++ ", the number of bins will be set to the number of distinct values, becuase the provided n_bins is greater than this number.".

(** The loop of [_adjust_bin_counts] over [enumerate(X.T)]. *)
Fixpoint adjust_columns (n_bins : Z) (cols : list (nat * list Q)) : warns (list Z) :=
  match cols with
  | [] => ([], Ok [])
  | (i, column) :: cols' =>
      let n_unique := Z.of_nat (length (np_unique Qle_bool column)) in
      if n_unique <? 2 then ([], Raise (ValueError (msg_constant_column i)))
      else
        let w := if n_unique <? n_bins then [msg_fewer_bins i] else [] in
        let (ws, r) := adjust_columns n_bins cols' in
        ((w ++ ws)%list,
         adjusted_bin_counts <- r ;; Ok (Z.min n_bins n_unique :: adjusted_bin_counts))
  end.

Definition _adjust_bin_counts (X : ndarray Q) (n_bins : Z) : warns (list Z) :=
  if n_bins <? 2 then ([], Raise (ValueError msg_n_bins))
  else adjust_columns n_bins (enumerate (columns 0%Q X)).

(** ** Bin edges from quantiles *)

Definition msg_X_two_dims : string := "X must have two dimensions".

Definition quantile_edges (column : list Q) (adjusted_n_bins : Z) : list Q :=
  (* quantiles include 0.0 and 1.0 *)
  let quantiles := np_linspace 0 1 (adjusted_n_bins + 1) in
  np_unique Qle_bool (map (np_quantile column) quantiles).

Definition compute_quantile_bin_edges (X : ndarray Q) (n_bins : Z) : warns (list (list Q)) :=
  if negb (ndim X =? 2)%nat then quiet (Raise (ValueError msg_X_two_dims)) else
  let (ws, r) := _adjust_bin_counts X n_bins in
  (ws,
   adjusted_bin_counts <- r ;;
   Ok (map (fun ca => quantile_edges (fst ca) (snd ca))
           (combine (columns 0%Q X) adjusted_bin_counts))).

(** ** Bin edges from a decision tree *)

(** A node of a fitted tree: [tree.children_left[node_id]],
    [tree.children_right[node_id]] and [tree.threshold[node_id]].  The
    three arrays have [tree.node_count] entries, so that a tree is the list
    of its nodes. *)
Record node : Type := mk_node {
  children_left : Z;
  children_right : Z;
  threshold : Q
}.

Definition Tree : Type := list node.

Definition msg_first_dims : string := "X and y have different first dimensions".
Definition msg_max_leaf_nodes : string :=
  "Do not include max_leaf_nodes in tree_kwargs (it will be set equal to n_bins automatically).".

Section DecisionTree.

(** The targets [y], the option values of [tree_kwargs], and the fitter:
    [(DecisionTreeRegressor if regression else
    DecisionTreeClassifier)(max_leaf_nodes=m,
    **tree_kwargs).fit(column.reshape(-1, 1), y).tree_].  What the fitter
    itself may raise is not part of this development. *)
Variable target : Type.
Variable len : target -> nat.
Variable Any : Type.
Variable fit : bool -> Z -> list (string * Any) -> list Q -> target -> Tree.

(** The thresholds of the split nodes, in the order of the node ids. *)
Fixpoint split_thresholds (tree : Tree) : list Q :=
  match tree with
  | [] => []
  | nd :: tree' =>
      (* the following condition is True only for split nodes *)
      if negb (children_left nd =? children_right nd)
      then threshold nd :: split_thresholds tree'
      else split_thresholds tree'
  end.

Definition tree_edges (regression : bool) (tree_kwargs : list (string * Any))
    (y : target) (column : list Q) (adjusted_n_bins : Z) : result (list Q) :=
  let tree := fit regression adjusted_n_bins tree_kwargs column y in
  let tree_thresholds := split_thresholds tree in
  mn <- np_min Qle_bool column ;;
  mx <- np_max Qle_bool column ;;
  Ok (np_unique Qle_bool (tree_thresholds ++ [mn] ++ [mx])).

Definition compute_decision_tree_bin_edges (X : ndarray Q) (n_bins : Z) (y : target)
    (regression : bool) (tree_kwargs : list (string * Any)) : warns (list (list Q)) :=
  if negb (ndim X =? 2)%nat then quiet (Raise (ValueError msg_X_two_dims)) else
  if negb (n_rows X =? len y)%nat then quiet (Raise (ValueError msg_first_dims)) else
  if existsb (fun kv => String.eqb (fst kv) "max_leaf_nodes") tree_kwargs
  then quiet (Raise (ValueError msg_max_leaf_nodes)) else
  let (ws, r) := _adjust_bin_counts X n_bins in
  (ws,
   adjusted_bin_counts <- r ;;
   mapM (fun ca => tree_edges regression tree_kwargs y (fst ca) (snd ca))
        (combine (columns 0%Q X) adjusted_bin_counts)).

End DecisionTree.

(** ** Floating-point values *)

(** An element of a matrix of reals: a number, an infinity or NaN. *)
Inductive float_value : Type :=
| NaN
| Num (x : scalar).

Definition real (q : Q) : float_value := Num (Fin q).

(** [a > b] and [a <= b]: false when one of the two is NaN. *)
Definition float_gtb (a b : float_value) : bool :=
  match a, b with
  | Num x, Num y => scalar_ltb y x
  | _, _ => false
  end.

Definition float_leb (a b : float_value) : bool :=
  match a, b with
  | Num x, Num y => scalar_leb x y
  | _, _ => false
  end.

(** [x - e] and [a / d] for reals [e] and [d], as IEEE 754 has them but
    for the rounding: the difference of two equal numbers is [+0], a
    number over [+0] is an infinity of its sign, and [0 / 0] is NaN. *)
Definition float_sub (x : float_value) (e : Q) : float_value :=
  match x with
  | Num (Fin q) => real (q - e)
  | _ => x
  end.

Definition float_div (a : float_value) (d : Q) : float_value :=
  match a with
  | NaN => NaN
  | Num NegInf => if Qltb d 0 then Num PosInf else Num NegInf
  | Num PosInf => if Qltb d 0 then Num NegInf else Num PosInf
  | Num (Fin q) =>
      if Qeq_bool d 0 then
        if Qeq_bool q 0 then NaN else if Qltb q 0 then Num NegInf else Num PosInf
      else real (q / d)
  end.

(** What [as_tensor] makes of a matrix: its dtype and its elements.  The
    elements of a matrix of an integer dtype are integers. *)
Record Matrix : Type := mk_Matrix {
  matrix_dtype : torch.dtype;
  entries :> ndarray float_value
}.

(** The matrix of dtype [dt] that holds the reals of [V], and the one that
    holds the integers of [I]. *)
Definition float_matrix (dt : torch.dtype) (V : ndarray Q) : Matrix :=
  mk_Matrix dt (mk_ndarray (shape V) (map real (data V))).

Definition int_matrix (dt : torch.dtype) (I : ndarray Z) : Matrix :=
  mk_Matrix dt (mk_ndarray (shape I) (map (fun i => real (inject_Z i)) (data I))).

(** The integer that an element of an integer matrix is. *)
Definition index_of (x : float_value) : Z :=
  match x with Num s => index_of_scalar s | NaN => 0 end.

(** ** Bin indices *)

(** [torch.stack(cols, 1)]: an empty list of tensors is refused. *)
Definition torch_stack1 {A : Type} (d : A) (cols : list (list A)) : result (ndarray A) :=
  match cols with
  | [] => Raise RuntimeError
  | c :: _ => Ok (stack1 d (length c) cols)
  end.

(** The search of [torch.bucketize(x, boundaries, right=True)]: a binary
    search between [start] and [end_] for the first boundary that is
    greater than [val], which goes right at a boundary that is not greater
    than [val], whatever the order of the boundaries is.  Every step
    shrinks the interval, so that [end_ - start] steps are enough. *)
Fixpoint cus_upper_bound (steps : nat) (bd : list float_value) (val : float_value)
    (start end_ : nat) : nat :=
  match steps with
  | O => start
  | S steps' =>
      if (start <? end_)%nat then
        let mid := (start + (end_ - start) / 2)%nat in
        let mid_val := nth mid bd NaN in
        if negb (float_gtb mid_val val)
        then cus_upper_bound steps' bd val (mid + 1) end_
        else cus_upper_bound steps' bd val start mid
      else start
  end.

Definition torch_bucketize_right (x : float_value) (boundaries : list float_value) : Z :=
  Z.of_nat (cus_upper_bound (length boundaries) boundaries x 0 (length boundaries)).

(** [torch.bucketize(column, boundaries, right=True)] on tensors of dtype
    [dt]: complex numbers are not ordered. *)
Definition torch_bucketize (dt : torch.dtype) (column boundaries : list float_value)
  : result (list Z) :=
  if torch.is_complex dt then Raise RuntimeError
  else Ok (map (fun x => torch_bucketize_right x boundaries) column).

(** [-t] for a tensor of dtype [dt]: booleans have no negation. *)
Definition torch_neg (dt : torch.dtype) (x : scalar) : result scalar :=
  match dt with
  | torch.bool => Raise RuntimeError
  | _ => Ok (match x with
             | NegInf => PosInf
             | Fin q => Fin (- q)
             | PosInf => NegInf
             end)
  end.

(** [l[1:-1]] *)
Definition slice_1_m1 {A : Type} (l : list A) : list A := removelast (tl l).

(** [torch.cat((neg_inf, column_bin_edges[1:-1], inf))] *)
Definition bin_boundaries (neg_inf inf : scalar) (column_bin_edges : list Q)
  : list float_value :=
  [Num neg_inf] ++ map real (slice_1_m1 column_bin_edges) ++ [Num inf].

Definition msg_bin_edges_size : string :=
  "The number of columns in X must be equal to the size of the `bin_edges` list".

(** [bin_edges] holds the reals of the edge tensors, which are taken to be
    of the dtype of [X], as [torch.bucketize] wants its two arguments. *)
Definition compute_bin_indices (X : Matrix) (bin_edges : list (list Q))
  : result (ndarray Z) :=
  if negb (ndim X =? 2)%nat then Raise (ValueError msg_X_two_dims) else
  if negb (n_cols X =? length bin_edges)%nat then Raise (ValueError msg_bin_edges_size) else
  (* inf = torch.tensor([math.inf], dtype=X.dtype): an integer dtype has no infinity *)
  inf <- torch_tensor (PyFloat PosInf) (matrix_dtype X) ;;
  neg_inf <- torch_neg (matrix_dtype X) inf ;;
  (* NOTE: torch.bucketize(..., right=True) is consistent with np.digitize(..., right=False) *)
  bin_indices_list <-
    mapM (fun ce =>
            buckets <- torch_bucketize (matrix_dtype X) (fst ce)
                         (bin_boundaries neg_inf inf (snd ce)) ;;
            Ok (map (fun k => k - 1) buckets))
         (combine (columns (real 0) X) bin_edges) ;;
  torch_stack1 0 bin_indices_list.

(** ** Piecewise-linear bin values *)

Definition msg_indices_shape : string := "X and indices must be of the same shape".
Definition msg_bin_edges_items : string :=
  "The number of columns in X must be equal to the number of items in bin_edges".
Definition msg_incompatible_indices (c_i : nat) : string :=
  "The indices in indices[:, " ++ str_of_nat c_i
  ++ "] are not compatible with bin_edges[" ++ str_of_nat c_i ++ "]".

(** [l[i]] for an integer index [i]. *)
Definition getitem (l : list Q) (i : Z) : result Q :=
  p <- normalize_index (Z.of_nat (length l)) i ;;
  Ok (nth p l 0%Q).

(** The sum of two integers of the integer dtype [dt], which wraps
    around. *)
Definition wrap (dt : torch.dtype) (z : Z) : Z :=
  match torch.int_range dt with
  | Some (lo, hi) => lo + (z - lo) mod (hi - lo + 1)
  | None => z
  end.

(** The body of the loop over the columns, for indices of the dtype [dt],
    int32 or int64. *)
Definition column_bin_values (dt : torch.dtype) (c_i : nat) (c_values : list float_value)
    (c_indices : list Z) (c_bin_edges : list Q) : result (list float_value) :=
  if any (map (fun i => Z.of_nat (length c_bin_edges) <=? wrap dt (i + 1)) c_indices)
  then Raise (ValueError (msg_incompatible_indices c_i)) else
  c_left_edges <- mapM (getitem c_bin_edges) c_indices ;;
  c_right_edges <- mapM (getitem c_bin_edges) (map (fun i => wrap dt (i + 1)) c_indices) ;;
  Ok (map (fun vlr => let '(v, (l, r)) := vlr in float_div (float_sub v l) (r - l)%Q)
          (combine c_values (combine c_left_edges c_right_edges))).

Section BinValues.

(** What the function does, once its three checks have passed, with an
    index tensor that is neither int32 nor int64: a tensor of uint8 or
    bool is a mask, not a tensor of indices, and the tensors of the other
    dtypes are refused as indices, each after the comparison of its
    column.  This is left open. *)
Variable other_index_dtype : Matrix -> Matrix -> list (list Q) -> result (ndarray float_value).

Definition compute_piecewise_linear_bin_values (X indices : Matrix)
    (bin_edges : list (list Q)) : result (ndarray float_value) :=
  if negb (ndim X =? 2)%nat then Raise (ValueError msg_X_two_dims) else
  if negb (shape_eqb (shape X) (shape indices)) then Raise (ValueError msg_indices_shape) else
  if negb (n_cols X =? length bin_edges)%nat then Raise (ValueError msg_bin_edges_items) else
  if negb (is_index_dtype (matrix_dtype indices))
  then other_index_dtype X indices bin_edges else
  values_list <-
    mapM (fun icvie => let '(c_i, (c_values, c_indices, c_bin_edges)) := icvie in
                       column_bin_values (matrix_dtype indices) c_i c_values
                         (map index_of c_indices) c_bin_edges)
         (enumerate (zip3 (columns (real 0) X) (columns (real 0) indices) bin_edges)) ;;
  torch_stack1 (real 0) values_list.

End BinValues.

(** ** Category sizes *)

Module np.

(** The classes of numpy dtypes that [issubclass(X.dtype.type,
    np.signedinteger)] tells apart. *)
Inductive kind : Type := signedinteger | unsignedinteger | floating | other.

End np.

(** The values of a signed integer type of [itemsize] bytes. *)
Definition np_int_range (itemsize : positive) : Z * Z :=
  (- 2 ^ (8 * Z.pos itemsize - 1), 2 ^ (8 * Z.pos itemsize - 1) - 1).

Definition np_fits (itemsize : positive) (v : Z) : bool :=
  (fst (np_int_range itemsize) <=? v) && (v <=? snd (np_int_range itemsize)).

(** The elements of an array that are read as integers: those of an array
    of a signed integer type. *)
Definition np_elements (k : np.kind) (X : ndarray Z) : list Z :=
  match k with np.signedinteger => data X | _ => [] end.

(** An array read as integers: its elements are read only when its dtype
    is a signed integer type, whose values they are. *)
Record int_array : Type := mk_int_array {
  np_kind : np.kind;
  np_itemsize : positive;
  int_values :> ndarray Z;
  np_in_range : forallb (np_fits np_itemsize) (np_elements np_kind int_values) = true
}.

Definition msg_two_dimensional : string := "X must be two-dimensional".
Definition msg_integer : string := "X data type must be integer".
Definition msg_min_value (i : nat) (min_value : Z) : string :=
  "The minimum value of column " ++ str_of_nat i ++ " is " ++ str_of_Z min_value
  ++ ", but it must be zero.".
Definition msg_not_covered (i : nat) (max_value : Z) : string :=
  "The values of column " ++ str_of_nat i
  ++ " do not fully cover the range from zero to maximum_value=" ++ str_of_Z max_value.

(** [a + b] for a numpy integer [a] of [itemsize] bytes and a Python int
    [b] that the type holds: the sum has the type of [a] and wraps around
    (numpy 2; before, the sum of a scalar narrower than 64 bits and a
    Python int was a 64-bit integer). *)
Definition np_add (itemsize : positive) (a b : Z) : Z :=
  let (lo, hi) := np_int_range itemsize in
  lo + (a + b - lo) mod (hi - lo + 1).

(** The body of the loop over the columns. *)
Definition category_size (itemsize : positive) (i : nat) (column : list Z) : result Z :=
  let unique_values := np_unique Z.leb column in
  min_value <- np_min Z.leb unique_values ;;
  if negb (min_value =? 0) then Raise (ValueError (msg_min_value i min_value)) else
  max_value <- np_max Z.leb unique_values ;;
  if negb (np_add itemsize max_value 1 =? Z.of_nat (length unique_values))
  then Raise (ValueError (msg_not_covered i max_value)) else
  Ok (Z.of_nat (length unique_values)).

Definition get_category_sizes (X : int_array) : result (list Z) :=
  if negb (ndim X =? 2)%nat then Raise (ValueError msg_two_dimensional) else
  match np_kind X with
  | np.signedinteger =>
      mapM (fun ic => category_size (np_itemsize X) (fst ic) (snd ic))
           (enumerate (columns 0 X))
  | _ => Raise (ValueError msg_integer)
  end.

(** ** The bounds of the piecewise-linear encoding *)

(** The entries of [lower_bounds] and of [upper_bounds] once the first and
    the last bin are relaxed, by the index of the slot. *)
Definition lower_bound (i : Z) : scalar := if i =? 0 then NegInf else Fin 0.
Definition upper_bound (d_encoding i : Z) : scalar :=
  if i + 1 =? d_encoding then PosInf else Fin 1.

(** ** Edge sequences and bins *)

Definition strictly_increasing (l : list Q) : Prop :=
  forall a b, (a < b < length l)%nat -> (nth a l 0 < nth b l 0)%Q.

(** [x] lies in bin [i] of the edge sequence [edges]: [edges[i] <= x <
    edges[i+1]], where the first edge counts as minus infinity and the
    last edge as plus infinity. *)
Definition in_bin (edges : list Q) (x : Q) (i : Z) : Prop :=
  0 <= i <= Z.of_nat (length edges) - 2 /\
  (i = 0 \/ (nth (Z.to_nat i) edges 0 <= x)%Q) /\
  (i = Z.of_nat (length edges) - 2 \/ (x < nth (Z.to_nat (i + 1)) edges 0)%Q).

(** [edges[i]] as Python reads it: a negative index counts from the end. *)
Definition edge_at (edges : list Q) (i : Z) : Q :=
  nth (Z.to_nat (if i <? 0 then i + Z.of_nat (length edges) else i)) edges 0%Q.

(** The position of [x] in bin [i]: [(x - edges[i]) / (edges[i+1] -
    edges[i])]. *)
Definition bin_fraction (edges : list Q) (x : Q) (i : Z) : Q :=
  ((x - edge_at edges i) / (edge_at edges (i + 1) - edge_at edges i))%Q.

(** The same for an element that may be an infinity or NaN, and for edges
    that may be equal, with the division of the floating-point numbers. *)
Definition bin_value (edges : list Q) (x : float_value) (i : Z) : float_value :=
  float_div (float_sub x (edge_at edges i)) (edge_at edges (i + 1) - edge_at edges i)%Q.

(** The real that a finite element holds. *)
Definition real_part (x : float_value) : Q :=
  match x with Num (Fin q) => q | _ => 0%Q end.

(** The values of the integer dtype [dt]. *)
Definition fits (dt : torch.dtype) (z : Z) : Prop :=
  match torch.int_range dt with
  | Some (lo, hi) => lo <= z <= hi
  | None => True
  end.

(** ** Columns of categories *)

(** The number of distinct values of a column. *)
Definition distinct_count (column : list Z) : nat := length (nodup Z.eq_dec column).

(** The values of the column are exactly the integers of [[0, M]]. *)
Definition covers_range (column : list Z) (M : Z) : Prop :=
  forall v, In v column <-> 0 <= v <= M.

Definition is_min (column : list Z) (m : Z) : Prop :=
  In m column /\ forall v, In v column -> m <= v.

Definition is_max (column : list Z) (M : Z) : Prop :=
  In M column /\ forall v, In v column -> v <= M.

(** ** Columns of reals *)

(** The number of distinct values of a column. *)
Definition n_distinct (column : list Q) : Z :=
  Z.of_nat (length (np_unique Qle_bool column)).

Definition is_min_Q (column : list Q) (m : Q) : Prop :=
  In m column /\ forall v, In v column -> (m <= v)%Q.

Definition is_max_Q (column : list Q) (M : Q) : Prop :=
  In M column /\ forall v, In v column -> (v <= M)%Q.

(** The bin count that a column ends up with. *)
Definition effective_bins (n_bins : Z) (column : list Q) : Z :=
  Z.min n_bins (n_distinct column).

(** The warnings of [_adjust_bin_counts]: one for each column with fewer
    distinct values than [n_bins], in the order of the columns. *)
Definition bin_warnings (n_bins : Z) (cols : list (nat * list Q)) : list string :=
  flat_map (fun ic => if n_distinct (snd ic) <? n_bins then [msg_fewer_bins (fst ic)] else [])
           cols.

(** ** Trees *)

(** A node is a split node when its two children differ. *)
Definition is_split (nd : node) : Prop := children_left nd <> children_right nd.

(** The edges of one column: the distinct values among the thresholds of
    the split nodes, the minimum and the maximum of the column. *)
Definition tree_edges_of (tree : Tree) (column edges : list Q) : Prop :=
  exists mn mx,
    is_min_Q column mn /\ is_max_Q column mx /\
    strictly_increasing edges /\
    (forall v, In v edges ->
       v = mn \/ v = mx \/ exists nd, In nd tree /\ is_split nd /\ threshold nd = v) /\
    (forall v, v = mn \/ v = mx \/ (exists nd, In nd tree /\ is_split nd /\ threshold nd = v) ->
       exists v', In v' edges /\ (v' == v)%Q).

(** A test for [strictly_increasing]. *)
Fixpoint increasingb (l : list Q) : bool :=
  match l with
  | [] => true
  | x :: l' =>
      match l' with
      | [] => true
      | y :: _ => Qltb x y && increasingb l'
      end
  end.

(** The tensor of dtype [dt] that holds the reals of [V]. *)
Definition float_tensor (dt : torch.dtype) (V : ndarray Q) : Tensor :=
  mk_Tensor dt (mk_ndarray (shape V) (map Fin (data V))).

(** * rtdl.nn: the constructors of the backbones

    [rtdl/nn/_backbones.py].  A module is the record of the submodules that
    its [__init__] assigns, and a constructor returns a [result], as the
    constructors that it calls may raise.  The forward passes, which
    compute with the layers of [torch.nn], are not part of this
    development. *)

Definition double_quote : string := String (Ascii.ascii_of_nat 34) EmptyString.

(** [range(n)] *)
Definition range (n : Z) : list Z := map Z.of_nat (seq 0 (Z.to_nat n)).

Definition is_empty {A : Type} (l : list A) : bool :=
  match l with [] => true | _ => false end.

Definition is_None {A : Type} (o : option A) : bool :=
  match o with None => true | Some _ => false end.

(** [pooling == s] for an optional string. *)
Definition eq_str (o : option string) (s : string) : bool :=
  match o with Some s' => String.eqb s' s | None => false end.

Definition msg_d_layers : string := "d_layers must be non-empty".
Definition msg_dropouts_size : string :=
  "if dropouts is a list, then its size must be equal to the size of d_layers".
Definition msg_n_blocks : string := "n_blocks must be positive".
Definition msg_dropout_float : string := "In this constructor, dropout must be float".
Definition msg_cls_token_index : string :=
  "if pooling == " ++ double_quote ++ "cls" ++ double_quote
  ++ ", then cls_token_index must be provided".
Definition msg_last_block_cls_only : string :=
  "if pooling != " ++ double_quote ++ "cls" ++ double_quote
  ++ ", then last_block_cls_only must be False".
Definition msg_pooling : string := "pooling must be one of: ['cls', 'avg']".
Definition msg_all_or_none : string :=
  "The arguments d_out, pooling, head_activation and head_normalization must be either all None or all not-None".
Definition msg_first_prenormalization : string :=
  "If prenormalization is False, then first_prenormalization must be False".
Definition warning_prenormalization : string :=
  "prenormalization is set to False. Are you sure about this? The training can become less stable. You can turn off this warning by tweaking the rtdl.nn.Transformer.WARNINGS dictionary.".
Definition warning_first_prenormalization : string :=
  "first_prenormalization is set to True. Are you sure about this? For example, the vanilla FTTransformer with first_prenormalization=True performs SIGNIFICANTLY worse. You can turn off this warning by tweaking the rtdl.nn.Transformer.WARNINGS dictionary.".

(** [Transformer.WARNINGS], a dictionary of the class with the two keys
    ['first_prenormalization'] and ['prenormalization'], which a user may
    set to [False]. *)
Record Transformer_WARNINGS : Type := mk_WARNINGS {
  WARNINGS_first_prenormalization : bool;
  WARNINGS_prenormalization : bool
}.

Definition WARNINGS : Transformer_WARNINGS := mk_WARNINGS true true.

Section Backbones.

(** What the constructors build on.  [nn.Linear] and [nn.Dropout] are
    classes of [torch.nn]; [make_nn_module], [MultiheadAttention], [ReGLU]
    and [all_or_none] are defined in other modules of the package.  A
    module type is the name of a module class or a callable that makes a
    module, and [make_nn_module] takes whatever it is given, [None]
    included. *)
Variable nn_Module : Type.
Variable callable : Type.
Variable is_ReGLU : callable -> bool.

Inductive ModuleType : Type :=
| module_name (name : string)
| module_factory (c : callable).

Variable make_nn_module : option ModuleType -> list Z -> result nn_Module.
Variable nn_Linear : Z -> Z -> bool -> result nn_Module.
Variable nn_Dropout : scalar -> result nn_Module.
Variable MultiheadAttention :
  Z -> Z -> scalar -> option scalar -> option string -> option Z -> result nn_Module.
Variable all_or_none :
  option Z -> option string -> option ModuleType -> option ModuleType -> result bool.

(** ** MLP *)

Record MLP_Block : Type := mk_MLP_Block {
  MLP_Block_linear : nn_Module;
  MLP_Block_activation : nn_Module;
  MLP_Block_dropout : nn_Module
}.

Definition MLP_Block_init (d_in d_out : Z) (bias : bool) (activation : ModuleType)
    (dropout : scalar) : result MLP_Block :=
  linear <- nn_Linear d_in d_out bias ;;
  activation <- make_nn_module (Some activation) [] ;;
  dropout <- nn_Dropout dropout ;;
  Ok (mk_MLP_Block linear activation dropout).

Record MLP : Type := mk_MLP {
  MLP_blocks : list MLP_Block;
  MLP_head : option nn_Module
}.

(** The argument [dropouts]: a float, or a list of floats. *)
Inductive dropouts_arg : Type :=
| dropouts_float (p : scalar)
| dropouts_list (l : list scalar).

Definition MLP_init (d_in : Z) (d_out : option Z) (d_layers : list Z)
    (dropouts : dropouts_arg) (activation : ModuleType) : result MLP :=
  if is_empty d_layers then Raise (ValueError msg_d_layers) else
  let dropouts :=
    match dropouts with
    | dropouts_float p => repeat p (length d_layers)
    | dropouts_list l => l
    end in
  if negb (length dropouts =? length d_layers)%nat
  then Raise (ValueError msg_dropouts_size) else
  blocks <- mapM (fun idd : nat * (Z * scalar) =>
                    let '(i, (d, dropout)) := idd in
                    MLP_Block_init
                      (if negb (i =? 0)%nat then nth (i - 1) d_layers 0 else d_in)
                      d true activation dropout)
                 (enumerate (combine d_layers dropouts)) ;;
  head <- match d_out with
          | None => Ok None
          | Some d_out =>
              (* Head = nn.Linear *)
              h <- nn_Linear (if negb (is_empty d_layers) then last d_layers 0 else d_in)
                             d_out true ;;
              Ok (Some h)
          end ;;
  Ok (mk_MLP blocks head).

Definition MLP_make_baseline (d_in : Z) (d_out : option Z) (n_blocks d_layer : Z)
    (dropout : Number) : result MLP :=
  if n_blocks <=? 0 then Raise (ValueError msg_n_blocks) else
  match dropout with
  | PyInt _ => Raise (ValueError msg_dropout_float)
  | PyFloat p =>
      MLP_init d_in d_out
        (if negb (n_blocks =? 0) then repeat d_layer (Z.to_nat n_blocks) else [])
        (dropouts_float p) (module_name "ReLU")
  end.

(** ** ResNet *)

Record ResNet_Block : Type := mk_ResNet_Block {
  ResNet_Block_normalization : nn_Module;
  ResNet_Block_linear_first : nn_Module;
  ResNet_Block_activation : nn_Module;
  ResNet_Block_dropout_first : nn_Module;
  ResNet_Block_linear_second : nn_Module;
  ResNet_Block_dropout_second : nn_Module;
  ResNet_Block_skip_connection : bool
}.

Definition ResNet_Block_init (d_main d_hidden : Z) (bias_first bias_second : bool)
    (dropout_first dropout_second : scalar) (normalization activation : ModuleType)
    (skip_connection : bool) : result ResNet_Block :=
  normalization <- make_nn_module (Some normalization) [d_main] ;;
  linear_first <- nn_Linear d_main d_hidden bias_first ;;
  activation <- make_nn_module (Some activation) [] ;;
  dropout_first <- nn_Dropout dropout_first ;;
  linear_second <- nn_Linear d_hidden d_main bias_second ;;
  dropout_second <- nn_Dropout dropout_second ;;
  Ok (mk_ResNet_Block normalization linear_first activation dropout_first
        linear_second dropout_second skip_connection).

Record ResNet_Head : Type := mk_ResNet_Head {
  ResNet_Head_normalization : nn_Module;
  ResNet_Head_activation : nn_Module;
  ResNet_Head_linear : nn_Module
}.

Definition ResNet_Head_init (d_in d_out : Z) (bias : bool)
    (normalization activation : ModuleType) : result ResNet_Head :=
  normalization <- make_nn_module (Some normalization) [d_in] ;;
  activation <- make_nn_module (Some activation) [] ;;
  linear <- nn_Linear d_in d_out bias ;;
  Ok (mk_ResNet_Head normalization activation linear).

Record ResNet : Type := mk_ResNet {
  ResNet_first_layer : nn_Module;
  ResNet_blocks : list ResNet_Block;
  ResNet_head : option ResNet_Head
}.

Definition ResNet_init (d_in : Z) (d_out : option Z) (n_blocks d_main d_hidden : Z)
    (dropout_first dropout_second : scalar) (normalization activation : ModuleType)
  : result ResNet :=
  first_layer <- nn_Linear d_in d_main true ;;
  blocks <- mapM (fun _ : Z =>
                    ResNet_Block_init d_main d_hidden true true dropout_first
                      dropout_second normalization activation true)
                 (range n_blocks) ;;
  head <- match d_out with
          | None => Ok None
          | Some d_out =>
              h <- ResNet_Head_init d_main d_out true normalization activation ;;
              Ok (Some h)
          end ;;
  Ok (mk_ResNet first_layer blocks head).

Definition ResNet_make_baseline (d_in : Z) (d_out : option Z) (n_blocks d_main d_hidden : Z)
    (dropout_first dropout_second : scalar) : result ResNet :=
  ResNet_init d_in d_out n_blocks d_main d_hidden dropout_first dropout_second
    (module_name "BatchNorm1d") (module_name "ReLU").

(** ** Transformer *)

(** [isinstance(module, str) and module == 'ReGLU' or module is ReGLU] *)
Definition _is_reglu (module : ModuleType) : bool :=
  match module with
  | module_name name => String.eqb name "ReGLU"
  | module_factory c => is_ReGLU c
  end.

Record Transformer_Block : Type := mk_Transformer_Block {
  Block_prenormalization : bool;
  Block_cls_token_index : option Z;
  Block_attention_normalization : nn_Module;
  Block_attention : nn_Module;
  Block_attention_residual_dropout : nn_Module;
  Block_attention_skip_connection : bool;
  Block_ffn_normalization : nn_Module;
  Block_ffn : list (string * nn_Module);
  Block_ffn_residual_dropout : nn_Module;
  Block_ffn_skip_connection : bool
}.

Definition Transformer_Block_init (d_embedding attention_n_heads : Z)
    (attention_dropout : scalar) (attention_normalization : ModuleType)
    (attention_residual_dropout : scalar) (attention_skip_connection : bool)
    (linformer_compression_ratio : option scalar) (linformer_sharing_policy : option string)
    (n_tokens : option Z) (ffn_d_hidden : Z) (ffn_dropout : scalar)
    (ffn_activation ffn_normalization : ModuleType) (ffn_residual_dropout : scalar)
    (ffn_skip_connection prenormalization : bool) (cls_token_index : option Z)
  : result Transformer_Block :=
  attention_normalization <- make_nn_module (Some attention_normalization) [d_embedding] ;;
  attention <- MultiheadAttention d_embedding attention_n_heads attention_dropout
                 linformer_compression_ratio linformer_sharing_policy n_tokens ;;
  attention_residual_dropout <- nn_Dropout attention_residual_dropout ;;
  ffn_normalization <- make_nn_module (Some ffn_normalization) [d_embedding] ;;
  let ffn_d_hidden_first := ffn_d_hidden * (if _is_reglu ffn_activation then 2 else 1) in
  first_linear <- nn_Linear d_embedding ffn_d_hidden_first true ;;
  activation <- make_nn_module (Some ffn_activation) [] ;;
  dropout <- nn_Dropout ffn_dropout ;;
  second_linear <- nn_Linear ffn_d_hidden d_embedding true ;;
  let ffn := [("first_linear", first_linear); ("activation", activation);
              ("dropout", dropout); ("second_linear", second_linear)] in
  ffn_residual_dropout <- nn_Dropout ffn_residual_dropout ;;
  Ok (mk_Transformer_Block prenormalization cls_token_index attention_normalization
        attention attention_residual_dropout attention_skip_connection
        ffn_normalization ffn ffn_residual_dropout ffn_skip_connection).

Record Transformer_Head : Type := mk_Transformer_Head {
  Transformer_Head_normalization : nn_Module;
  Transformer_Head_activation : nn_Module;
  Transformer_Head_linear : nn_Module
}.

Definition Transformer_Head_init (d_in d_out : Z) (bias : bool)
    (activation normalization : option ModuleType) : result Transformer_Head :=
  normalization <- make_nn_module normalization [d_in] ;;
  activation <- make_nn_module activation [] ;;
  linear <- nn_Linear d_in d_out bias ;;
  Ok (mk_Transformer_Head normalization activation linear).

(** The attributes of a [Transformer]: [self] is the dictionary of the
    attributes assigned so far, and reading an attribute that has not been
    assigned raises AttributeError, as [nn.Module.__getattr__] does. *)
Inductive Transformer_attribute : Type :=
| attr_blocks (blocks : list Transformer_Block)
| attr_pooling (pooling : option string)
| attr_head (head : option Transformer_Head).

Definition Transformer : Type := list (string * Transformer_attribute).

Definition getattr (self : Transformer) (name : string) : result Transformer_attribute :=
  match find (fun kv => String.eqb (fst kv) name) self with
  | Some kv => Ok (snd kv)
  | None => Raise AttributeError
  end.

Definition setattr (self : Transformer) (name : string) (v : Transformer_attribute)
  : Transformer :=
  (name, v) :: filter (fun kv => negb (String.eqb (fst kv) name)) self.

(** The truth value of an attribute. *)
Definition truth (v : Transformer_attribute) : bool :=
  match v with
  | attr_blocks blocks => negb (is_empty blocks)
  | attr_pooling None => false
  | attr_pooling (Some s) => negb (String.eqb s "")
  | attr_head None => false
  | attr_head (Some _) => true
  end.

Definition Transformer_init (WARNINGS : Transformer_WARNINGS)
    (d_embedding : Z) (d_out : option Z) (n_blocks : Z)
    (attention_n_heads : Z) (attention_dropout : scalar)
    (attention_normalization : ModuleType) (attention_residual_dropout : scalar)
    (ffn_d_hidden : Z) (ffn_dropout : scalar)
    (ffn_activation ffn_normalization : ModuleType) (ffn_residual_dropout : scalar)
    (prenormalization first_prenormalization : bool)
    (pooling : option string) (cls_token_index : option Z) (last_block_cls_only : bool)
    (head_activation head_normalization : option ModuleType)
    (linformer_compression_ratio : option scalar) (linformer_sharing_policy : option string)
    (n_tokens : option Z) : warns Transformer :=
  (* super().__init__() *)
  let self : Transformer := [] in
  if n_blocks <? 1 then quiet (Raise (ValueError msg_n_blocks)) else
  if eq_str pooling "cls" && is_None cls_token_index
  then quiet (Raise (ValueError msg_cls_token_index)) else
  if negb (eq_str pooling "cls") && last_block_cls_only
  then quiet (Raise (ValueError msg_last_block_cls_only)) else
  if negb (eq_str pooling "cls" || eq_str pooling "avg")
  then quiet (Raise (ValueError msg_pooling)) else
  match all_or_none d_out pooling head_activation head_normalization with
  | Raise e => quiet (Raise e)
  | Ok all_or_none_ =>
      if negb all_or_none_ then quiet (Raise (ValueError msg_all_or_none)) else
      let ws1 :=
        if negb prenormalization && WARNINGS_prenormalization WARNINGS
        then [warning_prenormalization] else [] in
      if negb prenormalization && first_prenormalization
      then (ws1, Raise (ValueError msg_first_prenormalization)) else
      let ws2 :=
        if prenormalization && first_prenormalization
           && WARNINGS_first_prenormalization WARNINGS
        then [warning_first_prenormalization] (* time.sleep(3) *) else [] in
      ((ws1 ++ ws2)%list,
       blocks <- mapM (fun block_idx : Z =>
                         self_prenormalization <- getattr self "prenormalization" ;;
                         Transformer_Block_init d_embedding attention_n_heads
                           attention_dropout
                           (if truth self_prenormalization && (block_idx =? 0)
                               && negb first_prenormalization
                            then module_name "Identity" else attention_normalization)
                           attention_residual_dropout true
                           linformer_compression_ratio linformer_sharing_policy n_tokens
                           ffn_d_hidden ffn_dropout ffn_activation ffn_normalization
                           ffn_residual_dropout true prenormalization
                           (if last_block_cls_only && (block_idx =? n_blocks - 1)
                            then cls_token_index else None))
                      (range n_blocks) ;;
       let self := setattr self "blocks" (attr_blocks blocks) in
       let self := setattr self "pooling" (attr_pooling pooling) in
       head <- match d_out with
               | None => Ok None
               | Some d_out =>
                   h <- Transformer_Head_init d_embedding d_out true head_activation
                          (if prenormalization then head_normalization
                           else Some (module_name "Identity")) ;;
                   Ok (Some h)
               end ;;
       Ok (setattr self "head" (attr_head head)))
  end.

Definition Transformer_make_baseline (WARNINGS : Transformer_WARNINGS)
    (d_embedding : Z) (d_out : option Z) (n_blocks : Z)
    (attention_n_heads : Z) (attention_dropout : scalar)
    (ffn_d_hidden : Z) (ffn_dropout : scalar) (activation : ModuleType)
    (residual_dropout : scalar)
    (pooling : option string) (cls_token_index : option Z) (last_block_cls_only : bool)
    (linformer_compression_ratio : option scalar) (linformer_sharing_policy : option string)
    (n_tokens : option Z) : warns Transformer :=
  let normalization := module_name "LayerNorm" in
  Transformer_init WARNINGS d_embedding d_out n_blocks attention_n_heads attention_dropout
    normalization residual_dropout ffn_d_hidden ffn_dropout activation normalization
    residual_dropout true false pooling cls_token_index last_block_cls_only
    (Some (if _is_reglu activation then module_name "ReLU" else activation))
    (Some normalization)
    linformer_compression_ratio linformer_sharing_policy n_tokens.

End Backbones.

Arguments module_name {callable} name.
Arguments module_factory {callable} c.
Arguments MLP_Block_linear {nn_Module} m.
Arguments MLP_Block_activation {nn_Module} m.
Arguments MLP_Block_dropout {nn_Module} m.
Arguments MLP_blocks {nn_Module} m.
Arguments MLP_head {nn_Module} m.
Arguments ResNet_first_layer {nn_Module} r.
Arguments ResNet_blocks {nn_Module} r.
Arguments ResNet_head {nn_Module} r.
Arguments ResNet_Head_linear {nn_Module} r.
Arguments getattr {nn_Module} self name.
Arguments setattr {nn_Module} self name v.
Arguments truth {nn_Module} v.

(** Stand-ins for the layers, for the examples: a layer is the text of the
    call that makes it.  [nn.Linear] refuses a negative size, [nn.Dropout]
    a probability outside of [0, 1]. *)
Module SampleNet.

Definition layer : Type := string.

Definition callable : Type := Empty_set.

Definition is_ReGLU (c : callable) : bool := match c with end.

Definition make_nn_module (module_type : option (ModuleType callable)) (args : list Z)
  : result layer :=
  match module_type with
  | Some (module_name name) => Ok name
  | Some (module_factory c) => match c with end
  | None => Raise (ValueError "None")
  end.

Definition nn_Linear (in_features out_features : Z) (bias : bool) : result layer :=
  if (in_features <? 0) || (out_features <? 0) then Raise RuntimeError
  else Ok ("Linear(" ++ str_of_Z in_features ++ ", " ++ str_of_Z out_features ++ ")").

Definition nn_Dropout (p : scalar) : result layer :=
  if scalar_ltb p (Fin 0) || scalar_ltb (Fin 1) p
  then Raise (ValueError "dropout probability has to be between 0 and 1")
  else Ok "Dropout".

Definition MultiheadAttention (d_embedding n_heads : Z) (dropout : scalar)
    (linformer_compression_ratio : option scalar) (linformer_sharing_policy : option string)
    (n_tokens : option Z) : result layer :=
  Ok "MultiheadAttention".

Definition all_or_none (d_out : option Z) (pooling : option string)
    (head_activation head_normalization : option (ModuleType callable)) : result bool :=
  let nones := [is_None d_out; is_None pooling; is_None head_activation;
                is_None head_normalization] in
  Ok (forallb (fun b => b) nones || forallb negb nones).

End SampleNet.

(** ** Sample inputs *)

Module Sample.

(** Three objects with two features. *)
Definition X : ndarray Q :=
  mk_ndarray [3%nat; 2%nat] [1; 10; 2; 20; 5; 20]%Q.

Definition bin_edges : list (list Q) := [[1; 2; 5]%Q; [10; 20]%Q].

(** One object, one value under and one value over the training range. *)
Definition X_beyond : ndarray Q := mk_ndarray [1%nat; 2%nat] [-1; 40]%Q.

Definition first_bins : ndarray Z := mk_ndarray [1%nat; 2%nat] [0; 0].

(** A matrix without columns. *)
Definition X_no_column : ndarray Q := mk_ndarray [3%nat; 0%nat] [].

Definition X_one : ndarray Q := mk_ndarray [1%nat; 1%nat] [1 # 2]%Q.

Definition index_before_start : ndarray Z := mk_ndarray [1%nat; 1%nat] [-3].

(** One object whose two features lie in the first and in the last of
    three bins. *)
Definition indices : ndarray Z := mk_ndarray [1%nat; 2%nat] [0; 2].

Definition values : Tensor :=
  mk_Tensor torch.float32 (mk_ndarray [1%nat; 2%nat] [Fin (1 # 2); Fin (1 # 4)]).

(** A value under 0 in the first bin and a value over 1 in the last bin. *)
Definition values_beyond : Tensor :=
  mk_Tensor torch.float32 (mk_ndarray [1%nat; 2%nat] [Fin (- (1 # 2)); Fin (3 # 2)]).

(** The example of the docstring of [get_category_sizes]. *)
Definition categories : int_array :=
  mk_int_array np.signedinteger 8 (mk_ndarray [3%nat; 3%nat] [0; 0; 0; 1; 0; 0; 2; 1; 0])
    eq_refl.

(** A column with the values 0 and 2, and a column that starts at 1. *)
Definition categories_gap : int_array :=
  mk_int_array np.signedinteger 8 (mk_ndarray [2%nat; 1%nat] [0; 2]) eq_refl.

Definition categories_from_one : int_array :=
  mk_int_array np.signedinteger 8 (mk_ndarray [2%nat; 1%nat] [1; 2]) eq_refl.

(** The 128 categories 0, ..., 127 in a column of 8-bit integers:
    [np.arange(128, dtype=np.int8).reshape(-1, 1)]. *)
Definition categories_int8 : int_array :=
  mk_int_array np.signedinteger 1
    (mk_ndarray [128%nat; 1%nat] (map Z.of_nat (seq 0 128))) eq_refl.

(** A stand-in for what is left open about the index tensors that are
    neither int32 nor int64.  The examples have int64 indices and do not
    depend on it. *)
Definition no_index (X indices : Matrix) (bin_edges : list (list Q))
  : result (ndarray float_value) :=
  Raise IndexError.

(** A fitter that returns one split node, at [3/2], and its two leaves. *)
Definition stump (regression : bool) (max_leaf_nodes : Z) (tree_kwargs : list (string * unit))
    (column : list Q) (y : list Q) : Tree :=
  [mk_node 1 2 (3 # 2); mk_node (-1) (-1) (-2); mk_node (-1) (-1) (-2)].

Definition y : list Q := [0; 0; 1]%Q.

End Sample.

(** * Properties *)

(** ** Results *)

Lemma bind_Ok {A B : Type} (r : result A) (k : A -> result B) (b : B) :
  bind r k = Ok b -> exists a, r = Ok a /\ k a = Ok b.
Proof.
  destruct r as [a | e]; simpl; intros H; [eauto | discriminate].
Qed.

Lemma is_Ok_bind_Raise {A B : Type} (r : result A) (k : A -> result B) :
  (forall a, is_Ok (k a) = false) -> is_Ok (bind r k) = false.
Proof.
  intros H. destruct r; simpl; auto.
Qed.

Lemma is_Ok_false_Raise {A : Type} (r : result A) :
  is_Ok r = false <-> exists e, r = Raise e.
Proof.
  destruct r; simpl; split; intros H; try discriminate; eauto.
  destruct H as [e H]; discriminate.
Qed.

(** ** The dtype guard of [_LVR_encoding] *)

(** A string that starts with a character that [hay] does not hold is not
    a substring of [hay]. *)
Lemma str_in_first_char (c : ascii) (needle hay : string) :
  occurs c hay = false -> str_in (String c needle) hay = false.
Proof.
  induction hay as [| c' hay IH]; simpl; intros H.
  - reflexivity.
  - apply orb_false_iff in H. destruct H as [Hc Hhay].
    rewrite (IH Hhay), orb_false_r.
    destruct (ascii_dec c c') as [-> | Hne].
    + rewrite Ascii.eqb_refl in Hc. discriminate.
    + reflexivity.
Qed.

Lemma str_type_not_in (t : py_type) (s : string) :
  occurs "<"%char s = false -> str_in (str_type t) s = false.
Proof.
  intros H. destruct t; apply str_in_first_char; exact H.
Qed.

Lemma dtype_str_no_bracket (dt : torch.dtype) : occurs "<"%char (torch.str dt) = false.
Proof.
  destruct dt; reflexivity.
Qed.

Lemma dtype_guard (t : py_type) (dt : torch.dtype) :
  str_in (str_type t) (torch.str dt) = false.
Proof.
  apply str_type_not_in, dtype_str_no_bracket.
Qed.

Lemma LVR_encoding_same_type values indices d_encoding left right :
  type left = type right ->
  _LVR_encoding values indices d_encoding left right = Raise (ValueError msg_dtype).
Proof.
  intros Ht. unfold _LVR_encoding. rewrite Ht.
  replace (py_type_eqb (type right) (type right)) with true by (destruct (type right); reflexivity).
  simpl. rewrite dtype_guard. reflexivity.
Qed.

Lemma LVR_encoding_other_type values indices d_encoding left right :
  type left <> type right ->
  _LVR_encoding values indices d_encoding left right = Raise (ValueError msg_same_type).
Proof.
  intros Ht. unfold _LVR_encoding.
  destruct (type left), (type right); simpl; try reflexivity; congruence.
Qed.

Lemma LVR_encoding_raises values indices d_encoding left right :
  is_Ok (_LVR_encoding values indices d_encoding left right) = false.
Proof.
  destruct (py_type_eqb (type left) (type right)) eqn:E.
  - rewrite LVR_encoding_same_type; [reflexivity |].
    destruct (type left), (type right); simpl in E; congruence.
  - rewrite LVR_encoding_other_type; [reflexivity |].
    intros Ht. rewrite Ht in E. destruct (type right); discriminate.
Qed.

Lemma call_class_type (t : py_type) (z : Z) : type (call_class t z) = t.
Proof.
  destruct t; reflexivity.
Qed.

Lemma ordinal_binary_encoding_raises indices d_encoding dtype :
  is_Ok (ordinal_binary_encoding indices d_encoding dtype) = false.
Proof.
  unfold ordinal_binary_encoding.
  repeat (apply is_Ok_bind_Raise; intros ?).
  apply LVR_encoding_raises.
Qed.

Lemma torch_full_ones (s : list nat) (dt : torch.dtype) (cls : py_type) :
  _get_scalar_class dt = Ok cls -> exists t, torch_full s 1 dt = Ok t.
Proof.
  destruct dt; vm_compute; intros H; try discriminate; eauto.
Qed.

Lemma ordinal_binary_encoding_supported indices d_encoding dtype dt cls :
  _get_torch_dtype dtype = Ok dt ->
  _get_scalar_class dt = Ok cls ->
  ordinal_binary_encoding indices d_encoding dtype = Raise (ValueError msg_dtype).
Proof.
  intros Hdt Hcls. unfold ordinal_binary_encoding.
  rewrite Hdt. simpl. rewrite Hcls. simpl.
  destruct (torch_full_ones (shape indices) dt cls Hcls) as [t ->]. simpl.
  apply LVR_encoding_same_type. now rewrite !call_class_type.
Qed.

Lemma piecewise_linear_encoding_raises values indices d_encoding :
  is_Ok (piecewise_linear_encoding values indices d_encoding) = false.
Proof.
  unfold piecewise_linear_encoding.
  repeat (apply is_Ok_bind_Raise; intros ?).
  destruct (any _); [reflexivity |].
  repeat (apply is_Ok_bind_Raise; intros ?).
  destruct (any _); [reflexivity |].
  apply LVR_encoding_raises.
Qed.

(** ** The domain validation of [piecewise_linear_encoding] *)

Lemma any_map {A : Type} (f : A -> bool) (l : list A) : any (map f l) = existsb f l.
Proof.
  unfold any. induction l as [| x l IH]; simpl; [reflexivity | now rewrite IH].
Qed.

Lemma any_combine_map_r {A B C : Type} (f : A -> C -> bool) (g : B -> C)
    (l : list A) (l' : list B) :
  any (map (fun xy => f (fst xy) (snd xy)) (combine l (map g l')))
  = existsb (fun xy => f (fst xy) (g (snd xy))) (combine l l').
Proof.
  unfold any. revert l'.
  induction l as [| a l IH]; intros [| b l']; simpl; try reflexivity.
  now rewrite IH.
Qed.

Lemma torch_tensor_floating (x : scalar) (dt : torch.dtype) :
  torch.is_floating_point dt = true -> torch_tensor (PyFloat x) dt = Ok x.
Proof.
  destruct dt; simpl; intros H; try discriminate; reflexivity.
Qed.

Lemma floating_not_complex (dt : torch.dtype) :
  torch.is_floating_point dt = true -> torch.is_complex dt = false.
Proof.
  destruct dt; simpl; intros H; try discriminate; reflexivity.
Qed.

Lemma is_prefix_refl (s : list nat) : is_prefix s s = true.
Proof.
  unfold is_prefix, shape_eqb. rewrite firstn_all.
  destruct (list_eq_dec Nat.eq_dec s s); congruence.
Qed.

Lemma masked_data_from (p : Z -> bool) (x c : scalar) (vals : list scalar) :
  forall (idx pre : list Z),
    length idx = length vals ->
    map (fun ke => if nth (fst ke / 1)%nat (map p (pre ++ idx)) false then x else snd ke)
        (combine (seq (length pre) (length (map (fun _ => c) vals)))
                 (map (fun _ => c) vals))
    = map (fun i => if p i then x else c) idx.
Proof.
  induction vals as [| v vals IH]; intros [| i idx] pre Hlen; simpl in Hlen;
    try discriminate; [reflexivity |].
  cbn [map combine seq length fst snd]. f_equal.
  - rewrite Nat.div_1_r, map_app, app_nth2 by (rewrite length_map; lia).
    rewrite length_map, Nat.sub_diag. reflexivity.
  - specialize (IH idx (pre ++ [i])%list).
    rewrite <- app_assoc, length_app in IH. simpl in IH.
    rewrite Nat.add_1_r in IH. apply IH. lia.
Qed.

Lemma masked_assign_bound (p : Z -> bool) (x : scalar) (c : Z) (values : Tensor)
    (indices : ndarray Z) :
  torch.is_floating_point (dtype values) = true ->
  shape indices = shape values ->
  length (data indices) = length (data values) ->
  masked_assign (like c values) (mk_ndarray (shape indices) (map p (data indices))) x
  = Ok (mk_Tensor (dtype values)
          (mk_ndarray (shape values)
             (map (fun i => if p i then x else scalar_of_Z c) (data indices)))).
Proof.
  intros Hfl Hsh Hlen. unfold masked_assign, like.
  cbn [dtype values_of shape data].
  rewrite (torch_tensor_floating x _ Hfl). cbn [bind].
  rewrite Hsh, is_prefix_refl, skipn_all. cbn [numel fold_right].
  unfold enumerate.
  pose proof (masked_data_from p x (scalar_of_Z c) (data values) (data indices) [] Hlen) as E.
  cbn [app length] in E. rewrite E. reflexivity.
Qed.

(** On a floating-point tensor and an index tensor of its shape, the
    function is two checks of every slot against its bounds, and then the
    call of [_LVR_encoding]. *)
Lemma piecewise_linear_encoding_checks (values : Tensor) (indices : ndarray Z) (d_encoding : Z) :
  torch.is_floating_point (dtype values) = true ->
  shape indices = shape values ->
  length (data indices) = length (data values) ->
  piecewise_linear_encoding values indices d_encoding =
  if existsb (fun vi => scalar_ltb (fst vi) (lower_bound (snd vi)))
             (combine (data values) (data indices))
  then Raise (ValueError pwl_message)
  else if existsb (fun vi => scalar_ltb (upper_bound d_encoding (snd vi)) (fst vi))
                  (combine (data values) (data indices))
  then Raise (ValueError pwl_message)
  else Raise (ValueError msg_dtype).
Proof.
  intros Hfl Hsh Hlen. unfold piecewise_linear_encoding.
  rewrite (masked_assign_bound (fun i => i =? 0) NegInf 0 values indices Hfl Hsh Hlen).
  cbn [bind]. unfold tensor_lt. cbn [dtype values_of data].
  rewrite (floating_not_complex _ Hfl). cbn [bind].
  rewrite (any_combine_map_r scalar_ltb
             (fun i => if i =? 0 then NegInf else scalar_of_Z 0)).
  change (fun xy : scalar * Z =>
            scalar_ltb (fst xy) (if snd xy =? 0 then NegInf else scalar_of_Z 0))
    with (fun vi : scalar * Z => scalar_ltb (fst vi) (lower_bound (snd vi))).
  destruct (existsb _ _); [reflexivity |].
  rewrite (masked_assign_bound (fun i => i + 1 =? d_encoding) PosInf 1 values indices Hfl Hsh Hlen).
  cbn [bind]. unfold tensor_gt. cbn [dtype values_of data].
  rewrite (floating_not_complex _ Hfl). cbn [bind].
  rewrite (any_combine_map_r (fun v b => scalar_ltb b v)
             (fun i => if i + 1 =? d_encoding then PosInf else scalar_of_Z 1)).
  change (fun xy : scalar * Z =>
            scalar_ltb (if snd xy + 1 =? d_encoding then PosInf else scalar_of_Z 1) (fst xy))
    with (fun vi : scalar * Z => scalar_ltb (upper_bound d_encoding (snd vi)) (fst vi)).
  destruct (existsb _ _); [reflexivity |].
  apply LVR_encoding_same_type. reflexivity.
Qed.

Lemma In_combine_nth {A B : Type} (l : list A) (l' : list B) (k : nat) (a : A) (b : B) :
  length l' = length l -> (k < length l)%nat ->
  In (nth k l a, nth k l' b) (combine l l').
Proof.
  intros Hlen Hk. rewrite <- combine_nth by congruence.
  apply nth_In. rewrite length_combine. lia.
Qed.

(** A value under the lower bound of its slot is refused. *)
Lemma piecewise_linear_encoding_below (values : Tensor) (indices : ndarray Z)
    (d_encoding : Z) (k : nat) :
  torch.is_floating_point (dtype values) = true ->
  shape indices = shape values ->
  length (data indices) = length (data values) ->
  (k < length (data values))%nat ->
  scalar_ltb (nth k (data values) (Fin 0)) (lower_bound (nth k (data indices) 0)) = true ->
  piecewise_linear_encoding values indices d_encoding = Raise (ValueError pwl_message).
Proof.
  intros Hfl Hsh Hlen Hk Hlt.
  rewrite piecewise_linear_encoding_checks by assumption.
  replace (existsb _ _) with true; [reflexivity |].
  symmetry. apply existsb_exists.
  exists (nth k (data values) (Fin 0), nth k (data indices) 0). split.
  - now apply In_combine_nth.
  - exact Hlt.
Qed.

(** A value over the upper bound of its slot is refused. *)
Lemma piecewise_linear_encoding_above (values : Tensor) (indices : ndarray Z)
    (d_encoding : Z) (k : nat) :
  torch.is_floating_point (dtype values) = true ->
  shape indices = shape values ->
  length (data indices) = length (data values) ->
  (k < length (data values))%nat ->
  scalar_ltb (upper_bound d_encoding (nth k (data indices) 0)) (nth k (data values) (Fin 0)) = true ->
  piecewise_linear_encoding values indices d_encoding = Raise (ValueError pwl_message).
Proof.
  intros Hfl Hsh Hlen Hk Hlt.
  rewrite piecewise_linear_encoding_checks by assumption.
  destruct (existsb _ _); [reflexivity |].
  replace (existsb _ _) with true; [reflexivity |].
  symmetry. apply existsb_exists.
  exists (nth k (data values) (Fin 0), nth k (data indices) 0). split.
  - now apply In_combine_nth.
  - exact Hlt.
Qed.

(** When every value is within the bounds of its slot, the validation
    lets the call through, which then ends in [_LVR_encoding]. *)
Lemma piecewise_linear_encoding_within (values : Tensor) (indices : ndarray Z)
    (d_encoding : Z) :
  torch.is_floating_point (dtype values) = true ->
  shape indices = shape values ->
  length (data indices) = length (data values) ->
  (forall v i, In (v, i) (combine (data values) (data indices)) ->
     scalar_ltb v (lower_bound i) = false /\ scalar_ltb (upper_bound d_encoding i) v = false) ->
  piecewise_linear_encoding values indices d_encoding = Raise (ValueError msg_dtype).
Proof.
  intros Hfl Hsh Hlen Hin.
  rewrite piecewise_linear_encoding_checks by assumption.
  assert (H1 : existsb (fun vi => scalar_ltb (fst vi) (lower_bound (snd vi)))
                 (combine (data values) (data indices)) = false).
  { apply not_true_is_false. intros H. apply existsb_exists in H.
    destruct H as [[v i] [Hvi H]]. simpl in H.
    destruct (Hin v i Hvi) as [H' _]. congruence. }
  assert (H2 : existsb (fun vi => scalar_ltb (upper_bound d_encoding (snd vi)) (fst vi))
                 (combine (data values) (data indices)) = false).
  { apply not_true_is_false. intros H. apply existsb_exists in H.
    destruct H as [[v i] [Hvi H]]. simpl in H.
    destruct (Hin v i Hvi) as [_ H']. congruence. }
  rewrite H1, H2. reflexivity.
Qed.

(** The bounds of a slot that is neither in the first nor in the last bin
    are 0 and 1. *)
Lemma middle_bin_bounds (d_encoding i : Z) :
  0 < i -> i + 1 < d_encoding ->
  lower_bound i = Fin 0 /\ upper_bound d_encoding i = Fin 1.
Proof.
  intros H0 H1. unfold lower_bound, upper_bound.
  destruct (Z.eqb_spec i 0); [lia |].
  destruct (Z.eqb_spec (i + 1) d_encoding); [lia |]. split; reflexivity.
Qed.

(** A value outside of [0, 1] in a bin that is neither the first nor the
    last is refused. *)
Lemma piecewise_linear_encoding_middle_bin (values : Tensor) (indices : ndarray Z)
    (d_encoding : Z) (k : nat) :
  torch.is_floating_point (dtype values) = true ->
  shape indices = shape values ->
  length (data indices) = length (data values) ->
  (k < length (data values))%nat ->
  0 < nth k (data indices) 0 ->
  nth k (data indices) 0 + 1 < d_encoding ->
  scalar_ltb (nth k (data values) (Fin 0)) (Fin 0) = true \/
  scalar_ltb (Fin 1) (nth k (data values) (Fin 0)) = true ->
  piecewise_linear_encoding values indices d_encoding = Raise (ValueError pwl_message).
Proof.
  intros Hfl Hsh Hlen Hk H0 H1 Hv.
  destruct (middle_bin_bounds d_encoding _ H0 H1) as [Hlo Hhi].
  destruct Hv as [Hv | Hv].
  - apply (piecewise_linear_encoding_below values indices d_encoding k); try assumption.
    now rewrite Hlo.
  - apply (piecewise_linear_encoding_above values indices d_encoding k); try assumption.
    now rewrite Hhi.
Qed.

(** Past the guard, the fill reads its positions from the values: on the
    all-ones int64 tensor of [ordinal_binary_encoding], every slot gets
    [1, 1, 0] for the width 3, whatever its index is. *)
Lemma LVR_fill_ones :
  let ones := mk_Tensor torch.int64 (mk_ndarray [1%nat; 2%nat] [Fin 1; Fin 1]) in
  LVR_fill ones ones 3 (PyInt 1) (PyInt 0)
  = Ok (mk_Tensor torch.int64
          (mk_ndarray [1%nat; 2%nat; 3%nat] [Fin 1; Fin 1; Fin 0; Fin 1; Fin 1; Fin 0])).
Proof.
  reflexivity.
Qed.

(** The name [indices] is rebound to [values] on entry: the index tensor
    that the caller passes is never read. *)
Lemma LVR_encoding_ignores_indices values indices indices' d_encoding left right :
  _LVR_encoding values indices d_encoding left right
  = _LVR_encoding values indices' d_encoding left right.
Proof.
  reflexivity.
Qed.

(** ** Arrays: columns and stacking *)

Lemma nth_map_lt {A B : Type} (f : A -> B) (l : list A) (k : nat) (a : A) (b : B) :
  (k < length l)%nat -> nth k (map f l) b = f (nth k l a).
Proof.
  intros Hk. rewrite (nth_indep _ b (f a)) by (rewrite length_map; exact Hk).
  apply map_nth.
Qed.

Lemma shape_2d {A : Type} (X : ndarray A) :
  ndim X = 2%nat -> shape X = [n_rows X; n_cols X].
Proof.
  unfold ndim, n_rows, n_cols.
  destruct (shape X) as [| a [| b [| c s]]]; simpl; intros H; try discriminate.
  reflexivity.
Qed.

Lemma length_column {A : Type} (d : A) (X : ndarray A) (j : nat) :
  length (column d X j) = n_rows X.
Proof.
  unfold column. now rewrite length_map, length_seq.
Qed.

Lemma length_columns {A : Type} (d : A) (X : ndarray A) :
  length (columns d X) = n_cols X.
Proof.
  unfold columns. now rewrite length_map, length_seq.
Qed.

Lemma nth_column {A : Type} (d : A) (X : ndarray A) (i j : nat) :
  (i < n_rows X)%nat -> nth i (column d X j) d = get2 d X i j.
Proof.
  intros Hi. unfold column.
  rewrite (nth_map_lt _ _ _ 0%nat) by (rewrite length_seq; exact Hi).
  now rewrite seq_nth.
Qed.

Lemma nth_columns {A : Type} (d : A) (X : ndarray A) (j : nat) (c : list A) :
  (j < n_cols X)%nat -> nth j (columns d X) c = column d X j.
Proof.
  intros Hj. unfold columns.
  rewrite (nth_map_lt _ _ _ 0%nat) by (rewrite length_seq; exact Hj).
  now rewrite seq_nth.
Qed.

(** The entry [(i, j)] of a list of rows of one length laid out row after
    row. *)
Lemma nth_flat_map_rows {A : Type} (g : nat -> list A) (f : nat) (d : A) :
  (forall i, length (g i) = f) ->
  forall n a i j, (i < n)%nat -> (j < f)%nat ->
    nth (i * f + j) (flat_map g (seq a n)) d = nth j (g (a + i)%nat) d.
Proof.
  intros Hg. induction n as [| n IH]; intros a i j Hi Hj; [lia |].
  simpl. destruct i as [| i].
  - simpl. rewrite app_nth1 by (rewrite Hg; exact Hj). now rewrite Nat.add_0_r.
  - rewrite app_nth2 by (rewrite Hg; simpl; lia).
    rewrite Hg. replace (S i * f + j - f)%nat with (i * f + j)%nat by (simpl; lia).
    rewrite IH by lia. f_equal. f_equal. lia.
Qed.

Lemma get2_stack1 {A : Type} (d : A) (n : nat) (cols : list (list A)) (i j : nat) :
  (i < n)%nat -> (j < length cols)%nat ->
  get2 d (stack1 d n cols) i j = nth i (nth j cols []) d.
Proof.
  intros Hi Hj. unfold get2, stack1, n_cols. simpl.
  rewrite (nth_flat_map_rows _ (length cols)); try assumption.
  - simpl. now rewrite (nth_map_lt _ _ _ []).
  - intros k. now rewrite length_map.
Qed.

Lemma torch_stack1_columns {A : Type} (d : A) (n : nat) (cols : list (list A)) :
  (0 < length cols)%nat ->
  (forall c, In c cols -> length c = n) ->
  torch_stack1 d cols = Ok (stack1 d n cols).
Proof.
  destruct cols as [| c cols]; simpl; intros Hpos Hlen; [lia |].
  now rewrite (Hlen c (or_introl eq_refl)).
Qed.

(** ** The order of the elements *)

Lemma Qltb_lt (x y : Q) : Qltb x y = true <-> (x < y)%Q.
Proof.
  unfold Qltb. rewrite negb_true_iff. split; intros H.
  - apply Qnot_le_lt. intros Hle. apply Qle_bool_iff in Hle. congruence.
  - apply not_true_is_false. intros Hle. apply Qle_bool_iff in Hle.
    exact (Qlt_not_le _ _ H Hle).
Qed.

Lemma Qltb_ge (x y : Q) : Qltb x y = false <-> (y <= x)%Q.
Proof.
  unfold Qltb. rewrite negb_false_iff. apply Qle_bool_iff.
Qed.

(** ** Bin indices *)

(** *** The binary search *)

Lemma half_le (n : nat) : (1 <= n -> n / 2 <= n - 1)%nat.
Proof.
  intros H. pose proof (Nat.Div0.mul_div_le n 2). lia.
Qed.

(** The search ends within its interval, next to a boundary that is not
    greater than the value if it has gone right, and on a boundary that is
    greater if it has gone left, whatever the order of the boundaries. *)
Lemma cus_upper_bound_spec (bd : list float_value) (val : float_value) (steps : nat) :
  forall start end_, (start <= end_)%nat -> (end_ - start <= steps)%nat ->
  let r := cus_upper_bound steps bd val start end_ in
  (start <= r <= end_)%nat /\
  ((start < r)%nat -> float_gtb (nth (r - 1) bd NaN) val = false) /\
  ((r < end_)%nat -> float_gtb (nth r bd NaN) val = true).
Proof.
  induction steps as [| steps IH]; intros start end_ Hle Hsteps; cbn [cus_upper_bound].
  - repeat split; lia.
  - destruct (Nat.ltb_spec start end_) as [Hlt | Hge]; [| repeat split; lia].
    pose proof (half_le (end_ - start) ltac:(lia)) as Hhalf.
    set (mid := (start + (end_ - start) / 2)%nat) in *.
    destruct (float_gtb (nth mid bd NaN) val) eqn:Emid; cbn [negb].
    + destruct (IH start mid ltac:(lia) ltac:(lia)) as [Hr [Hleft Hright]].
      split; [lia |]. split; [exact Hleft |].
      intros Hr'. destruct (Nat.eq_dec (cus_upper_bound steps bd val start mid) mid) as [E | E].
      * rewrite E. exact Emid.
      * apply Hright. lia.
    + destruct (IH (mid + 1)%nat end_ ltac:(lia) ltac:(lia)) as [Hr [Hleft Hright]].
      split; [lia |]. split; [| exact Hright].
      intros Hr'.
      destruct (Nat.eq_dec (cus_upper_bound steps bd val (mid + 1) end_) (mid + 1)) as [E | E].
      * rewrite E. replace (mid + 1 - 1)%nat with mid by lia. exact Emid.
      * apply Hleft. lia.
Qed.

Lemma cus_upper_bound_range (bd : list float_value) (val : float_value) (steps : nat) :
  forall start end_, (start <= end_)%nat ->
  (start <= cus_upper_bound steps bd val start end_ <= end_)%nat.
Proof.
  induction steps as [| steps IH]; intros start end_ Hle; cbn [cus_upper_bound]; [lia |].
  destruct (Nat.ltb_spec start end_) as [Hlt | Hge]; [| lia].
  pose proof (half_le (end_ - start) ltac:(lia)) as Hhalf.
  set (mid := (start + (end_ - start) / 2)%nat) in *.
  destruct (negb (float_gtb (nth mid bd NaN) val)).
  - specialize (IH (mid + 1)%nat end_ ltac:(lia)). lia.
  - specialize (IH start mid ltac:(lia)). lia.
Qed.

Lemma scalar_ltb_leb_trans (a b c : scalar) :
  scalar_leb a b = true -> scalar_ltb b c = true -> scalar_ltb a c = true.
Proof.
  unfold scalar_leb. destruct a as [| x |], b as [| y |], c as [| z |]; simpl;
    try reflexivity; try discriminate.
  rewrite negb_true_iff. intros Hxy Hyz.
  apply Qltb_ge in Hxy. apply Qltb_lt in Hyz. apply Qltb_lt.
  eapply Qle_lt_trans; eassumption.
Qed.

Lemma float_gtb_leb (b x x' : float_value) :
  float_leb x x' = true -> float_gtb b x' = true -> float_gtb b x = true.
Proof.
  destruct b as [| b], x as [| x], x' as [| x']; simpl; try discriminate.
  apply scalar_ltb_leb_trans.
Qed.

(** A greater value never ends the search further left, whatever the
    order of the boundaries. *)
Lemma cus_upper_bound_monotone (bd : list float_value) (x x' : float_value) (steps : nat) :
  float_leb x x' = true ->
  forall start end_, (start <= end_)%nat ->
  (cus_upper_bound steps bd x start end_ <= cus_upper_bound steps bd x' start end_)%nat.
Proof.
  intros Hle. induction steps as [| steps IH]; intros start end_ Hse; cbn [cus_upper_bound];
    [lia |].
  destruct (Nat.ltb_spec start end_) as [Hlt | Hge]; [| lia].
  pose proof (half_le (end_ - start) ltac:(lia)) as Hhalf.
  set (mid := (start + (end_ - start) / 2)%nat) in *.
  destruct (float_gtb (nth mid bd NaN) x') eqn:E'.
  - rewrite (float_gtb_leb _ _ _ Hle E'). cbn [negb]. apply IH. lia.
  - cbn [negb]. destruct (float_gtb (nth mid bd NaN) x); cbn [negb].
    + pose proof (cus_upper_bound_range bd x steps start mid ltac:(lia)).
      pose proof (cus_upper_bound_range bd x' steps (mid + 1)%nat end_ ltac:(lia)).
      lia.
    + apply IH. lia.
Qed.

Lemma torch_bucketize_right_spec (x : float_value) (bs : list float_value) :
  let r := torch_bucketize_right x bs in
  0 <= r <= Z.of_nat (length bs) /\
  (0 < r -> float_gtb (nth (Z.to_nat r - 1) bs NaN) x = false) /\
  (r < Z.of_nat (length bs) -> float_gtb (nth (Z.to_nat r) bs NaN) x = true).
Proof.
  unfold torch_bucketize_right.
  destruct (cus_upper_bound_spec bs x (length bs) 0%nat (length bs) ltac:(lia) ltac:(lia))
    as [Hr [Hleft Hright]].
  cbv zeta. rewrite Nat2Z.id. repeat split; try lia.
  - intros H. apply Hleft. lia.
  - intros H. apply Hright. lia.
Qed.

(** A value that no boundary is greater than, as [+inf] and NaN are, gets
    the number of the boundaries. *)
Lemma torch_bucketize_right_top (x : float_value) (bs : list float_value) :
  (forall b, float_gtb b x = false) ->
  torch_bucketize_right x bs = Z.of_nat (length bs).
Proof.
  intros Htop. destruct (torch_bucketize_right_spec x bs) as [Hr [_ Hright]].
  destruct (Z.eq_dec (torch_bucketize_right x bs) (Z.of_nat (length bs))) as [E | E];
    [exact E |].
  rewrite Htop in Hright. discriminate Hright. lia.
Qed.

Lemma torch_bucketize_right_monotone (x x' : float_value) (bs : list float_value) :
  float_leb x x' = true ->
  torch_bucketize_right x bs <= torch_bucketize_right x' bs.
Proof.
  intros Hle. unfold torch_bucketize_right.
  apply Nat2Z.inj_le. apply cus_upper_bound_monotone; [exact Hle | lia].
Qed.

Lemma length_slice_1_m1 {A : Type} (l : list A) :
  length (slice_1_m1 l) = (length l - 2)%nat.
Proof.
  unfold slice_1_m1. rewrite removelast_firstn_len, length_firstn.
  destruct l; simpl; lia.
Qed.

Lemma nth_slice_1_m1 {A : Type} (l : list A) (k : nat) (d : A) :
  (k + 2 < length l)%nat -> nth k (slice_1_m1 l) d = nth (S k) l d.
Proof.
  intros Hk. unfold slice_1_m1. rewrite removelast_firstn_len, nth_firstn.
  destruct l as [| a l]; simpl in *; [lia |].
  destruct (Nat.ltb_spec k (Nat.pred (length l))); [reflexivity | lia].
Qed.

Lemma length_bin_boundaries (neg_inf inf : scalar) (edges : list Q) :
  (2 <= length edges)%nat -> length (bin_boundaries neg_inf inf edges) = length edges.
Proof.
  intros H. unfold bin_boundaries.
  rewrite !length_app, length_map, length_slice_1_m1. simpl. lia.
Qed.

Lemma nth_bin_boundaries (neg_inf inf : scalar) (edges : list Q) (k : nat)
    (d : float_value) :
  (1 <= k)%nat -> (k + 2 <= length edges)%nat ->
  nth k (bin_boundaries neg_inf inf edges) d = real (nth k edges 0%Q).
Proof.
  intros H1 H2. unfold bin_boundaries.
  destruct k as [| k]; [lia |]. cbn [app nth].
  rewrite app_nth1 by (rewrite length_map, length_slice_1_m1; lia).
  rewrite (nth_map_lt _ _ _ 0%Q) by (rewrite length_slice_1_m1; lia).
  rewrite nth_slice_1_m1 by lia. reflexivity.
Qed.

Lemma nth_bin_boundaries_last (neg_inf inf : scalar) (edges : list Q) (d : float_value) :
  (2 <= length edges)%nat ->
  nth (length edges - 1) (bin_boundaries neg_inf inf edges) d = Num inf.
Proof.
  intros H. unfold bin_boundaries.
  replace (length edges - 1)%nat with (S (length edges - 2)) by lia. cbn [app nth].
  rewrite app_nth2 by (rewrite length_map, length_slice_1_m1; lia).
  rewrite length_map, length_slice_1_m1, Nat.sub_diag. reflexivity.
Qed.

(** The index computed for a real [x] is a bin that holds it, whatever the
    order of the edges. *)
Lemma bin_index_in_bin (edges : list Q) (x : Q) :
  (2 <= length edges)%nat ->
  in_bin edges x (torch_bucketize_right (real x) (bin_boundaries NegInf PosInf edges) - 1).
Proof.
  intros HL.
  pose proof (torch_bucketize_right_spec (real x) (bin_boundaries NegInf PosInf edges)) as H.
  cbv zeta in H. rewrite (length_bin_boundaries _ _ edges HL) in H.
  set (r := torch_bucketize_right (real x) (bin_boundaries NegInf PosInf edges)) in *.
  destruct H as [Hr [Hleft Hright]].
  assert (H1 : 1 <= r).
  { destruct (Z_lt_le_dec r 1) as [Hr0 | Hr0]; [| exact Hr0].
    assert (E : r = 0) by lia. specialize (Hright ltac:(lia)).
    rewrite E in Hright. discriminate Hright. }
  assert (H2 : r <= Z.of_nat (length edges) - 1).
  { destruct (Z_lt_le_dec (Z.of_nat (length edges) - 1) r) as [Hr0 | Hr0]; [| exact Hr0].
    specialize (Hleft ltac:(lia)).
    replace (Z.to_nat r - 1)%nat with (length edges - 1)%nat in Hleft by lia.
    rewrite nth_bin_boundaries_last in Hleft by exact HL. discriminate Hleft. }
  unfold in_bin. split; [lia |]. split.
  - destruct (Z.eq_dec (r - 1) 0) as [E | E]; [left; exact E | right].
    specialize (Hleft ltac:(lia)).
    replace (Z.to_nat r - 1)%nat with (Z.to_nat (r - 1)) in Hleft by lia.
    rewrite nth_bin_boundaries in Hleft by lia.
    apply Qltb_ge. exact Hleft.
  - destruct (Z.eq_dec (r - 1) (Z.of_nat (length edges) - 2)) as [E | E];
      [left; exact E | right].
    specialize (Hright ltac:(lia)).
    rewrite nth_bin_boundaries in Hright by lia.
    replace (r - 1 + 1) with r by lia.
    apply Qltb_lt. exact Hright.
Qed.

(** An element that is [+inf] or NaN gets the index after the last bin. *)
Lemma bin_index_top (edges : list Q) (x : float_value) :
  (2 <= length edges)%nat ->
  x = NaN \/ x = Num PosInf ->
  torch_bucketize_right x (bin_boundaries NegInf PosInf edges) - 1
  = Z.of_nat (length edges) - 1.
Proof.
  intros HL Hx. rewrite torch_bucketize_right_top.
  - now rewrite length_bin_boundaries.
  - intros [| b]; destruct Hx as [-> | ->]; try reflexivity; now destruct b.
Qed.

Lemma strictly_increasing_le (edges : list Q) (a b : nat) :
  strictly_increasing edges -> (a <= b < length edges)%nat ->
  (nth a edges 0 <= nth b edges 0)%Q.
Proof.
  intros Hinc [Hab Hb]. destruct (Nat.eq_dec a b) as [-> | Hne].
  - apply Qle_refl.
  - apply Qlt_le_weak, Hinc. lia.
Qed.

(** Strictly increasing edges leave one bin to a value. *)
Lemma in_bin_unique (edges : list Q) (x : Q) (i i' : Z) :
  strictly_increasing edges -> in_bin edges x i -> in_bin edges x i' -> i = i'.
Proof.
  intros Hinc [Hi [Hlo Hhi]] [Hi' [Hlo' Hhi']].
  destruct (Z.lt_trichotomy i i') as [Hlt | [Heq | Hgt]]; [| exact Heq |]; exfalso.
  - destruct Hhi as [E | Hhi]; [lia |]. destruct Hlo' as [E | Hlo']; [lia |].
    apply (Qlt_irrefl x). eapply Qlt_le_trans; [exact Hhi |].
    eapply Qle_trans; [| exact Hlo']. apply strictly_increasing_le; [exact Hinc | lia].
  - destruct Hhi' as [E | Hhi']; [lia |]. destruct Hlo as [E | Hlo]; [lia |].
    apply (Qlt_irrefl x). eapply Qlt_le_trans; [exact Hhi' |].
    eapply Qle_trans; [| exact Hlo]. apply strictly_increasing_le; [exact Hinc | lia].
Qed.

Lemma In_columns {A : Type} (d : A) (X : ndarray A) (c : list A) :
  In c (columns d X) -> length c = n_rows X.
Proof.
  unfold columns. intros H. apply in_map_iff in H. destruct H as [j [<- _]].
  apply length_column.
Qed.

Lemma nth_combine_columns {A B : Type} (d : A) (X : ndarray A) (l : list B) (j : nat)
    (c : list A) (b : B) :
  length l = n_cols X -> (j < n_cols X)%nat ->
  nth j (combine (columns d X) l) (c, b) = (column d X j, nth j l b).
Proof.
  intros Hl Hj. rewrite combine_nth by (rewrite length_columns; congruence).
  now rewrite nth_columns.
Qed.

Lemma mapM_Ok {A B : Type} (f : A -> result B) (g : A -> B) (l : list A) :
  (forall x, In x l -> f x = Ok (g x)) -> mapM f l = Ok (map g l).
Proof.
  induction l as [| x l IH]; intros H; simpl; [reflexivity |].
  rewrite (H x (or_introl eq_refl)). simpl.
  rewrite IH by (intros y Hy; apply H; now right). reflexivity.
Qed.

(** *** Matrices *)

Lemma get2_float_matrix (dt : torch.dtype) (V : ndarray Q) (i j : nat) :
  get2 (real 0) (float_matrix dt V) i j = real (get2 0%Q V i j).
Proof.
  unfold get2, float_matrix, n_cols. cbn [entries shape data]. apply map_nth.
Qed.

Lemma get2_int_matrix (dt : torch.dtype) (I : ndarray Z) (i j : nat) :
  get2 (real 0) (int_matrix dt I) i j = real (inject_Z (get2 0 I i j)).
Proof.
  unfold get2, int_matrix, n_cols. cbn [entries shape data].
  apply (map_nth (fun i => real (inject_Z i))).
Qed.

Lemma index_of_int (z : Z) : index_of (real (inject_Z z)) = z.
Proof.
  unfold index_of, real, index_of_scalar. apply Qfloor_Z.
Qed.

Lemma column_float_matrix (dt : torch.dtype) (V : ndarray Q) (j : nat) :
  column (real 0) (float_matrix dt V) j = map real (column 0%Q V j).
Proof.
  unfold column. rewrite map_map. apply map_ext. intros i. apply get2_float_matrix.
Qed.

Lemma column_int_matrix (dt : torch.dtype) (I : ndarray Z) (j : nat) :
  map index_of (column (real 0) (int_matrix dt I) j) = column 0 I j.
Proof.
  unfold column. rewrite map_map. apply map_ext. intros i.
  rewrite get2_int_matrix. apply index_of_int.
Qed.

(** A floating-point dtype has its two infinities and an order. *)
Lemma floating_infinities (dt : torch.dtype) :
  torch.is_floating_point dt = true ->
  torch_tensor (PyFloat PosInf) dt = Ok PosInf /\
  torch_neg dt PosInf = Ok NegInf /\
  torch.is_complex dt = false.
Proof.
  destruct dt; try discriminate; repeat split.
Qed.

(** A matrix whose dtype is not a floating-point one has no bin
    indices. *)
Lemma compute_bin_indices_dtype (X : Matrix) (bin_edges : list (list Q)) :
  torch.is_floating_point (matrix_dtype X) = false ->
  ndim X = 2%nat ->
  length bin_edges = n_cols X ->
  compute_bin_indices X bin_edges = Raise RuntimeError.
Proof.
  intros Hdt Hdim Hlen. unfold compute_bin_indices.
  rewrite Hdim, Hlen, !Nat.eqb_refl. cbn [negb].
  destruct (matrix_dtype X) eqn:E; try discriminate Hdt; try reflexivity.
  - cbn [torch_tensor torch.int_range scalar_of_Number torch_neg bind].
    unfold torch_bucketize. cbn [torch.is_complex].
    destruct (combine (columns (real 0) X) bin_edges); reflexivity.
  - cbn [torch_tensor torch.int_range scalar_of_Number torch_neg bind].
    unfold torch_bucketize. cbn [torch.is_complex].
    destruct (combine (columns (real 0) X) bin_edges); reflexivity.
Qed.

Lemma compute_bin_indices_entries (X : Matrix) (bin_edges : list (list Q)) :
  torch.is_floating_point (matrix_dtype X) = true ->
  ndim X = 2%nat ->
  (0 < n_cols X)%nat ->
  length bin_edges = n_cols X ->
  exists R,
    compute_bin_indices X bin_edges = Ok R /\
    shape R = shape X /\
    forall i j, (i < n_rows X)%nat -> (j < n_cols X)%nat ->
      get2 0 R i j
      = torch_bucketize_right (get2 (real 0) X i j)
          (bin_boundaries NegInf PosInf (nth j bin_edges [])) - 1.
Proof.
  intros Hdt Hdim Hpos Hlen. unfold compute_bin_indices.
  rewrite Hdim, Hlen, !Nat.eqb_refl. cbn [negb].
  destruct (floating_infinities _ Hdt) as [Einf [Eneg Ecpx]].
  rewrite Einf. cbn [bind]. rewrite Eneg. cbn [bind].
  unfold torch_bucketize. rewrite Ecpx.
  set (F := fun ce : list float_value * list Q =>
              map (fun k => k - 1)
                  (map (fun x => torch_bucketize_right x
                                   (bin_boundaries NegInf PosInf (snd ce)))
                       (fst ce))).
  rewrite (mapM_Ok _ F) by (intros ce _; reflexivity). cbn [bind].
  set (cols := map F (combine (columns (real 0) X) bin_edges)).
  assert (Hcols : length cols = n_cols X).
  { unfold cols. rewrite length_map, length_combine, length_columns. lia. }
  rewrite (torch_stack1_columns 0 (n_rows X) cols).
  - eexists. split; [reflexivity |]. split.
    + simpl. rewrite Hcols. symmetry. now apply shape_2d.
    + intros i j Hi Hj. rewrite get2_stack1 by lia.
      unfold cols. rewrite (nth_map_lt F _ _ ([], [])) by
        (rewrite length_combine, length_columns; lia).
      rewrite nth_combine_columns by assumption. unfold F. cbn [fst snd].
      rewrite map_map.
      rewrite (nth_map_lt _ _ _ (real 0)) by (rewrite length_column; exact Hi).
      now rewrite nth_column.
  - lia.
  - intros c Hc. unfold cols in Hc. apply in_map_iff in Hc.
    destruct Hc as [[col e] [<- Hin]]. unfold F. cbn [fst snd].
    rewrite !length_map. apply in_combine_l in Hin. now apply In_columns in Hin.
Qed.

(** ** Piecewise-linear bin values *)

Lemma getitem_in_range (l : list Q) (i : Z) :
  - Z.of_nat (length l) <= i < Z.of_nat (length l) ->
  getitem l i = Ok (edge_at l i).
Proof.
  intros [Hlo Hhi]. unfold getitem, normalize_index, edge_at.
  destruct (Z.ltb_spec i (- Z.of_nat (length l))); [lia |].
  destruct (Z.leb_spec (Z.of_nat (length l)) i); [lia |].
  reflexivity.
Qed.

Lemma getitem_out_of_range (l : list Q) (i : Z) :
  i < - Z.of_nat (length l) -> getitem l i = Raise IndexError.
Proof.
  intros Hlo. unfold getitem, normalize_index.
  destruct (Z.ltb_spec i (- Z.of_nat (length l))); [reflexivity | lia].
Qed.

Lemma wrap_fits (dt : torch.dtype) (z : Z) : fits dt z -> wrap dt z = z.
Proof.
  unfold fits, wrap. destruct (torch.int_range dt) as [[lo hi] |]; [| reflexivity].
  intros H. rewrite Z.mod_small by lia. lia.
Qed.

Lemma bin_value_real (edges : list Q) (x : Q) (i : Z) :
  ~ (edge_at edges (i + 1) - edge_at edges i == 0)%Q ->
  bin_value edges (real x) i = real (bin_fraction edges x i).
Proof.
  intros Hne. unfold bin_value, bin_fraction. cbn [float_sub real float_div].
  destruct (Qeq_bool (edge_at edges (i + 1) - edge_at edges i) 0) eqn:E; [| reflexivity].
  apply Qeq_bool_iff in E. contradiction.
Qed.

Lemma map_bin_value (edges : list Q) (vals : list float_value) (idx idx' : list Z) :
  idx' = map (fun i => i + 1) idx ->
  map (fun vlr : float_value * (Q * Q) =>
         let '(v, (l, r)) := vlr in float_div (float_sub v l) (r - l)%Q)
      (combine vals (combine (map (edge_at edges) idx) (map (edge_at edges) idx')))
  = map (fun vi => bin_value edges (fst vi) (snd vi)) (combine vals idx).
Proof.
  intros ->. revert idx. induction vals as [| v vals IH]; intros [| i idx]; simpl;
    try reflexivity.
  now rewrite IH.
Qed.

Lemma column_bin_values_Ok (dt : torch.dtype) (c_i : nat) (c_values : list float_value)
    (c_indices : list Z) (c_bin_edges : list Q) :
  (forall i, In i c_indices ->
     - Z.of_nat (length c_bin_edges) <= i /\ i + 1 < Z.of_nat (length c_bin_edges) /\
     wrap dt (i + 1) = i + 1) ->
  column_bin_values dt c_i c_values c_indices c_bin_edges
  = Ok (map (fun vi => bin_value c_bin_edges (fst vi) (snd vi))
            (combine c_values c_indices)).
Proof.
  intros Hin. unfold column_bin_values.
  assert (Hw : map (fun i => wrap dt (i + 1)) c_indices = map (fun i => i + 1) c_indices).
  { apply map_ext_in. intros i Hi. apply (Hin i Hi). }
  rewrite any_map.
  replace (existsb _ c_indices) with false.
  2:{ symmetry. apply not_true_is_false. intros H. apply existsb_exists in H.
      destruct H as [i [Hi H]]. apply Z.leb_le in H. destruct (Hin i Hi) as [_ [H1 H2]].
      rewrite H2 in H. lia. }
  rewrite (mapM_Ok _ (edge_at c_bin_edges)).
  2:{ intros i Hi. apply getitem_in_range. specialize (Hin i Hi). lia. }
  cbn [bind]. rewrite Hw.
  rewrite (mapM_Ok _ (edge_at c_bin_edges)).
  2:{ intros i Hi. apply in_map_iff in Hi. destruct Hi as [i0 [<- Hi0]].
      apply getitem_in_range. specialize (Hin i0 Hi0). lia. }
  cbn [bind]. now rewrite (map_bin_value _ _ c_indices).
Qed.

Lemma In_column {A : Type} (d : A) (X : ndarray A) (j : nat) (x : A) :
  In x (column d X j) -> exists i, (i < n_rows X)%nat /\ x = get2 d X i j.
Proof.
  unfold column. intros H. apply in_map_iff in H. destruct H as [i [<- Hi]].
  apply in_seq in Hi. exists i. split; [lia | reflexivity].
Qed.

Lemma In_get2_column {A : Type} (d : A) (X : ndarray A) (i j : nat) :
  (i < n_rows X)%nat -> In (get2 d X i j) (column d X j).
Proof.
  intros Hi. rewrite <- (nth_column d X i j Hi).
  apply nth_In. now rewrite length_column.
Qed.

Lemma nth_enumerate {A : Type} (l : list A) (k : nat) (d : A) :
  (k < length l)%nat -> nth k (enumerate l) (0%nat, d) = (k, nth k l d).
Proof.
  intros Hk. unfold enumerate.
  rewrite combine_nth by (now rewrite length_seq).
  now rewrite seq_nth.
Qed.

Lemma In_enumerate {A : Type} (l : list A) (k : nat) (x : A) (d : A) :
  In (k, x) (enumerate l) -> (k < length l)%nat /\ x = nth k l d.
Proof.
  intros H. destruct (In_nth _ _ (0%nat, d) H) as [n [Hn E]].
  unfold enumerate in Hn. rewrite length_combine, length_seq in Hn.
  rewrite nth_enumerate in E by lia. injection E as -> ->. split; [lia | reflexivity].
Qed.

Lemma shape_eqb_refl (sh : list nat) : shape_eqb sh sh = true.
Proof.
  unfold shape_eqb. destruct (list_eq_dec Nat.eq_dec sh sh); congruence.
Qed.

Section BinValuesFacts.

Variable other_index_dtype : Matrix -> Matrix -> list (list Q) -> result (ndarray float_value).

Local Abbreviation bin_values := (compute_piecewise_linear_bin_values other_index_dtype).

Lemma compute_piecewise_linear_bin_values_entries (X indices : Matrix)
    (bin_edges : list (list Q)) :
  is_index_dtype (matrix_dtype indices) = true ->
  ndim X = 2%nat ->
  shape indices = shape X ->
  (0 < n_cols X)%nat ->
  length bin_edges = n_cols X ->
  (forall i j, (i < n_rows X)%nat -> (j < n_cols X)%nat ->
     let k := index_of (get2 (real 0) indices i j) in
     - Z.of_nat (length (nth j bin_edges [])) <= k /\
     k + 1 < Z.of_nat (length (nth j bin_edges [])) /\
     wrap (matrix_dtype indices) (k + 1) = k + 1) ->
  exists V,
    bin_values X indices bin_edges = Ok V /\
    shape V = shape X /\
    forall i j, (i < n_rows X)%nat -> (j < n_cols X)%nat ->
      get2 (real 0) V i j
      = bin_value (nth j bin_edges []) (get2 (real 0) X i j)
          (index_of (get2 (real 0) indices i j)).
Proof.
  intros Hdt Hdim Hsh Hpos Hlen Hidx.
  assert (Hrows : n_rows indices = n_rows X) by (unfold n_rows; now rewrite Hsh).
  assert (Hcols : n_cols indices = n_cols X) by (unfold n_cols; now rewrite Hsh).
  unfold compute_piecewise_linear_bin_values.
  rewrite Hdim, Hsh, Hlen, !Nat.eqb_refl, shape_eqb_refl, Hdt. cbn [negb].
  set (zs := zip3 (columns (real 0) X) (columns (real 0) indices) bin_edges).
  assert (Hzs : length zs = n_cols X).
  { unfold zs, zip3. rewrite !length_combine, !length_columns. lia. }
  assert (Hnth : forall j, (j < n_cols X)%nat ->
            nth j zs ([], [], [])
            = (column (real 0) X j, column (real 0) indices j, nth j bin_edges [])).
  { intros j Hj. unfold zs, zip3.
    rewrite combine_nth by (rewrite length_combine, !length_columns; lia).
    rewrite combine_nth by (rewrite !length_columns; lia).
    rewrite !nth_columns by lia. reflexivity. }
  set (G := fun icvie : nat * (list float_value * list float_value * list Q) =>
              let '(c_i, (c_values, c_indices, c_bin_edges)) := icvie in
              map (fun vi => bin_value c_bin_edges (fst vi) (snd vi))
                  (combine c_values (map index_of c_indices))).
  rewrite (mapM_Ok _ G).
  2:{ intros [c_i [[cv ci] ce]] Hin.
      apply (In_enumerate _ _ _ ([], [], [])) in Hin. destruct Hin as [Hc E].
      rewrite Hzs in Hc. rewrite Hnth in E by exact Hc. injection E as -> -> ->.
      unfold G. apply column_bin_values_Ok. intros i Hi.
      apply in_map_iff in Hi. destruct Hi as [x [<- Hx]].
      apply In_column in Hx. destruct Hx as [r [Hr ->]].
      apply Hidx; lia. }
  cbn [bind].
  assert (HG : forall j, (j < n_cols X)%nat ->
            nth j (map G (enumerate zs)) []
            = map (fun vi => bin_value (nth j bin_edges []) (fst vi) (snd vi))
                  (combine (column (real 0) X j)
                           (map index_of (column (real 0) indices j)))).
  { intros j Hj.
    rewrite (nth_map_lt G _ _ (0%nat, ([], [], []))) by
      (unfold enumerate; rewrite length_combine, length_seq; lia).
    rewrite nth_enumerate by lia. rewrite Hnth by exact Hj. reflexivity. }
  rewrite (torch_stack1_columns (real 0) (n_rows X)).
  - eexists. split; [reflexivity |]. split.
    + simpl. rewrite length_map. unfold enumerate.
      rewrite length_combine, length_seq, Nat.min_id, Hzs.
      symmetry. now apply shape_2d.
    + intros i j Hi Hj.
      rewrite get2_stack1;
        [| exact Hi
         | rewrite length_map; unfold enumerate;
           rewrite length_combine, length_seq; lia].
      rewrite HG by exact Hj.
      rewrite (nth_map_lt _ _ _ (real 0, 0)) by
        (rewrite length_combine, length_map, !length_column; lia).
      rewrite combine_nth by (rewrite length_map, !length_column; lia).
      cbn [fst snd].
      rewrite (nth_map_lt _ _ _ (real 0)) by (rewrite length_column; lia).
      rewrite !nth_column by lia. reflexivity.
  - rewrite length_map. unfold enumerate. rewrite length_combine, length_seq. lia.
  - intros c Hc. destruct (In_nth _ _ [] Hc) as [j [Hj <-]].
    rewrite length_map in Hj. unfold enumerate in Hj.
    rewrite length_combine, length_seq, Nat.min_id, Hzs in Hj.
    rewrite HG by exact Hj.
    rewrite length_map, length_combine, length_map, !length_column. lia.
Qed.

End BinValuesFacts.

(** ** Sorting and distinct values *)

Section OrderFacts.

Context {A : Type}.
Variable leb : A -> A -> bool.
Hypothesis leb_total : forall x y, leb x y = true \/ leb y x = true.
Hypothesis leb_trans : forall x y z, leb x y = true -> leb y z = true -> leb x z = true.

Local Abbreviation le := (order_le leb).
Local Abbreviation lt := (order_lt leb).
Local Abbreviation eqv := (order_eqv leb).

Lemma order_lt_le (x y : A) : lt x y -> le x y.
Proof.
  unfold order_lt, order_le. intros H. destruct (leb_total x y) as [E | E]; congruence.
Qed.

Lemma order_le_lt_trans (x y z : A) : le x y -> lt y z -> lt x z.
Proof.
  unfold order_lt, order_le. intros Hxy Hyz. apply not_true_is_false. intros Hzx.
  rewrite (leb_trans z x y Hzx Hxy) in Hyz. discriminate.
Qed.

Lemma order_lt_le_trans (x y z : A) : lt x y -> le y z -> lt x z.
Proof.
  unfold order_lt, order_le. intros Hxy Hyz. apply not_true_is_false. intros Hzx.
  rewrite (leb_trans y z x Hyz Hzx) in Hxy. discriminate.
Qed.

Lemma order_eqb_eqv (x y : A) : order_eqb leb x y = true <-> eqv x y.
Proof.
  unfold order_eqb, order_eqv. apply andb_true_iff.
Qed.

Lemma insert_perm (x : A) (l : list A) : Permutation (insert leb x l) (x :: l).
Proof.
  induction l as [| y l IH]; simpl; [reflexivity |].
  destruct (leb x y); [reflexivity |].
  rewrite IH. apply perm_swap.
Qed.

Lemma sort_perm (l : list A) : Permutation (sort leb l) l.
Proof.
  induction l as [| x l IH]; simpl; [reflexivity |].
  rewrite insert_perm. now constructor.
Qed.

Lemma length_sort (l : list A) : length (sort leb l) = length l.
Proof.
  apply Permutation_length, sort_perm.
Qed.

Lemma insert_sorted (x : A) (l : list A) :
  StronglySorted le l -> StronglySorted le (insert leb x l).
Proof.
  induction 1 as [| y l Hl IH Hy]; simpl.
  - repeat constructor.
  - destruct (leb x y) eqn:E.
    + constructor; [now constructor |].
      constructor; [exact E |].
      eapply Forall_impl; [| exact Hy]. intros z Hz. exact (leb_trans _ _ _ E Hz).
    + constructor; [exact IH |].
      assert (Hyx : le y x) by (destruct (leb_total x y); [congruence | assumption]).
      eapply Permutation_Forall; [symmetry; apply insert_perm |].
      now constructor.
Qed.

Lemma sort_sorted (l : list A) : StronglySorted le (sort leb l).
Proof.
  induction l as [| x l IH]; simpl; [constructor | now apply insert_sorted].
Qed.

Lemma dedup_from_In (x y : A) (l : list A) : In y (dedup_from leb x l) -> In y l.
Proof.
  revert x. induction l as [| z l IH]; simpl; intros x H; [exact H |].
  destruct (order_eqb leb x z).
  - right. eapply IH, H.
  - destruct H as [-> | H]; [now left | right; eapply IH, H].
Qed.

Lemma dedup_In (y : A) (l : list A) : In y (dedup leb l) -> In y l.
Proof.
  destruct l as [| x l]; simpl; [easy |].
  intros [-> | H]; [now left | right; eapply dedup_from_In, H].
Qed.

Lemma length_dedup_from (x : A) (l : list A) :
  (length (dedup_from leb x l) <= length l)%nat.
Proof.
  revert x. induction l as [| z l IH]; simpl; intros x; [lia |].
  destruct (order_eqb leb x z); simpl; [specialize (IH x) | specialize (IH z)]; lia.
Qed.

Lemma length_dedup (l : list A) : (length (dedup leb l) <= length l)%nat.
Proof.
  destruct l as [| x l]; simpl; [lia |].
  pose proof (length_dedup_from x l). lia.
Qed.

Lemma length_np_unique (l : list A) : (length (np_unique leb l) <= length l)%nat.
Proof.
  unfold np_unique. rewrite <- (length_sort l). apply length_dedup.
Qed.

(** Of a sorted list, [dedup_from x] keeps elements over [x], in strictly
    increasing order. *)
Lemma dedup_from_sorted (x : A) (l : list A) :
  StronglySorted le l -> Forall (le x) l ->
  StronglySorted lt (dedup_from leb x l) /\ Forall (lt x) (dedup_from leb x l).
Proof.
  intros Hs. revert x. induction Hs as [| z l Hl IH Hz]; simpl; intros x Hx.
  - split; constructor.
  - apply Forall_cons_iff in Hx. destruct Hx as [Hxz Hx].
    destruct (order_eqb leb x z) eqn:E.
    + apply IH, Hx.
    + assert (Hlt : lt x z).
      { unfold order_eqb in E. apply andb_false_iff in E.
        destruct E as [E | E]; [unfold order_le in Hxz; congruence | exact E]. }
      destruct (IH z Hz) as [Hs' Hf']. split.
      * now constructor.
      * constructor; [exact Hlt |].
        eapply Forall_impl; [| exact Hf']. intros w Hw.
        eapply order_le_lt_trans; [exact Hxz | exact Hw].
Qed.

Lemma dedup_sorted (l : list A) :
  StronglySorted le l -> StronglySorted lt (dedup leb l).
Proof.
  intros Hs. destruct Hs as [| x l Hl Hx]; simpl; [constructor |].
  destruct (dedup_from_sorted x l Hl Hx). now constructor.
Qed.

Lemma np_unique_sorted (l : list A) : StronglySorted lt (np_unique leb l).
Proof.
  apply dedup_sorted, sort_sorted.
Qed.

Lemma np_unique_In (x : A) (l : list A) : In x (np_unique leb l) -> In x l.
Proof.
  intros H. apply dedup_In in H.
  eapply Permutation_in; [apply sort_perm | exact H].
Qed.

Lemma eqv_refl (x : A) : eqv x x.
Proof.
  unfold order_eqv. destruct (leb_total x x); auto.
Qed.

Lemma eqv_sym (x y : A) : eqv x y -> eqv y x.
Proof.
  unfold order_eqv. tauto.
Qed.

Lemma eqv_trans (x y z : A) : eqv x y -> eqv y z -> eqv x z.
Proof.
  unfold order_eqv. intros [H1 H2] [H3 H4]. split; eapply leb_trans; eassumption.
Qed.

(** Every element has an equal one among those kept. *)
Lemma dedup_from_complete (x y : A) (l : list A) :
  In y l -> eqv x y \/ exists z, In z (dedup_from leb x l) /\ eqv y z.
Proof.
  revert x. induction l as [| w l IH]; simpl; intros x H; [easy |].
  destruct (order_eqb leb x w) eqn:E.
  - destruct H as [-> | H]; [left; now apply order_eqb_eqv | now apply IH].
  - destruct H as [-> | H].
    + right. exists y. split; [now left | apply eqv_refl].
    + right. destruct (IH w H) as [Hwy | [z [Hz Hyz]]].
      * exists w. split; [now left | now apply eqv_sym].
      * exists z. split; [now right | exact Hyz].
Qed.

Lemma dedup_complete (y : A) (l : list A) :
  In y l -> exists z, In z (dedup leb l) /\ eqv y z.
Proof.
  destruct l as [| x l]; simpl; [easy |]. intros [-> | H].
  - exists y. split; [now left | apply eqv_refl].
  - destruct (dedup_from_complete x y l H) as [Hxy | [z [Hz Hyz]]].
    + exists x. split; [now left | now apply eqv_sym].
    + exists z. split; [now right | exact Hyz].
Qed.

Lemma np_unique_complete (y : A) (l : list A) :
  In y l -> exists z, In z (np_unique leb l) /\ eqv y z.
Proof.
  intros H. apply dedup_complete.
  eapply Permutation_in; [symmetry; apply sort_perm | exact H].
Qed.

Lemma lt_not_eqv (x y : A) : lt x y -> ~ eqv x y.
Proof.
  unfold order_lt, order_eqv. intros H [_ H']. congruence.
Qed.

(** Two distinct values make two distinct values. *)
Lemma np_unique_two (l : list A) (x y : A) :
  In x l -> In y l -> ~ eqv x y -> (2 <= length (np_unique leb l))%nat.
Proof.
  intros Hx Hy Hne.
  destruct (np_unique_complete x l Hx) as [x' [Hx' Exx']].
  destruct (np_unique_complete y l Hy) as [y' [Hy' Eyy']].
  destruct (np_unique leb l) as [| a [| b u]]; simpl in *; try lia; try easy.
  destruct Hx' as [<- | []]. destruct Hy' as [<- | []].
  exfalso. apply Hne. eapply eqv_trans; [exact Exx' | now apply eqv_sym].
Qed.

(** Fewer than two distinct values: all the values are equal. *)
Lemma np_unique_one (l : list A) (x y : A) :
  (length (np_unique leb l) < 2)%nat -> In x l -> In y l -> eqv x y.
Proof.
  intros Hlen Hx Hy.
  destruct (np_unique_complete x l Hx) as [x' [Hx' Exx']].
  destruct (np_unique_complete y l Hy) as [y' [Hy' Eyy']].
  destruct (np_unique leb l) as [| a [| b u]]; simpl in *; try lia; try easy.
  destruct Hx' as [<- | []]. destruct Hy' as [<- | []].
  eapply eqv_trans; [exact Exx' | now apply eqv_sym].
Qed.

Lemma StronglySorted_nth (R : A -> A -> Prop) (l : list A) (d : A) (a b : nat) :
  StronglySorted R l -> (a < b < length l)%nat -> R (nth a l d) (nth b l d).
Proof.
  intros Hs. revert a b. induction Hs as [| x l Hl IH Hx]; simpl; intros a b Hab; [lia |].
  destruct b as [| b]; [lia |]. destruct a as [| a].
  - rewrite Forall_forall in Hx. apply Hx, nth_In. lia.
  - apply IH. lia.
Qed.

(** The first and the last element of a sorted list bound the others. *)
Lemma sorted_bounds (l : list A) (d : A) (x : A) :
  StronglySorted le l -> In x l ->
  le (nth 0 l d) x /\ le x (nth (length l - 1) l d).
Proof.
  intros Hs Hx. destruct (In_nth _ _ d Hx) as [k [Hk <-]].
  assert (Hrefl : forall z, le z z) by (intros z; apply eqv_refl).
  split.
  - destruct k as [| k]; [apply Hrefl |].
    apply (StronglySorted_nth le); [exact Hs | lia].
  - destruct (Nat.eq_dec k (length l - 1)) as [-> | Hne]; [apply Hrefl |].
    apply (StronglySorted_nth le); [exact Hs | lia].
Qed.

(** [l.min()] and [l.max()] are elements that bound the others. *)
Lemma fold_min_spec (l : list A) (x : A) :
  let m := fold_left (fun m y => if leb m y then m else y) l x in
  In m (x :: l) /\ forall y, In y (x :: l) -> le m y.
Proof.
  revert x. induction l as [| z l IH]; intros x; cbn [fold_left].
  - split; [now left |]. intros y [<- | []]. apply eqv_refl.
  - specialize (IH (if leb x z then x else z)). cbv zeta in IH.
    destruct IH as [Hin Hle]. split.
    + destruct Hin as [<- | Hin]; [| now right; right].
      destruct (leb x z); [now left | right; now left].
    + intros y Hy.
      assert (Hm : le (fold_left (fun m y => if leb m y then m else y) l
                         (if leb x z then x else z)) (if leb x z then x else z))
        by (apply Hle; now left).
      destruct Hy as [<- | [<- | Hy]].
      * eapply leb_trans; [exact Hm |].
        destruct (leb x z) eqn:E; [apply eqv_refl |].
        destruct (leb_total x z); [congruence | assumption].
      * eapply leb_trans; [exact Hm |].
        destruct (leb x z) eqn:E; [exact E | apply eqv_refl].
      * apply Hle. now right.
Qed.

Lemma fold_max_spec (l : list A) (x : A) :
  let m := fold_left (fun m y => if leb y m then m else y) l x in
  In m (x :: l) /\ forall y, In y (x :: l) -> le y m.
Proof.
  revert x. induction l as [| z l IH]; intros x; cbn [fold_left].
  - split; [now left |]. intros y [<- | []]. apply eqv_refl.
  - specialize (IH (if leb z x then x else z)). cbv zeta in IH.
    destruct IH as [Hin Hle]. split.
    + destruct Hin as [<- | Hin]; [| now right; right].
      destruct (leb z x); [now left | right; now left].
    + intros y Hy.
      assert (Hm : le (if leb z x then x else z)
                      (fold_left (fun m y => if leb y m then m else y) l
                         (if leb z x then x else z)))
        by (apply Hle; now left).
      destruct Hy as [<- | [<- | Hy]].
      * eapply leb_trans; [| exact Hm].
        destruct (leb z x) eqn:E; [apply eqv_refl |].
        destruct (leb_total x z); [assumption | congruence].
      * eapply leb_trans; [| exact Hm].
        destruct (leb z x) eqn:E; [exact E | apply eqv_refl].
      * apply Hle. now right.
Qed.

Lemma np_min_spec (l : list A) :
  l <> [] -> exists m, np_min leb l = Ok m /\ In m l /\ forall y, In y l -> le m y.
Proof.
  destruct l as [| x l]; [congruence | intros _].
  eexists. split; [reflexivity |]. apply fold_min_spec.
Qed.

Lemma np_max_spec (l : list A) :
  l <> [] -> exists m, np_max leb l = Ok m /\ In m l /\ forall y, In y l -> le y m.
Proof.
  destruct l as [| x l]; [congruence | intros _].
  eexists. split; [reflexivity |]. apply fold_max_spec.
Qed.

End OrderFacts.

(** ** The orders of [Z] and [Q] *)

Lemma Zleb_total (x y : Z) : (x <=? y) = true \/ (y <=? x) = true.
Proof.
  rewrite !Z.leb_le. lia.
Qed.

Lemma Zleb_trans (x y z : Z) : (x <=? y) = true -> (y <=? z) = true -> (x <=? z) = true.
Proof.
  rewrite !Z.leb_le. lia.
Qed.

Lemma Qleb_total (x y : Q) : Qle_bool x y = true \/ Qle_bool y x = true.
Proof.
  rewrite !Qle_bool_iff. destruct (Qlt_le_dec x y) as [H | H]; [left | right].
  - now apply Qlt_le_weak.
  - exact H.
Qed.

Lemma Qleb_trans (x y z : Q) :
  Qle_bool x y = true -> Qle_bool y z = true -> Qle_bool x z = true.
Proof.
  rewrite !Qle_bool_iff. apply Qle_trans.
Qed.

Lemma Qleb_false_lt (x y : Q) : Qle_bool y x = false <-> (x < y)%Q.
Proof.
  rewrite <- Qltb_lt. unfold Qltb. now rewrite negb_true_iff.
Qed.

Lemma Qleb_eqv (x y : Q) : Qle_bool x y = true /\ Qle_bool y x = true <-> (x == y)%Q.
Proof.
  rewrite !Qle_bool_iff. split.
  - intros [H1 H2]. now apply Qle_antisym.
  - intros H. rewrite H. split; apply Qle_refl.
Qed.

(** [np.unique] returns a strictly increasing sequence. *)
Lemma np_unique_increasing (l : list Q) : strictly_increasing (np_unique Qle_bool l).
Proof.
  intros a b Hab. apply Qleb_false_lt.
  apply (StronglySorted_nth (fun x y => Qle_bool y x = false)); [| exact Hab].
  apply np_unique_sorted; [apply Qleb_total | apply Qleb_trans].
Qed.

(** ** Category sizes *)

Lemma np_unique_Z_In (x : Z) (l : list Z) : In x (np_unique Z.leb l) <-> In x l.
Proof.
  split.
  - apply np_unique_In.
  - intros H.
    destruct (np_unique_complete Z.leb Zleb_total x l H) as [z [Hz [H1 H2]]].
    apply Z.leb_le in H1, H2. now replace x with z by lia.
Qed.

Lemma StronglySorted_lt_NoDup (l : list Z) :
  StronglySorted (fun x y => (y <=? x) = false) l -> NoDup l.
Proof.
  induction 1 as [| x l Hl IH Hx]; constructor; [| exact IH].
  intros Hin. rewrite Forall_forall in Hx. specialize (Hx x Hin).
  apply Z.leb_gt in Hx. lia.
Qed.

Lemma np_unique_Z_NoDup (l : list Z) : NoDup (np_unique Z.leb l).
Proof.
  apply StronglySorted_lt_NoDup, np_unique_sorted; [apply Zleb_total | apply Zleb_trans].
Qed.

(** [len(np.unique(column))] is the number of distinct values. *)
Lemma length_np_unique_Z (l : list Z) : length (np_unique Z.leb l) = distinct_count l.
Proof.
  unfold distinct_count. apply Permutation_length, NoDup_Permutation.
  - apply np_unique_Z_NoDup.
  - apply NoDup_nodup.
  - intros x. now rewrite np_unique_Z_In, nodup_In.
Qed.

Lemma np_min_unique_Z (l : list Z) (m : Z) :
  is_min l m -> np_min Z.leb (np_unique Z.leb l) = Ok m.
Proof.
  intros [Hin Hle].
  destruct (np_min_spec Z.leb Zleb_total Zleb_trans (np_unique Z.leb l)) as [m' [E [Hin' Hle']]].
  - intros E. apply (proj2 (np_unique_Z_In _ _)) in Hin. rewrite E in Hin. exact Hin.
  - rewrite E. f_equal.
    apply (proj1 (np_unique_Z_In _ _)) in Hin'. specialize (Hle m' Hin').
    apply (proj2 (np_unique_Z_In _ _)) in Hin. specialize (Hle' m Hin).
    apply Z.leb_le in Hle'. lia.
Qed.

Lemma np_max_unique_Z (l : list Z) (M : Z) :
  is_max l M -> np_max Z.leb (np_unique Z.leb l) = Ok M.
Proof.
  intros [Hin Hle].
  destruct (np_max_spec Z.leb Zleb_total Zleb_trans (np_unique Z.leb l)) as [m' [E [Hin' Hle']]].
  - intros E. apply (proj2 (np_unique_Z_In _ _)) in Hin. rewrite E in Hin. exact Hin.
  - rewrite E. f_equal.
    apply (proj1 (np_unique_Z_In _ _)) in Hin'. specialize (Hle m' Hin').
    apply (proj2 (np_unique_Z_In _ _)) in Hin. specialize (Hle' M Hin).
    apply Z.leb_le in Hle'. lia.
Qed.

Lemma covers_range_min_max (l : list Z) (M : Z) :
  0 <= M -> covers_range l M -> is_min l 0 /\ is_max l M.
Proof.
  intros HM H. split; split; try (apply H; lia); intros v Hv; apply H in Hv; lia.
Qed.

Lemma covers_range_count (l : list Z) (M : Z) :
  0 <= M -> covers_range l M -> Z.of_nat (distinct_count l) = M + 1.
Proof.
  intros HM H. unfold distinct_count.
  assert (P : Permutation (nodup Z.eq_dec l) (map Z.of_nat (seq 0 (Z.to_nat (M + 1))))).
  { apply NoDup_Permutation.
    - apply NoDup_nodup.
    - apply Finite.Injective_map_NoDup; [intros a b; apply Nat2Z.inj | apply seq_NoDup].
    - intros x. rewrite nodup_In, (H x), in_map_iff. split.
      + intros Hx. exists (Z.to_nat x). rewrite in_seq. lia.
      + intros [k [<- Hk]]. apply in_seq in Hk. lia. }
  rewrite (Permutation_length P), length_map, length_seq. lia.
Qed.

Lemma np_int_range_sign (itemsize : positive) :
  fst (np_int_range itemsize) < 0 <= snd (np_int_range itemsize).
Proof.
  unfold np_int_range. cbn [fst snd].
  pose proof (Z.pow_pos_nonneg 2 (8 * Z.pos itemsize - 1) ltac:(lia) ltac:(lia)). lia.
Qed.

Lemma np_fits_spec (itemsize : positive) (v : Z) :
  np_fits itemsize v = true <->
  fst (np_int_range itemsize) <= v <= snd (np_int_range itemsize).
Proof.
  unfold np_fits. rewrite andb_true_iff, !Z.leb_le. reflexivity.
Qed.

(** One more than a value of the type: the next value, or the least value
    after the greatest one. *)
Lemma np_add_one (itemsize : positive) (a : Z) :
  np_fits itemsize a = true ->
  np_add itemsize a 1
  = if a =? snd (np_int_range itemsize) then fst (np_int_range itemsize) else a + 1.
Proof.
  intros H. apply np_fits_spec in H. unfold np_add.
  destruct (np_int_range itemsize) as [lo hi]. cbn [fst snd] in *.
  destruct (Z.eqb_spec a hi) as [-> | Hne].
  - replace (hi + 1 - lo) with (hi - lo + 1) by lia. rewrite Z_mod_same_full. lia.
  - rewrite Z.mod_small by lia. lia.
Qed.

(** The elements of a signed integer array are values of its type. *)
Lemma int_array_fits (X : int_array) (j : nat) (v : Z) :
  np_kind X = np.signedinteger -> In v (column 0 X j) -> np_fits (np_itemsize X) v = true.
Proof.
  intros Hk Hv. apply In_column in Hv. destruct Hv as [i [_ ->]].
  pose proof (np_in_range X) as H. rewrite Hk in H. cbn [np_elements] in H.
  rewrite forallb_forall in H. unfold get2.
  destruct (nth_in_or_default (i * n_cols X + j) (data X) 0) as [Hin | ->].
  - now apply H.
  - apply np_fits_spec. pose proof (np_int_range_sign (np_itemsize X)). lia.
Qed.

Lemma category_size_range (itemsize : positive) (i : nat) (column : list Z) (M : Z) :
  0 <= M -> M < snd (np_int_range itemsize) -> covers_range column M ->
  category_size itemsize i column = Ok (Z.of_nat (distinct_count column)) /\
  Z.of_nat (distinct_count column) = M + 1.
Proof.
  intros HM Hfit H. destruct (covers_range_min_max column M HM H) as [Hmin Hmax].
  pose proof (covers_range_count column M HM H) as Hc.
  split; [| exact Hc]. unfold category_size.
  rewrite (np_min_unique_Z column 0 Hmin). cbn [bind Z.eqb negb].
  rewrite (np_max_unique_Z column M Hmax). cbn [bind].
  rewrite np_add_one
    by (apply np_fits_spec; pose proof (np_int_range_sign itemsize); lia).
  destruct (Z.eqb_spec M (snd (np_int_range itemsize))); [lia |].
  rewrite length_np_unique_Z, Hc, Z.eqb_refl. reflexivity.
Qed.

(** A column that holds the greatest value of its type is refused, also
    when its values are exactly the integers from 0 to that value. *)
Lemma category_size_overflow (itemsize : positive) (i : nat) (column : list Z) :
  is_min column 0 -> is_max column (snd (np_int_range itemsize)) ->
  category_size itemsize i column
  = Raise (ValueError (msg_not_covered i (snd (np_int_range itemsize)))).
Proof.
  intros Hmin Hmax. unfold category_size.
  rewrite (np_min_unique_Z column 0 Hmin). cbn [bind Z.eqb negb].
  rewrite (np_max_unique_Z column _ Hmax). cbn [bind].
  rewrite np_add_one
    by (apply np_fits_spec; pose proof (np_int_range_sign itemsize); lia).
  rewrite Z.eqb_refl.
  destruct (Z.eqb_spec (fst (np_int_range itemsize))
              (Z.of_nat (length (np_unique Z.leb column)))) as [E | E]; [| reflexivity].
  pose proof (np_int_range_sign itemsize). lia.
Qed.

Lemma category_size_min (itemsize : positive) (i : nat) (column : list Z) (m : Z) :
  is_min column m -> m <> 0 -> is_Ok (category_size itemsize i column) = false.
Proof.
  intros Hmin Hm. unfold category_size.
  rewrite (np_min_unique_Z column m Hmin). cbn [bind].
  destruct (Z.eqb_spec m 0); [contradiction | reflexivity].
Qed.

Lemma category_size_gap (itemsize : positive) (i : nat) (column : list Z) (M : Z) :
  np_fits itemsize M = true ->
  is_max column M -> M + 1 <> Z.of_nat (distinct_count column) ->
  is_Ok (category_size itemsize i column) = false.
Proof.
  intros Hfit Hmax HM. unfold category_size.
  apply is_Ok_bind_Raise. intros m. destruct (negb (m =? 0)); [reflexivity |].
  rewrite (np_max_unique_Z column M Hmax). cbn [bind].
  rewrite length_np_unique_Z, (np_add_one _ _ Hfit).
  pose proof (np_int_range_sign itemsize).
  destruct (Z.eqb_spec M (snd (np_int_range itemsize))).
  - destruct (Z.eqb_spec (fst (np_int_range itemsize)) (Z.of_nat (distinct_count column)));
      [lia | reflexivity].
  - destruct (Z.eqb_spec (M + 1) (Z.of_nat (distinct_count column)));
      [contradiction | reflexivity].
Qed.

Lemma mapM_Raise {A B : Type} (f : A -> result B) (l : list A) (x : A) :
  In x l -> is_Ok (f x) = false -> is_Ok (mapM f l) = false.
Proof.
  induction l as [| y l IH]; simpl; intros Hin Hx; [easy |].
  destruct (f y) eqn:E; simpl; [| reflexivity].
  destruct Hin as [-> | Hin]; [rewrite E in Hx; discriminate |].
  specialize (IH Hin Hx). destruct (mapM f l); [discriminate | reflexivity].
Qed.

Lemma In_enumerate_nth {A : Type} (l : list A) (k : nat) (d : A) :
  (k < length l)%nat -> In (k, nth k l d) (enumerate l).
Proof.
  intros Hk. rewrite <- (nth_enumerate l k d Hk).
  apply nth_In. unfold enumerate. rewrite length_combine, length_seq. lia.
Qed.

Lemma get_category_sizes_column_raises (X : int_array) (j : nat) :
  (j < n_cols X)%nat ->
  is_Ok (category_size (np_itemsize X) j (column 0 X j)) = false ->
  is_Ok (get_category_sizes X) = false.
Proof.
  intros Hj Hc. unfold get_category_sizes.
  destruct (negb (ndim X =? 2)%nat); [reflexivity |].
  destruct (np_kind X); try reflexivity.
  apply (mapM_Raise _ _ (j, column 0 X j)); [| exact Hc].
  rewrite <- (nth_columns 0 X j [] Hj).
  apply In_enumerate_nth. now rewrite length_columns.
Qed.

(** ** Bin counts *)

Lemma n_distinct_two (column : list Q) :
  2 <= n_distinct column ->
  exists x y, In x column /\ In y column /\ (x < y)%Q.
Proof.
  unfold n_distinct. intros H.
  pose proof (np_unique_increasing column 0%nat 1%nat ltac:(lia)) as Hlt.
  exists (nth 0 (np_unique Qle_bool column) 0%Q), (nth 1 (np_unique Qle_bool column) 0%Q).
  repeat split; [| | exact Hlt]; apply (np_unique_In Qle_bool), nth_In; lia.
Qed.

Lemma n_distinct_equal (column : list Q) (x y : Q) :
  n_distinct column < 2 -> In x column -> In y column -> (x == y)%Q.
Proof.
  unfold n_distinct. intros H Hx Hy. apply Qleb_eqv.
  apply (np_unique_one Qle_bool Qleb_total Qleb_trans column); [lia | assumption..].
Qed.

Lemma n_distinct_differ (column : list Q) (x y : Q) :
  In x column -> In y column -> ~ (x == y)%Q -> 2 <= n_distinct column.
Proof.
  unfold n_distinct. intros Hx Hy Hne.
  pose proof (np_unique_two Qle_bool Qleb_total Qleb_trans column x y Hx Hy) as H.
  unfold order_eqv in H. rewrite Qleb_eqv in H. specialize (H Hne). lia.
Qed.

Lemma adjust_columns_Ok (n_bins : Z) (cols : list (nat * list Q)) :
  (forall ic, In ic cols -> 2 <= n_distinct (snd ic)) ->
  adjust_columns n_bins cols
  = (bin_warnings n_bins cols, Ok (map (fun ic => effective_bins n_bins (snd ic)) cols)).
Proof.
  induction cols as [| [i column] cols IH]; intros H; [reflexivity |].
  cbn [adjust_columns].
  pose proof (H (i, column) (or_introl eq_refl)) as Hc. cbn [snd] in Hc.
  fold (n_distinct column).
  destruct (Z.ltb_spec (n_distinct column) 2); [lia |].
  rewrite IH by (intros ic Hic; apply H; now right).
  reflexivity.
Qed.

Lemma adjust_columns_Raise (n_bins : Z) (cols : list (nat * list Q)) (ic : nat * list Q) :
  In ic cols -> n_distinct (snd ic) < 2 ->
  is_Ok (snd (adjust_columns n_bins cols)) = false.
Proof.
  induction cols as [| [i column] cols IH]; intros Hin Hlt; [easy |].
  cbn [adjust_columns]. fold (n_distinct column).
  destruct (Z.ltb_spec (n_distinct column) 2); [reflexivity |].
  destruct Hin as [<- | Hin]; [cbn [snd] in Hlt; lia |].
  specialize (IH Hin Hlt).
  destruct (adjust_columns n_bins cols) as [ws r]. cbn [snd] in *.
  destruct r; [discriminate | reflexivity].
Qed.

Lemma In_enumerate_columns {A : Type} (d : A) (X : ndarray A) (ic : nat * list A) :
  In ic (enumerate (columns d X)) ->
  (fst ic < n_cols X)%nat /\ snd ic = column d X (fst ic).
Proof.
  destruct ic as [i c]. intros H. apply (In_enumerate _ _ _ []) in H.
  rewrite length_columns in H. destruct H as [Hi ->]. cbn [fst snd].
  split; [exact Hi | now apply nth_columns].
Qed.

Lemma adjust_bin_counts_Ok (X : ndarray Q) (n_bins : Z) :
  2 <= n_bins ->
  (forall j, (j < n_cols X)%nat -> 2 <= n_distinct (column 0%Q X j)) ->
  _adjust_bin_counts X n_bins
  = (bin_warnings n_bins (enumerate (columns 0%Q X)),
     Ok (map (fun ic => effective_bins n_bins (snd ic)) (enumerate (columns 0%Q X)))).
Proof.
  intros Hn Hc. unfold _adjust_bin_counts.
  destruct (Z.ltb_spec n_bins 2); [lia |].
  apply adjust_columns_Ok. intros ic Hic.
  apply In_enumerate_columns in Hic. destruct Hic as [Hi ->]. now apply Hc.
Qed.

Lemma adjust_bin_counts_n_bins (X : ndarray Q) (n_bins : Z) :
  n_bins < 2 -> is_Ok (snd (_adjust_bin_counts X n_bins)) = false.
Proof.
  intros Hn. unfold _adjust_bin_counts.
  destruct (Z.ltb_spec n_bins 2); [reflexivity | lia].
Qed.

Lemma adjust_bin_counts_constant (X : ndarray Q) (n_bins : Z) (j : nat) :
  (j < n_cols X)%nat -> n_distinct (column 0%Q X j) < 2 ->
  is_Ok (snd (_adjust_bin_counts X n_bins)) = false.
Proof.
  intros Hj Hc. unfold _adjust_bin_counts.
  destruct (n_bins <? 2); [reflexivity |].
  apply (adjust_columns_Raise _ _ (j, column 0%Q X j)); [| exact Hc].
  rewrite <- (nth_columns 0%Q X j [] Hj).
  apply In_enumerate_nth. now rewrite length_columns.
Qed.

Lemma combine_enumerate_snd {A B C : Type} (f : A * B -> C) (g : A -> B) (l : list A) :
  map f (combine l (map (fun ic : nat * A => g (snd ic)) (enumerate l)))
  = map (fun c => f (c, g c)) l.
Proof.
  unfold enumerate. generalize 0%nat.
  induction l as [| c l IH]; intros a; simpl; [reflexivity |].
  now rewrite IH.
Qed.

Lemma In_bin_warnings (n_bins : Z) (X : ndarray Q) (j : nat) :
  (j < n_cols X)%nat -> n_distinct (column 0%Q X j) < n_bins ->
  In (msg_fewer_bins j) (bin_warnings n_bins (enumerate (columns 0%Q X))).
Proof.
  intros Hj Hlt. unfold bin_warnings. apply in_flat_map.
  exists (j, column 0%Q X j). split.
  - rewrite <- (nth_columns 0%Q X j [] Hj).
    apply In_enumerate_nth. now rewrite length_columns.
  - cbn [fst snd]. destruct (Z.ltb_spec (n_distinct (column 0%Q X j)) n_bins); [now left | lia].
Qed.

(** ** Bin edges from quantiles *)

Lemma compute_quantile_bin_edges_Ok (X : ndarray Q) (n_bins : Z) :
  ndim X = 2%nat ->
  2 <= n_bins ->
  (forall j, (j < n_cols X)%nat -> 2 <= n_distinct (column 0%Q X j)) ->
  compute_quantile_bin_edges X n_bins
  = (bin_warnings n_bins (enumerate (columns 0%Q X)),
     Ok (map (fun c => quantile_edges c (effective_bins n_bins c)) (columns 0%Q X))).
Proof.
  intros Hdim Hn Hc. unfold compute_quantile_bin_edges.
  rewrite Hdim. cbn [Nat.eqb negb].
  rewrite adjust_bin_counts_Ok by assumption. cbn [bind].
  rewrite (combine_enumerate_snd (fun ca => quantile_edges (fst ca) (snd ca))
             (effective_bins n_bins)).
  reflexivity.
Qed.

Lemma compute_quantile_bin_edges_n_bins (X : ndarray Q) (n_bins : Z) :
  n_bins < 2 -> is_Ok (snd (compute_quantile_bin_edges X n_bins)) = false.
Proof.
  intros Hn. unfold compute_quantile_bin_edges.
  destruct (negb (ndim X =? 2)%nat); [reflexivity |].
  pose proof (adjust_bin_counts_n_bins X n_bins Hn) as H.
  destruct (_adjust_bin_counts X n_bins) as [ws r]. cbn [snd] in *.
  destruct r; [discriminate | reflexivity].
Qed.

Lemma compute_quantile_bin_edges_constant (X : ndarray Q) (n_bins : Z) (j : nat) :
  (j < n_cols X)%nat -> n_distinct (column 0%Q X j) < 2 ->
  is_Ok (snd (compute_quantile_bin_edges X n_bins)) = false.
Proof.
  intros Hj Hc. unfold compute_quantile_bin_edges.
  destruct (negb (ndim X =? 2)%nat); [reflexivity |].
  pose proof (adjust_bin_counts_constant X n_bins j Hj Hc) as H.
  destruct (_adjust_bin_counts X n_bins) as [ws r]. cbn [snd] in *.
  destruct r; [discriminate | reflexivity].
Qed.

Lemma length_np_linspace (start stop : Q) (num : Z) :
  length (np_linspace start stop num) = Z.to_nat num.
Proof.
  unfold np_linspace. now rewrite length_map, length_seq.
Qed.

(** The levels are equally spaced: level [k] of [num] is [k / (num - 1)]. *)
Lemma nth_np_linspace (num : Z) (k : nat) :
  (k < Z.to_nat num)%nat ->
  (nth k (np_linspace 0 1 num) 0 == inject_Z (Z.of_nat k) / inject_Z (num - 1))%Q.
Proof.
  intros Hk. unfold np_linspace.
  rewrite (nth_map_lt _ _ _ 0%nat) by (rewrite length_seq; exact Hk).
  rewrite seq_nth by exact Hk. cbn [Nat.add].
  unfold Qdiv. ring.
Qed.

Lemma np_linspace_first (num : Z) :
  1 <= num -> (nth 0 (np_linspace 0 1 num) 0 == 0)%Q.
Proof.
  intros Hn. rewrite nth_np_linspace by lia.
  change (inject_Z (Z.of_nat 0)) with 0%Q. unfold Qdiv. ring.
Qed.

Lemma np_linspace_last (num : Z) :
  2 <= num -> (nth (Z.to_nat (num - 1)) (np_linspace 0 1 num) 0 == 1)%Q.
Proof.
  intros Hn. rewrite nth_np_linspace by lia.
  rewrite Z2Nat.id by lia. field.
  intros H. unfold Qeq, inject_Z in H. cbn [Qnum Qden] in H. lia.
Qed.

Lemma np_quantile_first (a : list Q) (q : Q) :
  (q == 0)%Q -> (np_quantile a q == nth 0 (sort Qle_bool a) 0)%Q.
Proof.
  intros Hq. unfold np_quantile. cbv zeta.
  set (pos := (q * inject_Z (Z.of_nat (length a) - 1))%Q).
  assert (Hpos : (pos == 0)%Q) by (unfold pos; rewrite Hq; ring).
  assert (Hlo : Qfloor pos = 0) by (rewrite Hpos; reflexivity).
  rewrite Hlo. change (Z.to_nat 0) with 0%nat. rewrite Hpos.
  change (inject_Z 0) with 0%Q. ring.
Qed.

Lemma np_quantile_last (a : list Q) (q : Q) :
  a <> [] -> (q == 1)%Q ->
  (np_quantile a q == nth (length a - 1) (sort Qle_bool a) 0)%Q.
Proof.
  intros Ha Hq. unfold np_quantile. cbv zeta.
  assert (Hn : (1 <= length a)%nat) by (destruct a; [congruence | simpl; lia]).
  set (n1 := Z.of_nat (length a) - 1).
  set (pos := (q * inject_Z n1)%Q).
  assert (Hpos : (pos == inject_Z n1)%Q) by (unfold pos; rewrite Hq; ring).
  assert (Hlo : Qfloor pos = n1) by (rewrite Hpos; apply Qfloor_Z).
  rewrite Hlo, Z.min_r by lia.
  replace (Z.to_nat n1) with (length a - 1)%nat by (unfold n1; lia).
  rewrite Hpos. ring.
Qed.

(** A column with two distinct values has a least order statistic under
    its greatest. *)
Lemma sorted_ends (column : list Q) :
  2 <= n_distinct column ->
  (nth 0 (sort Qle_bool column) 0 < nth (length column - 1) (sort Qle_bool column) 0)%Q.
Proof.
  intros H. destruct (n_distinct_two column H) as [x [y [Hx [Hy Hxy]]]].
  pose proof (sort_sorted Qle_bool Qleb_total Qleb_trans column) as Hs.
  assert (Hx' : In x (sort Qle_bool column))
    by (eapply Permutation_in; [symmetry; apply sort_perm | exact Hx]).
  assert (Hy' : In y (sort Qle_bool column))
    by (eapply Permutation_in; [symmetry; apply sort_perm | exact Hy]).
  destruct (sorted_bounds Qle_bool Qleb_total _ 0%Q x Hs Hx') as [Hlo _].
  destruct (sorted_bounds Qle_bool Qleb_total _ 0%Q y Hs Hy') as [_ Hhi].
  rewrite length_sort in Hhi. apply Qle_bool_iff in Hlo, Hhi.
  eapply Qle_lt_trans; [exact Hlo |]. eapply Qlt_le_trans; [exact Hxy | exact Hhi].
Qed.

Lemma n_distinct_nonempty (column : list Q) : 2 <= n_distinct column -> column <> [].
Proof.
  intros H ->. vm_compute in H. now apply H.
Qed.

Lemma quantile_edges_length (column : list Q) (adjusted_n_bins : Z) :
  2 <= n_distinct column -> 1 <= adjusted_n_bins ->
  2 <= Z.of_nat (length (quantile_edges column adjusted_n_bins)) <= adjusted_n_bins + 1.
Proof.
  intros Hc Hb. unfold quantile_edges. split.
  - set (levels := np_linspace 0 1 (adjusted_n_bins + 1)).
    assert (Hlen : length levels = Z.to_nat (adjusted_n_bins + 1))
      by apply length_np_linspace.
    assert (H0 : In (np_quantile column (nth 0 levels 0%Q)) (map (np_quantile column) levels))
      by (apply in_map, nth_In; lia).
    assert (H1 : In (np_quantile column (nth (Z.to_nat adjusted_n_bins) levels 0%Q))
                    (map (np_quantile column) levels))
      by (apply in_map, nth_In; lia).
    pose proof (np_unique_two Qle_bool Qleb_total Qleb_trans _ _ _ H0 H1) as H.
    unfold order_eqv in H. rewrite Qleb_eqv in H.
    enough (Hne : ~ (np_quantile column (nth 0 levels 0) ==
                     np_quantile column (nth (Z.to_nat adjusted_n_bins) levels 0))%Q)
      by (specialize (H Hne); lia).
    rewrite np_quantile_first by (apply np_linspace_first; lia).
    rewrite np_quantile_last;
      [| now apply n_distinct_nonempty
       | replace adjusted_n_bins with (adjusted_n_bins + 1 - 1) at 1 by lia;
         apply np_linspace_last; lia].
    intros E. pose proof (sorted_ends column Hc) as Hlt.
    rewrite E in Hlt. exact (Qlt_irrefl _ Hlt).
  - pose proof (length_np_unique Qle_bool
                  (map (np_quantile column) (np_linspace 0 1 (adjusted_n_bins + 1)))) as H.
    rewrite length_map, length_np_linspace in H. lia.
Qed.

Lemma effective_bins_bounds (n_bins : Z) (column : list Q) :
  2 <= n_bins -> 2 <= n_distinct column ->
  2 <= effective_bins n_bins column <= n_bins.
Proof.
  unfold effective_bins. lia.
Qed.

(** ** Bin edges from a decision tree *)

Lemma mapM_Ok_nth {A B : Type} (f : A -> result B) (l : list A) :
  (forall x, In x l -> exists b, f x = Ok b) ->
  exists bs, mapM f l = Ok bs /\ length bs = length l /\
    forall k a b, (k < length l)%nat -> f (nth k l a) = Ok (nth k bs b).
Proof.
  induction l as [| x l IH]; intros H.
  - exists []. repeat split. simpl. intros; lia.
  - destruct (H x (or_introl eq_refl)) as [b0 Hb0].
    destruct IH as [bs [E [Hlen Hnth]]]; [intros y Hy; apply H; now right |].
    exists (b0 :: bs). simpl. rewrite Hb0, E. simpl. repeat split; [now rewrite Hlen |].
    intros [| k] a b Hk; [exact Hb0 | apply Hnth; lia].
Qed.

Lemma combine_enumerate {A B : Type} (g : A -> B) (l : list A) :
  combine l (map (fun ic : nat * A => g (snd ic)) (enumerate l)) = map (fun c => (c, g c)) l.
Proof.
  unfold enumerate. generalize 0%nat.
  induction l as [| c l IH]; intros a; simpl; [reflexivity |].
  now rewrite IH.
Qed.

Lemma np_min_Q (column : list Q) :
  column <> [] -> exists m, np_min Qle_bool column = Ok m /\ is_min_Q column m.
Proof.
  intros H. destruct (np_min_spec Qle_bool Qleb_total Qleb_trans column H) as [m [E [Hin Hle]]].
  exists m. split; [exact E |]. split; [exact Hin |].
  intros v Hv. apply Qle_bool_iff, Hle, Hv.
Qed.

Lemma np_max_Q (column : list Q) :
  column <> [] -> exists m, np_max Qle_bool column = Ok m /\ is_max_Q column m.
Proof.
  intros H. destruct (np_max_spec Qle_bool Qleb_total Qleb_trans column H) as [m [E [Hin Hle]]].
  exists m. split; [exact E |]. split; [exact Hin |].
  intros v Hv. apply Qle_bool_iff, Hle, Hv.
Qed.

(** An element of [np.unique(l)] is an element of [l], and every element of
    [l] has its equal in [np.unique(l)]. *)
Lemma np_unique_Q_complete (l : list Q) (v : Q) :
  In v l -> exists v', In v' (np_unique Qle_bool l) /\ (v' == v)%Q.
Proof.
  intros H. destruct (np_unique_complete Qle_bool Qleb_total v l H) as [z [Hz E]].
  exists z. split; [exact Hz |]. symmetry. now apply Qleb_eqv.
Qed.

Section DecisionTreeFacts.

Variable target : Type.
Variable len : target -> nat.
Variable Any : Type.
Variable fit : bool -> Z -> list (string * Any) -> list Q -> target -> Tree.

Lemma In_split_thresholds (tree : Tree) (v : Q) :
  In v (split_thresholds tree) <->
  exists nd, In nd tree /\ is_split nd /\ threshold nd = v.
Proof.
  unfold is_split. induction tree as [| nd tree IH]; simpl.
  - split; [easy | intros [nd [[] _]]].
  - destruct (Z.eqb_spec (children_left nd) (children_right nd)) as [E | E]; simpl.
    + rewrite IH. split.
      * intros [nd' [Hin H]]. exists nd'. split; [now right | exact H].
      * intros [nd' [[<- | Hin] [Hs Hv]]]; [contradiction |]. now exists nd'.
    + rewrite IH. split.
      * intros [<- | [nd' [Hin H]]]; [exists nd; repeat split; auto |].
        exists nd'. split; [now right | exact H].
      * intros [nd' [[<- | Hin] [Hs Hv]]]; [now left | right; now exists nd'].
Qed.

Lemma tree_edges_spec (regression : bool) (tree_kwargs : list (string * Any)) (y : target)
    (column : list Q) (adjusted_n_bins : Z) :
  column <> [] ->
  exists edges,
    tree_edges target Any fit regression tree_kwargs y column adjusted_n_bins = Ok edges /\
    tree_edges_of (fit regression adjusted_n_bins tree_kwargs column y) column edges.
Proof.
  intros Hc. unfold tree_edges.
  destruct (np_min_Q column Hc) as [mn [Emn Hmn]].
  destruct (np_max_Q column Hc) as [mx [Emx Hmx]].
  rewrite Emn, Emx. cbn [bind]. eexists. split; [reflexivity |].
  exists mn, mx. repeat split; try apply Hmn; try apply Hmx.
  - apply np_unique_increasing.
  - intros v Hv. apply np_unique_In in Hv. rewrite !in_app_iff in Hv.
    destruct Hv as [Hv | [[<- | []] | [<- | []]]]; auto.
    right; right. now apply In_split_thresholds.
  - intros v Hv. apply np_unique_Q_complete. rewrite !in_app_iff.
    destruct Hv as [-> | [-> | Hv]]; simpl; auto.
    left. now apply In_split_thresholds.
Qed.

Lemma compute_decision_tree_bin_edges_Ok (X : ndarray Q) (n_bins : Z) (y : target)
    (regression : bool) (tree_kwargs : list (string * Any)) :
  ndim X = 2%nat ->
  n_rows X = len y ->
  existsb (fun kv => String.eqb (fst kv) "max_leaf_nodes") tree_kwargs = false ->
  2 <= n_bins ->
  (forall j, (j < n_cols X)%nat -> 2 <= n_distinct (column 0%Q X j)) ->
  exists edges,
    compute_decision_tree_bin_edges target len Any fit X n_bins y regression tree_kwargs
    = (bin_warnings n_bins (enumerate (columns 0%Q X)), Ok edges) /\
    length edges = n_cols X /\
    forall j, (j < n_cols X)%nat ->
      tree_edges_of
        (fit regression (effective_bins n_bins (column 0%Q X j)) tree_kwargs
             (column 0%Q X j) y)
        (column 0%Q X j) (nth j edges []).
Proof.
  intros Hdim Hrows Hkw Hn Hc. unfold compute_decision_tree_bin_edges.
  rewrite Hdim, Hrows, !Nat.eqb_refl, Hkw. cbn [negb].
  rewrite adjust_bin_counts_Ok by assumption. cbn [bind].
  rewrite (combine_enumerate (effective_bins n_bins)).
  set (f := fun ca : list Q * Z =>
              tree_edges target Any fit regression tree_kwargs y (fst ca) (snd ca)).
  set (l := map (fun c => (c, effective_bins n_bins c)) (columns 0%Q X)).
  assert (Hl : length l = n_cols X) by (unfold l; now rewrite length_map, length_columns).
  assert (Hnth : forall j, (j < n_cols X)%nat ->
            nth j l ([], 0) = (column 0%Q X j, effective_bins n_bins (column 0%Q X j))).
  { intros j Hj. unfold l.
    rewrite (nth_map_lt _ _ _ []) by (rewrite length_columns; exact Hj).
    now rewrite nth_columns. }
  destruct (mapM_Ok_nth f l) as [edges [E [Hlen Hk]]].
  { intros ca Hca. destruct (In_nth _ _ ([], 0) Hca) as [j [Hj <-]].
    rewrite Hl in Hj. rewrite Hnth by exact Hj. unfold f. cbn [fst snd].
    destruct (tree_edges_spec regression tree_kwargs y (column 0%Q X j)
                (effective_bins n_bins (column 0%Q X j))) as [e [He _]].
    - apply n_distinct_nonempty. now apply Hc.
    - now exists e. }
  exists edges. rewrite E. split; [reflexivity |]. split; [congruence |].
  intros j Hj.
  assert (Hjl : (j < length l)%nat) by (rewrite Hl; exact Hj).
  specialize (Hk j ([], 0) [] Hjl). rewrite Hnth in Hk by exact Hj.
  unfold f in Hk. cbn [fst snd] in Hk.
  destruct (tree_edges_spec regression tree_kwargs y (column 0%Q X j)
              (effective_bins n_bins (column 0%Q X j))) as [e [He Hspec]].
  - apply n_distinct_nonempty. now apply Hc.
  - rewrite He in Hk. injection Hk as <-. exact Hspec.
Qed.

Lemma compute_decision_tree_bin_edges_n_bins (X : ndarray Q) (n_bins : Z) (y : target)
    (regression : bool) (tree_kwargs : list (string * Any)) :
  n_bins < 2 ->
  is_Ok (snd (compute_decision_tree_bin_edges target len Any fit X n_bins y regression
                tree_kwargs)) = false.
Proof.
  intros Hn. unfold compute_decision_tree_bin_edges.
  destruct (negb (ndim X =? 2)%nat); [reflexivity |].
  destruct (negb (n_rows X =? len y)%nat); [reflexivity |].
  destruct (existsb _ tree_kwargs); [reflexivity |].
  pose proof (adjust_bin_counts_n_bins X n_bins Hn) as H.
  destruct (_adjust_bin_counts X n_bins) as [ws r]. cbn [snd] in *.
  destruct r; [discriminate | reflexivity].
Qed.

Lemma compute_decision_tree_bin_edges_constant (X : ndarray Q) (n_bins : Z) (y : target)
    (regression : bool) (tree_kwargs : list (string * Any)) (j : nat) :
  (j < n_cols X)%nat -> n_distinct (column 0%Q X j) < 2 ->
  is_Ok (snd (compute_decision_tree_bin_edges target len Any fit X n_bins y regression
                tree_kwargs)) = false.
Proof.
  intros Hj Hc. unfold compute_decision_tree_bin_edges.
  destruct (negb (ndim X =? 2)%nat); [reflexivity |].
  destruct (negb (n_rows X =? len y)%nat); [reflexivity |].
  destruct (existsb _ tree_kwargs); [reflexivity |].
  pose proof (adjust_bin_counts_constant X n_bins j Hj Hc) as H.
  destruct (_adjust_bin_counts X n_bins) as [ws r]. cbn [snd] in *.
  destruct r; [discriminate | reflexivity].
Qed.

End DecisionTreeFacts.

Lemma increasingb_sound (l : list Q) : increasingb l = true -> strictly_increasing l.
Proof.
  intros H.
  assert (Hs : StronglySorted Qlt l).
  { apply Sorted_StronglySorted; [intros x y z; apply Qlt_trans |].
    induction l as [| x l IH]; [constructor |].
    cbn [increasingb] in H. destruct l as [| y l]; [repeat constructor |].
    apply andb_true_iff in H. destruct H as [Hxy Hl].
    constructor; [now apply IH |]. constructor. now apply Qltb_lt. }
  intros a b Hab. now apply (StronglySorted_nth Qlt).
Qed.

Lemma map_snd_enumerate {A B : Type} (g : A -> B) (l : list A) :
  map (fun ic : nat * A => g (snd ic)) (enumerate l) = map g l.
Proof.
  unfold enumerate. generalize 0%nat.
  induction l as [| c l IH]; intros a; simpl; [reflexivity | now rewrite IH].
Qed.

(** * The encoders *)

(** C1.  [_LVR_encoding] does not build the Left-Value-Right tensor: whatever
    the values, the indices, the width and the two Python numbers [left]
    and [right] are, the call raises.  On a float32 matrix [[1/2, 1/4]]
    with the indices [[0, 2]], the width 3 and the fills 1.0 and 0.0, which
    are of one type and match the element type, it raises the ValueError
    on the dtype of [values]. *)
Theorem LVR_encoding_never_returns :
  (forall values indices d_encoding left right,
     is_Ok (_LVR_encoding values indices d_encoding left right) = false) /\
  _LVR_encoding Sample.values Sample.indices 3 (PyFloat (Fin 1)) (PyFloat (Fin 0))
  = Raise (ValueError msg_dtype).
Proof.
  split; [apply LVR_encoding_raises | reflexivity].
Qed.

(** C3.  [ordinal_binary_encoding] does not return the thermometer code:
    every call raises.  With the indices [[0, 2]], the width 3 and the
    dtype float32 it raises the ValueError of [_LVR_encoding] on the dtype
    of [values]. *)
Theorem ordinal_binary_encoding_never_returns :
  (forall indices d_encoding dtype,
     is_Ok (ordinal_binary_encoding indices d_encoding dtype) = false) /\
  ordinal_binary_encoding Sample.indices 3 (torch_dtype torch.float32)
  = Raise (ValueError msg_dtype).
Proof.
  split; [apply ordinal_binary_encoding_raises | reflexivity].
Qed.

(** C5.  [piecewise_linear_encoding] raises on every input, also when the
    values are within the relaxed bounds: the value -1/2 in the first bin
    and the value 3/2 in the last of three bins pass the two checks of the
    domain and the call then raises the ValueError of [_LVR_encoding] on
    the dtype of [values], instead of returning the encoding. *)
Theorem piecewise_linear_encoding_never_returns :
  (forall values indices d_encoding,
     is_Ok (piecewise_linear_encoding values indices d_encoding) = false) /\
  piecewise_linear_encoding Sample.values_beyond Sample.indices 3
  = Raise (ValueError msg_dtype).
Proof.
  split; [apply piecewise_linear_encoding_raises | reflexivity].
Qed.

(** C10, as stated, fails where another check comes first: with a dtype
    that is neither an integer nor a floating-point one,
    [ordinal_binary_encoding] raises "unsupported dtype"; with [left] and
    [right] of two types [_LVR_encoding] raises on their types; and on
    values of an integer dtype, here 1 and 0 in a middle bin, which are
    within their bounds, [piecewise_linear_encoding] raises RuntimeError
    when it writes the infinity into the bounds. *)
Lemma dtype_error_not_on_every_call :
  ordinal_binary_encoding Sample.indices 3 (torch_dtype torch.bool)
  = Raise (ValueError "unsupported dtype") /\
  ordinal_binary_encoding Sample.indices 3 (torch_dtype torch.bool)
  <> Raise (ValueError msg_dtype) /\
  _LVR_encoding Sample.values Sample.indices 3 (PyInt 1) (PyFloat (Fin 0))
  = Raise (ValueError msg_same_type) /\
  _LVR_encoding Sample.values Sample.indices 3 (PyInt 1) (PyFloat (Fin 0))
  <> Raise (ValueError msg_dtype) /\
  piecewise_linear_encoding
    (mk_Tensor torch.int64 (mk_ndarray [1%nat; 2%nat] [Fin 1; Fin 0]))
    (mk_ndarray [1%nat; 2%nat] [1; 1]) 3
  = Raise RuntimeError.
Proof.
  repeat split; try reflexivity; vm_compute; discriminate.
Qed.

(** C10, amended.  The string of the type of a Python int or float is in
    the string of no dtype, so that the dtype guard of [_LVR_encoding]
    fires whenever it is reached: [_LVR_encoding] with [left] and [right]
    of one type, [ordinal_binary_encoding] with a dtype that has a scalar
    class, and [piecewise_linear_encoding] with values of a floating-point
    dtype, indices of the shape of the values and as many of them, and
    every value within the bounds of its bin all raise the ValueError on
    the dtype of [values]; and none of the three functions returns an
    encoding on any input.  The guard would fire as well for any dtype
    whose string has no ["<"]. *)
Theorem dtype_guard_always_raises :
  (forall (t : py_type) (dt : torch.dtype), str_in (str_type t) (torch.str dt) = false) /\
  (forall values indices d_encoding left right,
     type left = type right ->
     _LVR_encoding values indices d_encoding left right = Raise (ValueError msg_dtype)) /\
  (forall indices d_encoding dtype dt cls,
     _get_torch_dtype dtype = Ok dt ->
     _get_scalar_class dt = Ok cls ->
     ordinal_binary_encoding indices d_encoding dtype = Raise (ValueError msg_dtype)) /\
  (forall (values : Tensor) (indices : ndarray Z) d_encoding,
     torch.is_floating_point (dtype values) = true ->
     shape indices = shape values ->
     length (data indices) = length (data values) ->
     (forall v i, In (v, i) (combine (data values) (data indices)) ->
        scalar_ltb v (lower_bound i) = false /\
        scalar_ltb (upper_bound d_encoding i) v = false) ->
     piecewise_linear_encoding values indices d_encoding = Raise (ValueError msg_dtype)) /\
  (forall values indices d_encoding left right,
     is_Ok (_LVR_encoding values indices d_encoding left right) = false) /\
  (forall indices d_encoding dtype,
     is_Ok (ordinal_binary_encoding indices d_encoding dtype) = false) /\
  (forall values indices d_encoding,
     is_Ok (piecewise_linear_encoding values indices d_encoding) = false) /\
  (forall (t : py_type) (s : string),
     occurs "<"%char s = false -> str_in (str_type t) s = false).
Proof.
  split; [exact dtype_guard |].
  split; [exact LVR_encoding_same_type |].
  split; [exact ordinal_binary_encoding_supported |].
  split; [exact piecewise_linear_encoding_within |].
  split; [exact LVR_encoding_raises |].
  split; [exact ordinal_binary_encoding_raises |].
  split; [exact piecewise_linear_encoding_raises | exact str_type_not_in].
Qed.

Lemma dtype_guard_always_raises_witness :
  type (PyInt 1) = type (PyInt 0) /\
  _LVR_encoding Sample.values Sample.indices 3 (PyInt 1) (PyInt 0)
  = Raise (ValueError msg_dtype) /\
  _get_scalar_class torch.int64 = Ok py_int /\
  ordinal_binary_encoding Sample.indices 3 (torch_dtype torch.int64)
  = Raise (ValueError msg_dtype) /\
  piecewise_linear_encoding Sample.values_beyond Sample.indices 3
  = Raise (ValueError msg_dtype).
Proof.
  destruct dtype_guard_always_raises as [_ [HL [Ho [Hp _]]]].
  split; [reflexivity |].
  split; [apply HL; reflexivity |].
  split; [reflexivity |].
  split; [apply (Ho _ _ _ torch.int64 py_int); reflexivity |].
  apply Hp; try reflexivity.
  intros v i Hin. simpl in Hin.
  destruct Hin as [E | [E | []]]; injection E as <- <-; split; reflexivity.
Defined.

(** * Bin indices and bin values *)

(** C2, as stated, fails on a matrix without columns, which
    [torch.stack] refuses; on an edge sequence of one edge, where the
    index 0 is returned and [len(edges) - 2] is negative; on a matrix of
    integers, for which the infinity of the outer boundaries cannot be
    made; and on an element [+inf], which gets the index after the last
    bin. *)
Lemma compute_bin_indices_no_column :
  ndim Sample.X_no_column = 2%nat /\
  compute_bin_indices (float_matrix torch.float32 Sample.X_no_column) []
  = Raise RuntimeError /\
  compute_bin_indices (float_matrix torch.float32 Sample.X_one) [[5]%Q]
  = Ok (mk_ndarray [1%nat; 1%nat] [0]) /\
  ~ (0 <= Z.of_nat (length [5%Q]) - 2) /\
  compute_bin_indices (float_matrix torch.int64 Sample.X) Sample.bin_edges
  = Raise RuntimeError /\
  compute_bin_indices
    (mk_Matrix torch.float32 (mk_ndarray [1%nat; 1%nat] [Num PosInf])) [[0; 1; 2]%Q]
  = Ok (mk_ndarray [1%nat; 1%nat] [2]) /\
  ~ (2 <= Z.of_nat (length [0; 1; 2]%Q) - 2).
Proof.
  repeat split; try reflexivity; vm_compute; intros H; now apply H.
Qed.

(** C2, amended.  For every 2-D matrix [X] of a floating-point dtype with
    at least one column, whose elements are real numbers, and every list
    of strictly increasing edge sequences of two edges or more, of the
    dtype of [X] and one for each column of [X], [compute_bin_indices] returns a matrix of the
    shape of [X] in which every entry is the one index [i] with [edges[i]
    <= x < edges[i+1]], the first edge counting as minus infinity and the
    last edge as plus infinity; the index lies in [[0, len(edges) - 2]].
    An element that is [+inf] or NaN gets the index [len(edges) - 1], and
    a matrix of a dtype that is not a floating-point one is refused. *)
Theorem compute_bin_indices_in_bin :
  (forall (dt : torch.dtype) (X : ndarray Q) (bin_edges : list (list Q)),
     torch.is_floating_point dt = true ->
     ndim X = 2%nat ->
     (0 < n_cols X)%nat ->
     length bin_edges = n_cols X ->
     (forall j, (j < n_cols X)%nat ->
        strictly_increasing (nth j bin_edges []) /\
        (2 <= length (nth j bin_edges []))%nat) ->
     exists R,
       compute_bin_indices (float_matrix dt X) bin_edges = Ok R /\
       shape R = shape X /\
       forall i j, (i < n_rows X)%nat -> (j < n_cols X)%nat ->
         in_bin (nth j bin_edges []) (get2 0%Q X i j) (get2 0 R i j) /\
         0 <= get2 0 R i j <= Z.of_nat (length (nth j bin_edges [])) - 2 /\
         forall k, in_bin (nth j bin_edges []) (get2 0%Q X i j) k -> k = get2 0 R i j) /\
  (forall (X : Matrix) (bin_edges : list (list Q)),
     torch.is_floating_point (matrix_dtype X) = true ->
     ndim X = 2%nat ->
     (0 < n_cols X)%nat ->
     length bin_edges = n_cols X ->
     exists R,
       compute_bin_indices X bin_edges = Ok R /\
       forall i j, (i < n_rows X)%nat -> (j < n_cols X)%nat ->
         (2 <= length (nth j bin_edges []))%nat ->
         get2 (real 0) X i j = NaN \/ get2 (real 0) X i j = Num PosInf ->
         get2 0 R i j = Z.of_nat (length (nth j bin_edges [])) - 1) /\
  (forall (X : Matrix) (bin_edges : list (list Q)),
     torch.is_floating_point (matrix_dtype X) = false ->
     ndim X = 2%nat ->
     length bin_edges = n_cols X ->
     compute_bin_indices X bin_edges = Raise RuntimeError).
Proof.
  split; [| split].
  - intros dt X bin_edges Hdt Hdim Hpos Hlen Hedges.
    destruct (compute_bin_indices_entries (float_matrix dt X) bin_edges Hdt Hdim Hpos Hlen)
      as [R [E [Hsh Hget]]].
    exists R. split; [exact E |]. split; [exact Hsh |].
    intros i j Hi Hj. destruct (Hedges j Hj) as [Hinc H2].
    assert (Hin : in_bin (nth j bin_edges []) (get2 0%Q X i j) (get2 0 R i j)).
    { rewrite (Hget i j Hi Hj), get2_float_matrix. now apply bin_index_in_bin. }
    split; [exact Hin |]. split; [apply Hin |].
    intros k Hk. exact (in_bin_unique _ _ _ _ Hinc Hk Hin).
  - intros X bin_edges Hdt Hdim Hpos Hlen.
    destruct (compute_bin_indices_entries X bin_edges Hdt Hdim Hpos Hlen)
      as [R [E [_ Hget]]].
    exists R. split; [exact E |].
    intros i j Hi Hj HL Hx. rewrite (Hget i j Hi Hj). now apply bin_index_top.
  - exact compute_bin_indices_dtype.
Qed.

Lemma compute_bin_indices_in_bin_witness :
  ndim Sample.X = 2%nat /\
  exists R,
    compute_bin_indices (float_matrix torch.float32 Sample.X) Sample.bin_edges = Ok R /\
    shape R = shape Sample.X /\
    forall i j, (i < n_rows Sample.X)%nat -> (j < n_cols Sample.X)%nat ->
      in_bin (nth j Sample.bin_edges []) (get2 0%Q Sample.X i j) (get2 0 R i j) /\
      0 <= get2 0 R i j <= Z.of_nat (length (nth j Sample.bin_edges [])) - 2 /\
      forall k, in_bin (nth j Sample.bin_edges []) (get2 0%Q Sample.X i j) k ->
                k = get2 0 R i j.
Proof.
  split; [reflexivity |].
  apply (proj1 compute_bin_indices_in_bin).
  - reflexivity.
  - reflexivity.
  - cbv. lia.
  - reflexivity.
  - intros [| [| j]] Hj.
    + split; [apply increasingb_sound; reflexivity | cbv; lia].
    + split; [apply increasingb_sound; reflexivity | cbv; lia].
    + cbv in Hj. lia.
Defined.

(** *** The bin values of a matrix of indices *)

Lemma mapM_Raise_first {A B : Type} (f : A -> result B) (l : list A) (e : exception) :
  (forall x, In x l -> (exists y, f x = Ok y) \/ f x = Raise e) ->
  (exists x, In x l /\ f x = Raise e) ->
  mapM f l = Raise e.
Proof.
  induction l as [| a l IH]; intros Hall [x [Hx Ex]]; [destruct Hx |].
  cbn [mapM]. destruct (Hall a (or_introl eq_refl)) as [[y Ey] | Ea].
  - rewrite Ey. cbn [bind]. rewrite IH; [reflexivity | |].
    + intros z Hz. apply Hall. now right.
    + destruct Hx as [-> | Hx]; [congruence |]. now exists x.
  - now rewrite Ea.
Qed.

Lemma getitem_cases (l : list Q) (i : Z) :
  (exists y, getitem l i = Ok y) \/ getitem l i = Raise IndexError.
Proof.
  unfold getitem, normalize_index.
  destruct ((i <? - Z.of_nat (length l)) || (Z.of_nat (length l) <=? i));
    [now right | left; eexists; reflexivity].
Qed.

Lemma mapM_getitem_cases (l : list Q) (idx : list Z) :
  (exists ys, mapM (getitem l) idx = Ok ys) \/ mapM (getitem l) idx = Raise IndexError.
Proof.
  induction idx as [| i idx IH]; cbn [mapM]; [left; eexists; reflexivity |].
  destruct (getitem_cases l i) as [[y ->] | ->]; [| now right]. cbn [bind].
  destruct IH as [[ys ->] | ->]; [left; eexists; reflexivity | now right].
Qed.

(** A column whose indices all pass the comparison with the number of
    edges gives its bin values, or IndexError when an index lies before
    the start of the edges. *)
Lemma column_bin_values_cases (dt : torch.dtype) (c_i : nat) (c_values : list float_value)
    (c_indices : list Z) (c_bin_edges : list Q) :
  (forall k, In k c_indices ->
     k + 1 < Z.of_nat (length c_bin_edges) /\ wrap dt (k + 1) = k + 1) ->
  ((exists r, column_bin_values dt c_i c_values c_indices c_bin_edges = Ok r) \/
   column_bin_values dt c_i c_values c_indices c_bin_edges = Raise IndexError) /\
  ((exists k, In k c_indices /\ k < - Z.of_nat (length c_bin_edges)) ->
   column_bin_values dt c_i c_values c_indices c_bin_edges = Raise IndexError).
Proof.
  intros Hin. unfold column_bin_values. rewrite any_map.
  replace (existsb _ c_indices) with false.
  2:{ symmetry. apply not_true_is_false. intros H. apply existsb_exists in H.
      destruct H as [k [Hk H]]. apply Z.leb_le in H. destruct (Hin k Hk) as [H1 H2].
      rewrite H2 in H. lia. }
  split.
  - destruct (mapM_getitem_cases c_bin_edges c_indices) as [[ls ->] | ->]; [| now right].
    cbn [bind].
    destruct (mapM_getitem_cases c_bin_edges (map (fun i => wrap dt (i + 1)) c_indices))
      as [[rs ->] | ->]; [left; eexists; reflexivity | now right].
  - intros [k [Hk Hlo]].
    rewrite (mapM_Raise_first (getitem c_bin_edges) c_indices IndexError); [reflexivity | |].
    + intros x _. apply getitem_cases.
    + exists k. split; [exact Hk | now apply getitem_out_of_range].
Qed.

Lemma wrap_succ (dt : torch.dtype) (k len : Z) :
  is_index_dtype dt = true -> fits dt k -> fits dt len -> k + 1 < len ->
  wrap dt (k + 1) = k + 1.
Proof.
  intros Hdt Hk Hlen Hlt. apply wrap_fits.
  unfold fits in *. destruct dt; try discriminate Hdt; cbn [torch.int_range] in *; lia.
Qed.

Section BinValuesOfIndices.

Variable other_index_dtype : Matrix -> Matrix -> list (list Q) -> result (ndarray float_value).

Local Abbreviation bin_values := (compute_piecewise_linear_bin_values other_index_dtype).

Lemma compute_piecewise_linear_bin_values_int (dt : torch.dtype) (X : Matrix)
    (indices : ndarray Z) (bin_edges : list (list Q)) :
  is_index_dtype dt = true ->
  ndim X = 2%nat ->
  shape indices = shape X ->
  (0 < n_cols X)%nat ->
  length bin_edges = n_cols X ->
  (forall j, (j < n_cols X)%nat -> fits dt (Z.of_nat (length (nth j bin_edges [])))) ->
  (forall i j, (i < n_rows X)%nat -> (j < n_cols X)%nat ->
     fits dt (get2 0 indices i j) /\
     - Z.of_nat (length (nth j bin_edges [])) <= get2 0 indices i j /\
     get2 0 indices i j + 1 < Z.of_nat (length (nth j bin_edges []))) ->
  exists V,
    bin_values X (int_matrix dt indices) bin_edges = Ok V /\
    shape V = shape X /\
    forall i j, (i < n_rows X)%nat -> (j < n_cols X)%nat ->
      get2 (real 0) V i j
      = bin_value (nth j bin_edges []) (get2 (real 0) X i j) (get2 0 indices i j).
Proof.
  intros Hdt Hdim Hsh Hpos Hlen Hfit Hidx.
  destruct (compute_piecewise_linear_bin_values_entries other_index_dtype X
              (int_matrix dt indices) bin_edges Hdt Hdim Hsh Hpos Hlen) as [V [E [HshV Hget]]].
  { intros i j Hi Hj. cbv zeta. rewrite get2_int_matrix, index_of_int.
    destruct (Hidx i j Hi Hj) as [Hk [Hlo Hhi]]. split; [exact Hlo |]. split; [exact Hhi |].
    exact (wrap_succ dt _ _ Hdt Hk (Hfit j Hj) Hhi). }
  exists V. split; [exact E |]. split; [exact HshV |].
  intros i j Hi Hj. rewrite (Hget i j Hi Hj), get2_int_matrix, index_of_int. reflexivity.
Qed.

(** When every index passes the comparison with the number of edges, an
    index before the start of the edges of its column makes the reading of
    the edge raise. *)
Lemma compute_piecewise_linear_bin_values_before (dt : torch.dtype) (X : Matrix)
    (indices : ndarray Z) (bin_edges : list (list Q)) :
  is_index_dtype dt = true ->
  ndim X = 2%nat ->
  shape indices = shape X ->
  length bin_edges = n_cols X ->
  (forall j, (j < n_cols X)%nat -> fits dt (Z.of_nat (length (nth j bin_edges [])))) ->
  (forall i j, (i < n_rows X)%nat -> (j < n_cols X)%nat ->
     fits dt (get2 0 indices i j) /\
     get2 0 indices i j + 1 < Z.of_nat (length (nth j bin_edges []))) ->
  (exists i j, (i < n_rows X)%nat /\ (j < n_cols X)%nat /\
     get2 0 indices i j < - Z.of_nat (length (nth j bin_edges []))) ->
  bin_values X (int_matrix dt indices) bin_edges = Raise IndexError.
Proof.
  intros Hdt Hdim Hsh Hlen Hfit Hidx [i0 [j0 [Hi0 [Hj0 Hlo]]]].
  assert (Hrows : n_rows indices = n_rows X) by (unfold n_rows; now rewrite Hsh).
  assert (Hcols : n_cols indices = n_cols X) by (unfold n_cols; now rewrite Hsh).
  unfold compute_piecewise_linear_bin_values.
  cbn [matrix_dtype int_matrix entries shape].
  rewrite Hdim, Hsh, Hlen, !Nat.eqb_refl, shape_eqb_refl, Hdt. cbn [negb].
  change (mk_ndarray (shape X) (map (fun i => real (inject_Z i)) (data indices)))
    with (entries (int_matrix dt (mk_ndarray (shape X) (data indices)))).
  set (I' := mk_ndarray (shape X) (data indices)).
  assert (HI' : forall i j, get2 0 I' i j = get2 0 indices i j)
    by (intros i j; unfold get2, n_cols, I'; cbn [shape data]; now rewrite Hsh).
  set (zs := zip3 (columns (real 0) X) (columns (real 0) (int_matrix dt I')) bin_edges).
  assert (Hzs : length zs = n_cols X).
  { unfold zs, zip3. rewrite !length_combine, !length_columns.
    unfold n_cols at 2. cbn [int_matrix entries shape I']. fold (n_cols X). lia. }
  assert (Hnth : forall j, (j < n_cols X)%nat ->
            nth j zs ([], [], [])
            = (column (real 0) X j, column (real 0) (int_matrix dt I') j,
               nth j bin_edges [])).
  { intros j Hj. unfold zs, zip3.
    assert (Hc' : length (columns (real 0) (int_matrix dt I')) = n_cols X)
      by (rewrite length_columns; reflexivity).
    rewrite combine_nth by (rewrite length_combine, length_columns, Hc'; lia).
    rewrite combine_nth by (rewrite length_columns, Hc'; lia).
    rewrite !nth_columns by (exact Hj || (unfold n_cols; cbn; exact Hj)). reflexivity. }
  assert (Hcol : forall j k, In k (map index_of (column (real 0) (int_matrix dt I') j)) ->
            exists i, (i < n_rows X)%nat /\ k = get2 0 indices i j).
  { intros j k Hk. rewrite column_int_matrix in Hk. apply In_column in Hk.
    destruct Hk as [i [Hi ->]]. exists i. split; [exact Hi | apply HI']. }
  rewrite (mapM_Raise_first _ _ IndexError); [reflexivity | |].
  - intros [c_i [[cv ci] ce]] Hin.
    apply (In_enumerate _ _ _ ([], [], [])) in Hin. destruct Hin as [Hc E].
    rewrite Hzs in Hc. rewrite Hnth in E by exact Hc. injection E as -> -> ->.
    apply column_bin_values_cases. intros k Hk.
    destruct (Hcol _ _ Hk) as [i [Hi ->]].
    destruct (Hidx i c_i Hi Hc) as [Hk' Hhi]. split; [exact Hhi |].
    exact (wrap_succ dt _ _ Hdt Hk' (Hfit c_i Hc) Hhi).
  - exists (j0, (column (real 0) X j0, column (real 0) (int_matrix dt I') j0,
                 nth j0 bin_edges [])).
    split.
    + rewrite <- (Hnth j0 Hj0). apply In_enumerate_nth. lia.
    + apply column_bin_values_cases.
      * intros k Hk. destruct (Hcol _ _ Hk) as [i [Hi ->]].
        destruct (Hidx i j0 Hi Hj0) as [Hk' Hhi]. split; [exact Hhi |].
        exact (wrap_succ dt _ _ Hdt Hk' (Hfit j0 Hj0) Hhi).
      * exists (get2 0 indices i0 j0). split; [| exact Hlo].
        rewrite column_int_matrix, <- HI'. apply In_get2_column. exact Hi0.
Qed.

(** C4, as stated, fails on an index before the start of the edges (the
    index -3 with two edges has [index + 1] under the length, and reading
    the edge raises), on a matrix without columns, and on equal edges,
    where the division by zero gives an infinity. *)
Lemma compute_piecewise_linear_bin_values_raises :
  -3 + 1 < Z.of_nat (length [0; 1]%Q) /\
  compute_piecewise_linear_bin_values Sample.no_index
    (float_matrix torch.float32 Sample.X_one)
    (int_matrix torch.int64 Sample.index_before_start) [[0; 1]%Q]
  = Raise IndexError /\
  compute_piecewise_linear_bin_values Sample.no_index
    (float_matrix torch.float32 Sample.X_no_column)
    (int_matrix torch.int64 (mk_ndarray [3%nat; 0%nat] [])) []
  = Raise RuntimeError /\
  compute_piecewise_linear_bin_values Sample.no_index
    (float_matrix torch.float32 Sample.X_one)
    (int_matrix torch.int64 (mk_ndarray [1%nat; 1%nat] [0])) [[0; 0]%Q]
  = Ok (mk_ndarray [1%nat; 1%nat] [Num PosInf]).
Proof.
  repeat split; reflexivity.
Qed.

(** C4, amended.  For every 2-D matrix [X] of a floating-point dtype with
    at least one column, every matrix of int32 or int64 indices of its
    shape and every list of edges,
    one sequence for each column and none of them longer than the dtype of
    the indices can count, such that every index [i] has [-len <= i] and
    [i + 1 < len] for the length [len] of the edges of its column,
    [compute_piecewise_linear_bin_values] returns a matrix of the shape of
    [X] whose entries are [(x - edges[i]) / (edges[i+1] - edges[i])] as the
    division of floating-point numbers gives it, where a negative index
    counts from the end: the exact quotient for a real [x] and two
    different edges, an infinity or NaN where the two edges are equal.
    Nothing is clamped: in the sample, a value under the first edge gives a
    negative fraction and a value over the last edge gives a fraction over
    1.  When every index has [i + 1 < len] and one of them has [i < -len],
    IndexError is raised. *)
Theorem compute_piecewise_linear_bin_values_fraction :
  (forall (dt : torch.dtype) (X : Matrix) (indices : ndarray Z) (bin_edges : list (list Q)),
     torch.is_floating_point (matrix_dtype X) = true ->
     is_index_dtype dt = true ->
     ndim X = 2%nat ->
     shape indices = shape X ->
     (0 < n_cols X)%nat ->
     length bin_edges = n_cols X ->
     (forall j, (j < n_cols X)%nat -> fits dt (Z.of_nat (length (nth j bin_edges [])))) ->
     (forall i j, (i < n_rows X)%nat -> (j < n_cols X)%nat ->
        fits dt (get2 0 indices i j) /\
        - Z.of_nat (length (nth j bin_edges [])) <= get2 0 indices i j /\
        get2 0 indices i j + 1 < Z.of_nat (length (nth j bin_edges []))) ->
     exists V,
       bin_values X (int_matrix dt indices) bin_edges = Ok V /\
       shape V = shape X /\
       forall i j, (i < n_rows X)%nat -> (j < n_cols X)%nat ->
         get2 (real 0) V i j
         = bin_value (nth j bin_edges []) (get2 (real 0) X i j) (get2 0 indices i j)) /\
  (forall (edges : list Q) (x : Q) (i : Z),
     ~ (edge_at edges (i + 1) - edge_at edges i == 0)%Q ->
     bin_value edges (real x) i
     = real ((x - edge_at edges i) / (edge_at edges (i + 1) - edge_at edges i))) /\
  (exists V v0 v1,
     bin_values (float_matrix torch.float32 Sample.X_beyond)
       (int_matrix torch.int64 Sample.first_bins) Sample.bin_edges = Ok V /\
     get2 (real 0) V 0 0 = real v0 /\ (v0 < 0)%Q /\
     get2 (real 0) V 0 1 = real v1 /\ (1 < v1)%Q) /\
  (forall (dt : torch.dtype) (X : Matrix) (indices : ndarray Z) (bin_edges : list (list Q)),
     torch.is_floating_point (matrix_dtype X) = true ->
     is_index_dtype dt = true ->
     ndim X = 2%nat ->
     shape indices = shape X ->
     length bin_edges = n_cols X ->
     (forall j, (j < n_cols X)%nat -> fits dt (Z.of_nat (length (nth j bin_edges [])))) ->
     (forall i j, (i < n_rows X)%nat -> (j < n_cols X)%nat ->
        fits dt (get2 0 indices i j) /\
        get2 0 indices i j + 1 < Z.of_nat (length (nth j bin_edges []))) ->
     (exists i j, (i < n_rows X)%nat /\ (j < n_cols X)%nat /\
        get2 0 indices i j < - Z.of_nat (length (nth j bin_edges []))) ->
     bin_values X (int_matrix dt indices) bin_edges = Raise IndexError).
Proof.
  split; [intros dt X indices bin_edges _; apply compute_piecewise_linear_bin_values_int |].
  split; [exact bin_value_real |].
  split; [| intros dt X indices bin_edges _; apply compute_piecewise_linear_bin_values_before].
  do 3 eexists. split; [reflexivity |].
  split; [reflexivity |]. split; [reflexivity |]. split; reflexivity.
Qed.

End BinValuesOfIndices.

Lemma compute_piecewise_linear_bin_values_fraction_witness :
  shape Sample.first_bins = shape Sample.X_beyond /\
  exists V,
    compute_piecewise_linear_bin_values Sample.no_index
      (float_matrix torch.float32 Sample.X_beyond)
      (int_matrix torch.int64 Sample.first_bins) Sample.bin_edges = Ok V /\
    shape V = shape Sample.X_beyond /\
    forall i j, (i < n_rows Sample.X_beyond)%nat -> (j < n_cols Sample.X_beyond)%nat ->
      get2 (real 0) V i j
      = bin_value (nth j Sample.bin_edges [])
          (get2 (real 0) (float_matrix torch.float32 Sample.X_beyond) i j)
          (get2 0 Sample.first_bins i j).
Proof.
  split; [reflexivity |].
  apply (proj1 (compute_piecewise_linear_bin_values_fraction Sample.no_index)
           torch.int64 (float_matrix torch.float32 Sample.X_beyond)).
  - reflexivity.
  - reflexivity.
  - reflexivity.
  - reflexivity.
  - cbv. lia.
  - reflexivity.
  - intros [| [| j]] Hj; try (cbv in Hj; lia); vm_compute; (split; discriminate).
  - intros [| i] [| [| j]] Hi Hj; cbv in Hi, Hj; try lia;
      vm_compute; (split; [split; discriminate | split; [discriminate | reflexivity]]).
Defined.

(** * Bin edges *)

(** C6.  For every 2-D matrix whose columns have two distinct values or more
    each and every [n_bins] of 2 or more, [compute_quantile_bin_edges]
    returns one edge sequence for each column; the sequence is strictly
    increasing, has at least 2 and at most [n_bins + 1] edges, and holds
    the values, without repetition, of the quantiles of the column at the
    [effective_bins + 1] levels [k / effective_bins], from 0 to 1. *)
Theorem compute_quantile_bin_edges_spec (X : ndarray Q) (n_bins : Z) :
  ndim X = 2%nat ->
  2 <= n_bins ->
  (forall j, (j < n_cols X)%nat -> 2 <= n_distinct (column 0%Q X j)) ->
  exists ws edges,
    compute_quantile_bin_edges X n_bins = (ws, Ok edges) /\
    length edges = n_cols X /\
    forall j, (j < n_cols X)%nat ->
      let column := column 0%Q X j in
      let bins := effective_bins n_bins column in
      let levels := np_linspace 0 1 (bins + 1) in
      strictly_increasing (nth j edges []) /\
      2 <= Z.of_nat (length (nth j edges [])) <= n_bins + 1 /\
      Z.of_nat (length levels) = bins + 1 /\
      (forall k, (k < length levels)%nat ->
         (nth k levels 0 == inject_Z (Z.of_nat k) / inject_Z bins)%Q) /\
      (nth 0 levels 0 == 0)%Q /\
      (nth (Z.to_nat bins) levels 0 == 1)%Q /\
      (forall v, In v (nth j edges []) ->
         exists q, In q levels /\ v = np_quantile column q) /\
      (forall q, In q levels ->
         exists v, In v (nth j edges []) /\ (v == np_quantile column q)%Q).
Proof.
  intros Hdim Hn Hc.
  rewrite compute_quantile_bin_edges_Ok by assumption.
  do 2 eexists. split; [reflexivity |].
  split; [now rewrite length_map, length_columns |].
  intros j Hj column0 bins levels.
  rewrite (nth_map_lt _ _ _ []) by (rewrite length_columns; exact Hj).
  rewrite nth_columns by exact Hj. fold column0. fold bins.
  pose proof (effective_bins_bounds n_bins column0 Hn (Hc j Hj)) as Hb. fold bins in Hb.
  assert (Hlen : length levels = Z.to_nat (bins + 1)) by apply length_np_linspace.
  split; [apply np_unique_increasing |].
  split.
  { pose proof (quantile_edges_length column0 bins (Hc j Hj) ltac:(lia)). lia. }
  split; [lia |].
  split.
  { intros k Hk. unfold levels. rewrite nth_np_linspace by lia.
    now replace (bins + 1 - 1) with bins by lia. }
  split; [apply np_linspace_first; lia |].
  split.
  { replace bins with (bins + 1 - 1) at 1 by lia. apply np_linspace_last. lia. }
  split.
  - intros v Hv. unfold quantile_edges in Hv. apply np_unique_In in Hv.
    apply in_map_iff in Hv. destruct Hv as [q [<- Hq]]. now exists q.
  - intros q Hq. unfold quantile_edges. apply np_unique_Q_complete.
    now apply in_map.
Qed.

Lemma compute_quantile_bin_edges_spec_witness :
  2 <= n_distinct (column 0%Q Sample.X 0) /\
  2 <= n_distinct (column 0%Q Sample.X 1) /\
  exists ws edges,
    compute_quantile_bin_edges Sample.X 5 = (ws, Ok edges) /\
    length edges = n_cols Sample.X /\
    forall j, (j < n_cols Sample.X)%nat ->
      let column := column 0%Q Sample.X j in
      let bins := effective_bins 5 column in
      let levels := np_linspace 0 1 (bins + 1) in
      strictly_increasing (nth j edges []) /\
      2 <= Z.of_nat (length (nth j edges [])) <= 5 + 1 /\
      Z.of_nat (length levels) = bins + 1 /\
      (forall k, (k < length levels)%nat ->
         (nth k levels 0 == inject_Z (Z.of_nat k) / inject_Z bins)%Q) /\
      (nth 0 levels 0 == 0)%Q /\
      (nth (Z.to_nat bins) levels 0 == 1)%Q /\
      (forall v, In v (nth j edges []) ->
         exists q, In q levels /\ v = np_quantile column q) /\
      (forall q, In q levels ->
         exists v, In v (nth j edges []) /\ (v == np_quantile column q)%Q).
Proof.
  split; [vm_compute; discriminate |].
  split; [vm_compute; discriminate |].
  apply compute_quantile_bin_edges_spec.
  - reflexivity.
  - lia.
  - intros [| [| j]] Hj; [vm_compute; discriminate | vm_compute; discriminate |].
    cbv in Hj. lia.
Defined.

(** * Category sizes *)

Lemma covers_range_int8 : covers_range (column 0 Sample.categories_int8 0) 127.
Proof.
  change (column 0 Sample.categories_int8 0) with (map Z.of_nat (seq 0 128)).
  intros v. rewrite in_map_iff. split.
  - intros [k [<- Hk]]. apply in_seq in Hk. lia.
  - intros Hv. exists (Z.to_nat v). split; [lia | apply in_seq; lia].
Qed.

(** C9.  On a 2-D array of signed integers whose columns each hold exactly
    the integers from 0 to their maximum, [get_category_sizes] returns the
    number of distinct values of every column, as long as no column holds
    the greatest value of the integer type; on the array of its docstring
    it returns [3, 2, 1].  It raises when the minimum of a column is not 0
    and when the maximum plus one of a column is not the number of its
    distinct values, as for the values 0 and 2 and for a column that starts
    at 1.  It also raises for a column that holds exactly the integers
    from 0 to the greatest value of its type, as the 128 categories of a
    column of 8-bit integers: the maximum plus one wraps around. *)
Theorem get_category_sizes_spec :
  (forall X : int_array,
     ndim X = 2%nat ->
     np_kind X = np.signedinteger ->
     (forall j, (j < n_cols X)%nat ->
        exists M, 0 <= M /\ M < snd (np_int_range (np_itemsize X)) /\
                  covers_range (column 0 X j) M) ->
     get_category_sizes X
     = Ok (map (fun c => Z.of_nat (distinct_count c)) (columns 0 X))) /\
  get_category_sizes Sample.categories = Ok [3; 2; 1] /\
  (forall (X : int_array) j m,
     (j < n_cols X)%nat -> is_min (column 0 X j) m -> m <> 0 ->
     is_Ok (get_category_sizes X) = false) /\
  (forall (X : int_array) j M,
     (j < n_cols X)%nat -> is_max (column 0 X j) M ->
     M + 1 <> Z.of_nat (distinct_count (column 0 X j)) ->
     is_Ok (get_category_sizes X) = false) /\
  is_Ok (get_category_sizes Sample.categories_gap) = false /\
  is_Ok (get_category_sizes Sample.categories_from_one) = false /\
  (forall (X : int_array) j,
     (j < n_cols X)%nat ->
     covers_range (column 0 X j) (snd (np_int_range (np_itemsize X))) ->
     is_Ok (get_category_sizes X) = false) /\
  covers_range (column 0 Sample.categories_int8 0) 127 /\
  get_category_sizes Sample.categories_int8 = Raise (ValueError (msg_not_covered 0 127)).
Proof.
  split.
  { intros X Hdim Hkind Hc. unfold get_category_sizes.
    rewrite Hdim, Hkind. cbn [Nat.eqb negb].
    rewrite (mapM_Ok _ (fun ic => Z.of_nat (distinct_count (snd ic)))).
    - now rewrite (map_snd_enumerate (fun c => Z.of_nat (distinct_count c))).
    - intros ic Hic. apply In_enumerate_columns in Hic. destruct Hic as [Hj E].
      rewrite E. destruct (Hc _ Hj) as [M [HM [Hfit Hr]]].
      apply (category_size_range _ (fst ic) _ M HM Hfit Hr). }
  split; [reflexivity |].
  split.
  { intros X j m Hj Hmin Hm. apply (get_category_sizes_column_raises X j Hj).
    exact (category_size_min _ j _ m Hmin Hm). }
  split.
  { intros X j M Hj Hmax HM. destruct (np_kind X) eqn:Hk.
    - apply (get_category_sizes_column_raises X j Hj).
      apply (category_size_gap _ j _ M); [| exact Hmax | exact HM].
      apply (int_array_fits X j M Hk), Hmax.
    - unfold get_category_sizes. rewrite Hk. now destruct (negb (ndim X =? 2)%nat).
    - unfold get_category_sizes. rewrite Hk. now destruct (negb (ndim X =? 2)%nat).
    - unfold get_category_sizes. rewrite Hk. now destruct (negb (ndim X =? 2)%nat). }
  split; [reflexivity |]. split; [reflexivity |].
  split.
  { intros X j Hj Hr. apply (get_category_sizes_column_raises X j Hj).
    pose proof (np_int_range_sign (np_itemsize X)) as Hs.
    destruct (covers_range_min_max _ _ (proj2 Hs) Hr) as [Hmin Hmax].
    now rewrite (category_size_overflow _ j _ Hmin Hmax). }
  split; [exact covers_range_int8 |].
  vm_compute. reflexivity.
Qed.

Lemma get_category_sizes_spec_witness :
  np_kind Sample.categories = np.signedinteger /\
  get_category_sizes Sample.categories
  = Ok (map (fun c => Z.of_nat (distinct_count c)) (columns 0 Sample.categories)) /\
  is_min (column 0 Sample.categories_from_one 0) 1 /\
  is_Ok (get_category_sizes Sample.categories_from_one) = false /\
  is_max (column 0 Sample.categories_gap 0) 2 /\
  is_Ok (get_category_sizes Sample.categories_gap) = false /\
  is_Ok (get_category_sizes Sample.categories_int8) = false.
Proof.
  destruct get_category_sizes_spec as [Hok [_ [Hmin [Hmax [_ [_ [Hover [Hcov _]]]]]]]].
  assert (H1 : is_min (column 0 Sample.categories_from_one 0) 1).
  { change (column 0 Sample.categories_from_one 0) with [1; 2].
    split; [simpl; auto | intros v Hv; simpl in Hv; lia]. }
  assert (H2 : is_max (column 0 Sample.categories_gap 0) 2).
  { change (column 0 Sample.categories_gap 0) with [0; 2].
    split; [simpl; auto | intros v Hv; simpl in Hv; lia]. }
  split; [reflexivity |].
  split.
  { apply Hok; [reflexivity | reflexivity |].
    intros [| [| [| j]]] Hj.
    - exists 2. split; [lia |]. split; [reflexivity |]. intros v.
      change (column 0 Sample.categories 0) with [0; 1; 2]. simpl. lia.
    - exists 1. split; [lia |]. split; [reflexivity |]. intros v.
      change (column 0 Sample.categories 1) with [0; 0; 1]. simpl. lia.
    - exists 0. split; [lia |]. split; [reflexivity |]. intros v.
      change (column 0 Sample.categories 2) with [0; 0; 0]. simpl. lia.
    - cbv in Hj. lia. }
  split; [exact H1 |].
  split; [apply (Hmin _ 0%nat 1); [cbv; lia | exact H1 | lia] |].
  split; [exact H2 |].
  split; [apply (Hmax _ 0%nat 2); [cbv; lia | exact H2 | vm_compute; discriminate] |].
  apply (Hover _ 0%nat); [cbv; lia | exact Hcov].
Defined.

(** * Bin edges from a tree, and what makes the bin edges fail *)

Lemma all_equal_n_distinct (column : list Q) :
  (forall x y, In x column -> In y column -> (x == y)%Q) -> n_distinct column < 2.
Proof.
  intros H. destruct (Z_lt_le_dec (n_distinct column) 2) as [Hlt | Hge]; [exact Hlt |].
  destruct (n_distinct_two column Hge) as [x [y [Hx [Hy Hxy]]]].
  rewrite (H x y Hx Hy) in Hxy. now apply Qlt_irrefl in Hxy.
Qed.

Section BinEdges.

Variable target : Type.
Variable len : target -> nat.
Variable Any : Type.
Variable fit : bool -> Z -> list (string * Any) -> list Q -> target -> Tree.

Lemma compute_decision_tree_bin_edges_inv (X : ndarray Q) (n_bins : Z) (y : target)
    (regression : bool) (tree_kwargs : list (string * Any)) ws edges :
  compute_decision_tree_bin_edges target len Any fit X n_bins y regression tree_kwargs
  = (ws, Ok edges) ->
  ndim X = 2%nat /\ n_rows X = len y /\
  existsb (fun kv => String.eqb (fst kv) "max_leaf_nodes") tree_kwargs = false /\
  2 <= n_bins /\
  forall j, (j < n_cols X)%nat -> 2 <= n_distinct (column 0%Q X j).
Proof.
  intros E.
  assert (Hok : is_Ok (snd (compute_decision_tree_bin_edges target len Any fit X n_bins y
                              regression tree_kwargs)) = true) by now rewrite E.
  assert (Hn : 2 <= n_bins).
  { destruct (Z_lt_le_dec n_bins 2) as [Hlt | Hge]; [| exact Hge].
    rewrite (compute_decision_tree_bin_edges_n_bins target len Any fit X n_bins y
               regression tree_kwargs Hlt) in Hok. discriminate. }
  assert (Hc : forall j, (j < n_cols X)%nat -> 2 <= n_distinct (column 0%Q X j)).
  { intros j Hj. destruct (Z_lt_le_dec (n_distinct (column 0%Q X j)) 2) as [Hlt | Hge];
      [| exact Hge].
    rewrite (compute_decision_tree_bin_edges_constant target len Any fit X n_bins y
               regression tree_kwargs j Hj Hlt) in Hok. discriminate. }
  unfold compute_decision_tree_bin_edges in E.
  destruct (Nat.eqb_spec (ndim X) 2) as [Hdim | Hdim]; [| discriminate].
  destruct (Nat.eqb_spec (n_rows X) (len y)) as [Hrows | Hrows]; [| discriminate].
  destruct (existsb _ tree_kwargs) eqn:Hkw; [discriminate |].
  repeat split; assumption.
Qed.

(** C7.  Whenever [compute_decision_tree_bin_edges] returns, which it does
    on a 2-D matrix with as many rows as targets, without [max_leaf_nodes]
    among the options, with [n_bins] of 2 or more and two distinct values
    or more in every column, the edges of every column are, in strictly
    increasing order and without repetition, the minimum of the column, its
    maximum and the thresholds of the nodes of the fitted tree whose two
    children differ, and nothing else: the threshold of a node with two
    equal children is not taken. *)
Theorem compute_decision_tree_bin_edges_spec (X : ndarray Q) (n_bins : Z) (y : target)
    (regression : bool) (tree_kwargs : list (string * Any)) :
  (ndim X = 2%nat ->
   n_rows X = len y ->
   existsb (fun kv => String.eqb (fst kv) "max_leaf_nodes") tree_kwargs = false ->
   2 <= n_bins ->
   (forall j, (j < n_cols X)%nat -> 2 <= n_distinct (column 0%Q X j)) ->
   exists ws edges,
     compute_decision_tree_bin_edges target len Any fit X n_bins y regression tree_kwargs
     = (ws, Ok edges)) /\
  (forall ws edges,
     compute_decision_tree_bin_edges target len Any fit X n_bins y regression tree_kwargs
     = (ws, Ok edges) ->
     length edges = n_cols X /\
     forall j, (j < n_cols X)%nat ->
       tree_edges_of
         (fit regression (effective_bins n_bins (column 0%Q X j)) tree_kwargs
              (column 0%Q X j) y)
         (column 0%Q X j) (nth j edges [])).
Proof.
  split.
  - intros Hdim Hrows Hkw Hn Hc.
    destruct (compute_decision_tree_bin_edges_Ok target len Any fit X n_bins y regression
                tree_kwargs Hdim Hrows Hkw Hn Hc) as [edges [E _]].
    now exists (bin_warnings n_bins (enumerate (columns 0%Q X))), edges.
  - intros ws edges E.
    destruct (compute_decision_tree_bin_edges_inv X n_bins y regression tree_kwargs ws edges E)
      as [Hdim [Hrows [Hkw [Hn Hc]]]].
    destruct (compute_decision_tree_bin_edges_Ok target len Any fit X n_bins y regression
                tree_kwargs Hdim Hrows Hkw Hn Hc) as [edges' [E' [Hlen Hspec]]].
    rewrite E in E'. injection E' as _ <-. split; assumption.
Qed.

(** C8.  Both computations of bin edges raise when [n_bins] is under 2, and
    when a column has fewer than two distinct values (all its values are
    equal).  When nothing else is wrong, a column with at least two
    distinct values but fewer than [n_bins] does not make them fail: both
    return their edges, with a warning for that column, and the column is
    given as many bins as it has distinct values, which is the count that
    sets its quantile levels and the [max_leaf_nodes] of its tree. *)
Theorem bin_edges_failures_and_warning (X : ndarray Q) (n_bins : Z) (y : target)
    (regression : bool) (tree_kwargs : list (string * Any)) :
  (n_bins < 2 ->
   is_Ok (snd (compute_quantile_bin_edges X n_bins)) = false /\
   is_Ok (snd (compute_decision_tree_bin_edges target len Any fit X n_bins y regression
                 tree_kwargs)) = false) /\
  (forall j, (j < n_cols X)%nat ->
     n_distinct (column 0%Q X j) < 2 \/
     (forall u v, In u (column 0%Q X j) -> In v (column 0%Q X j) -> (u == v)%Q) ->
     is_Ok (snd (compute_quantile_bin_edges X n_bins)) = false /\
     is_Ok (snd (compute_decision_tree_bin_edges target len Any fit X n_bins y regression
                   tree_kwargs)) = false) /\
  (ndim X = 2%nat ->
   n_rows X = len y ->
   existsb (fun kv => String.eqb (fst kv) "max_leaf_nodes") tree_kwargs = false ->
   2 <= n_bins ->
   (forall j, (j < n_cols X)%nat -> 2 <= n_distinct (column 0%Q X j)) ->
   exists ws q_edges t_edges,
     compute_quantile_bin_edges X n_bins = (ws, Ok q_edges) /\
     compute_decision_tree_bin_edges target len Any fit X n_bins y regression tree_kwargs
     = (ws, Ok t_edges) /\
     forall j, (j < n_cols X)%nat -> n_distinct (column 0%Q X j) < n_bins ->
       In (msg_fewer_bins j) ws /\
       effective_bins n_bins (column 0%Q X j) = n_distinct (column 0%Q X j) /\
       nth j q_edges [] = quantile_edges (column 0%Q X j) (n_distinct (column 0%Q X j)) /\
       tree_edges_of
         (fit regression (n_distinct (column 0%Q X j)) tree_kwargs (column 0%Q X j) y)
         (column 0%Q X j) (nth j t_edges [])).
Proof.
  split; [| split].
  - intros Hn. split.
    + now apply compute_quantile_bin_edges_n_bins.
    + now apply compute_decision_tree_bin_edges_n_bins.
  - intros j Hj Hc.
    assert (Hlt : n_distinct (column 0%Q X j) < 2)
      by (destruct Hc as [Hc | Hc]; [exact Hc | now apply all_equal_n_distinct]).
    split.
    + now apply (compute_quantile_bin_edges_constant X n_bins j).
    + now apply (compute_decision_tree_bin_edges_constant target len Any fit X n_bins y
                   regression tree_kwargs j).
  - intros Hdim Hrows Hkw Hn Hc.
    destruct (compute_decision_tree_bin_edges_Ok target len Any fit X n_bins y regression
                tree_kwargs Hdim Hrows Hkw Hn Hc) as [t_edges [Et [_ Hspec]]].
    exists (bin_warnings n_bins (enumerate (columns 0%Q X))).
    exists (map (fun c => quantile_edges c (effective_bins n_bins c)) (columns 0%Q X)).
    exists t_edges.
    split; [now apply compute_quantile_bin_edges_Ok |]. split; [exact Et |].
    intros j Hj Hlt.
    assert (Heff : effective_bins n_bins (column 0%Q X j) = n_distinct (column 0%Q X j))
      by (unfold effective_bins; lia).
    split; [now apply In_bin_warnings |]. split; [exact Heff |]. split.
    + rewrite (nth_map_lt _ _ _ []) by (rewrite length_columns; exact Hj).
      rewrite nth_columns by exact Hj. now rewrite Heff.
    + rewrite <- Heff. now apply Hspec.
Qed.

End BinEdges.

Lemma compute_decision_tree_bin_edges_spec_witness :
  n_rows Sample.X = length Sample.y /\
  exists ws edges,
    compute_decision_tree_bin_edges (list Q) (@length Q) unit Sample.stump
      Sample.X 5 Sample.y true [] = (ws, Ok edges) /\
    length edges = n_cols Sample.X /\
    forall j, (j < n_cols Sample.X)%nat ->
      tree_edges_of
        (Sample.stump true (effective_bins 5 (column 0%Q Sample.X j)) []
           (column 0%Q Sample.X j) Sample.y)
        (column 0%Q Sample.X j) (nth j edges []).
Proof.
  split; [reflexivity |].
  destruct (compute_decision_tree_bin_edges_spec (list Q) (@length Q) unit Sample.stump
              Sample.X 5 Sample.y true []) as [Hreturns Hedges].
  destruct Hreturns as [ws [edges E]].
  - reflexivity.
  - reflexivity.
  - reflexivity.
  - lia.
  - intros [| [| j]] Hj; [vm_compute; discriminate | vm_compute; discriminate |].
    cbv in Hj. lia.
  - exists ws, edges. split; [exact E |]. exact (Hedges ws edges E).
Defined.

Lemma bin_edges_failures_and_warning_witness :
  (is_Ok (snd (compute_quantile_bin_edges Sample.X 1)) = false /\
   is_Ok (snd (compute_decision_tree_bin_edges (list Q) (@length Q) unit Sample.stump
                 Sample.X 1 Sample.y true [])) = false) /\
  n_distinct (column 0%Q Sample.X 1) < 5 /\
  exists ws q_edges t_edges,
    compute_quantile_bin_edges Sample.X 5 = (ws, Ok q_edges) /\
    compute_decision_tree_bin_edges (list Q) (@length Q) unit Sample.stump
      Sample.X 5 Sample.y true [] = (ws, Ok t_edges) /\
    forall j, (j < n_cols Sample.X)%nat -> n_distinct (column 0%Q Sample.X j) < 5 ->
      In (msg_fewer_bins j) ws /\
      effective_bins 5 (column 0%Q Sample.X j) = n_distinct (column 0%Q Sample.X j) /\
      nth j q_edges []
      = quantile_edges (column 0%Q Sample.X j) (n_distinct (column 0%Q Sample.X j)) /\
      tree_edges_of
        (Sample.stump true (n_distinct (column 0%Q Sample.X j)) []
           (column 0%Q Sample.X j) Sample.y)
        (column 0%Q Sample.X j) (nth j t_edges []).
Proof.
  split.
  { apply (proj1 (bin_edges_failures_and_warning (list Q) (@length Q) unit Sample.stump
                    Sample.X 1 Sample.y true [])). lia. }
  split; [vm_compute; reflexivity |].
  apply (proj2 (proj2 (bin_edges_failures_and_warning (list Q) (@length Q) unit Sample.stump
                         Sample.X 5 Sample.y true []))).
  - reflexivity.
  - reflexivity.
  - reflexivity.
  - lia.
  - intros [| [| j]] Hj; [vm_compute; discriminate | vm_compute; discriminate |].
    cbv in Hj. lia.
Defined.

(** * Further properties of the binning functions *)

(** ** Bin indices: order and the two outer edges *)

Lemma compute_bin_indices_checks (X : Matrix) (bin_edges : list (list Q)) (R : ndarray Z) :
  compute_bin_indices X bin_edges = Ok R ->
  torch.is_floating_point (matrix_dtype X) = true /\ ndim X = 2%nat /\
  length bin_edges = n_cols X /\ (0 < n_cols X)%nat.
Proof.
  intros E.
  assert (H : ndim X = 2%nat /\ length bin_edges = n_cols X).
  { unfold compute_bin_indices in E.
    destruct (Nat.eqb_spec (ndim X) 2) as [Hd | Hd]; [| discriminate].
    destruct (Nat.eqb_spec (n_cols X) (length bin_edges)) as [Hc | Hc]; [| discriminate].
    split; congruence. }
  destruct H as [Hdim Hlen].
  assert (Hdt : torch.is_floating_point (matrix_dtype X) = true).
  { destruct (torch.is_floating_point (matrix_dtype X)) eqn:Hdt; [reflexivity |].
    rewrite (compute_bin_indices_dtype X bin_edges Hdt Hdim Hlen) in E. discriminate E. }
  repeat split; try assumption.
  destruct (Nat.eq_dec (n_cols X) 0) as [H0 | H0]; [exfalso | lia].
  unfold compute_bin_indices in E. rewrite Hdim, Hlen, !Nat.eqb_refl in E.
  cbn [negb] in E.
  destruct (floating_infinities _ Hdt) as [E1 [E2 _]].
  rewrite E1 in E. cbn [bind] in E. rewrite E2 in E. cbn [bind] in E.
  unfold columns in E. rewrite H0 in E. discriminate E.
Qed.

(** Within a column, a greater value never gets a smaller bin index,
    whatever the edges are, sorted or not. *)
Theorem compute_bin_indices_monotone (X : Matrix) (bin_edges : list (list Q))
    (R : ndarray Z) (i i' j : nat) :
  compute_bin_indices X bin_edges = Ok R ->
  (i < n_rows X)%nat -> (i' < n_rows X)%nat -> (j < n_cols X)%nat ->
  float_leb (get2 (real 0) X i j) (get2 (real 0) X i' j) = true ->
  get2 0 R i j <= get2 0 R i' j.
Proof.
  intros E Hi Hi' Hj Hle.
  destruct (compute_bin_indices_checks X bin_edges R E) as [Hdt [Hdim [Hlen Hpos]]].
  destruct (compute_bin_indices_entries X bin_edges Hdt Hdim Hpos Hlen) as [R' [E' [_ Hget]]].
  rewrite E in E'. injection E' as <-.
  rewrite (Hget i j Hi Hj), (Hget i' j Hi' Hj).
  apply Z.sub_le_mono_r, torch_bucketize_right_monotone. exact Hle.
Qed.

Lemma compute_bin_indices_monotone_witness :
  exists R,
    compute_bin_indices (float_matrix torch.float32 Sample.X)
      [[0; 5; 1; 3; 9]%Q; [10; 20]%Q] = Ok R /\
    float_leb (get2 (real 0) (float_matrix torch.float32 Sample.X) 0 0)
              (get2 (real 0) (float_matrix torch.float32 Sample.X) 2 0) = true /\
    get2 0 R 0 0 <= get2 0 R 2 0.
Proof.
  eexists. split; [reflexivity |].
  split; [reflexivity |].
  apply (compute_bin_indices_monotone (float_matrix torch.float32 Sample.X)
           [[0; 5; 1; 3; 9]%Q; [10; 20]%Q] _ 0 2 0).
  - reflexivity.
  - cbv. lia.
  - cbv. lia.
  - cbv. lia.
  - reflexivity.
Defined.

Lemma bin_indices_list_ext (dt : torch.dtype) (neg_inf inf : scalar)
    (cols : list (list float_value)) (bin_edges bin_edges' : list (list Q)) :
  Forall2 (fun e e' => slice_1_m1 e = slice_1_m1 e') bin_edges bin_edges' ->
  mapM (fun ce : list float_value * list Q =>
          buckets <- torch_bucketize dt (fst ce) (bin_boundaries neg_inf inf (snd ce)) ;;
          Ok (map (fun k => k - 1) buckets))
       (combine cols bin_edges)
  = mapM (fun ce : list float_value * list Q =>
            buckets <- torch_bucketize dt (fst ce) (bin_boundaries neg_inf inf (snd ce)) ;;
            Ok (map (fun k => k - 1) buckets))
         (combine cols bin_edges').
Proof.
  intros H. revert cols.
  induction H as [| e e' l l' He Hl IH]; intros [| c cols]; cbn [mapM combine fst snd];
    try reflexivity.
  rewrite IH. unfold bin_boundaries. rewrite He. reflexivity.
Qed.

(** The first and the last edge of a column are never read: two lists of
    edges that agree on the edges between them give the same bin
    indices, and the same refusals. *)
Theorem compute_bin_indices_outer_edges (X : Matrix) (bin_edges bin_edges' : list (list Q)) :
  Forall2 (fun e e' => slice_1_m1 e = slice_1_m1 e') bin_edges bin_edges' ->
  compute_bin_indices X bin_edges = compute_bin_indices X bin_edges'.
Proof.
  intros H. unfold compute_bin_indices. rewrite (Forall2_length H).
  destruct (negb (ndim X =? 2)%nat); [reflexivity |].
  destruct (negb (n_cols X =? length bin_edges')%nat); [reflexivity |].
  destruct (torch_tensor (PyFloat PosInf) (matrix_dtype X)) as [inf | e]; [| reflexivity].
  cbn [bind]. destruct (torch_neg (matrix_dtype X) inf) as [neg_inf | e]; [| reflexivity].
  cbn [bind]. now rewrite (bin_indices_list_ext _ _ _ _ _ _ H).
Qed.

Lemma compute_bin_indices_outer_edges_witness :
  compute_bin_indices (float_matrix torch.float32 Sample.X) Sample.bin_edges
  = compute_bin_indices (float_matrix torch.float32 Sample.X) [[-7; 2; 100]%Q; [0; 1]%Q].
Proof.
  apply compute_bin_indices_outer_edges.
  repeat constructor.
Defined.

(** ** From bin indices to bin values *)

Lemma edge_at_nonneg (edges : list Q) (k : Z) :
  0 <= k -> edge_at edges k = nth (Z.to_nat k) edges 0%Q.
Proof.
  intros Hk. unfold edge_at. destruct (Z.ltb_spec k 0); [lia | reflexivity].
Qed.

Lemma bin_edges_gap (edges : list Q) (k : Z) :
  strictly_increasing edges ->
  0 <= k <= Z.of_nat (length edges) - 2 ->
  (edge_at edges k < edge_at edges (k + 1))%Q.
Proof.
  intros Hinc Hk. rewrite !edge_at_nonneg by lia. apply Hinc. lia.
Qed.

Lemma bin_fraction_sign (edges : list Q) (x : Q) (k : Z) :
  strictly_increasing edges ->
  0 <= k <= Z.of_nat (length edges) - 2 ->
  ((edge_at edges k <= x)%Q -> (0 <= bin_fraction edges x k)%Q) /\
  ((x <= edge_at edges k)%Q -> (bin_fraction edges x k <= 0)%Q) /\
  ((x <= edge_at edges (k + 1))%Q -> (bin_fraction edges x k <= 1)%Q) /\
  ((edge_at edges (k + 1) <= x)%Q -> (1 <= bin_fraction edges x k)%Q).
Proof.
  intros Hinc Hk. pose proof (bin_edges_gap edges k Hinc Hk) as Hgap.
  assert (Hpos : (0 < edge_at edges (k + 1) - edge_at edges k)%Q)
    by (rewrite <- (Qplus_opp_r (edge_at edges k)); apply Qplus_lt_l; exact Hgap).
  unfold bin_fraction. repeat split; intros H.
  - apply Qle_shift_div_l; [exact Hpos |]. rewrite Qmult_0_l.
    rewrite <- (Qplus_opp_r (edge_at edges k)). now apply Qplus_le_l.
  - apply Qle_shift_div_r; [exact Hpos |]. rewrite Qmult_0_l.
    rewrite <- (Qplus_opp_r (edge_at edges k)). now apply Qplus_le_l.
  - apply Qle_shift_div_r; [exact Hpos |]. rewrite Qmult_1_l. now apply Qplus_le_l.
  - apply Qle_shift_div_l; [exact Hpos |]. rewrite Qmult_1_l. now apply Qplus_le_l.
Qed.

Lemma bin_edges_differ (edges : list Q) (k : Z) :
  strictly_increasing edges ->
  0 <= k <= Z.of_nat (length edges) - 2 ->
  ~ (edge_at edges (k + 1) - edge_at edges k == 0)%Q.
Proof.
  intros Hinc Hk H. pose proof (bin_edges_gap edges k Hinc Hk) as Hgap.
  apply (Qlt_irrefl (edge_at edges k)).
  setoid_replace (edge_at edges k) with (edge_at edges (k + 1)) at 2; [exact Hgap |].
  rewrite <- (Qplus_0_l (edge_at edges k)), <- H. ring.
Qed.

Section IndicesThenValues.

Variable other_index_dtype : Matrix -> Matrix -> list (list Q) -> result (ndarray float_value).

Local Abbreviation bin_values := (compute_piecewise_linear_bin_values other_index_dtype).

(** The two functions in a row: the indices that [compute_bin_indices]
    returns, a tensor of 64-bit integers, are indices that
    [compute_piecewise_linear_bin_values] takes. *)
Lemma bin_indices_then_values (dt : torch.dtype) (X : ndarray Q)
    (bin_edges : list (list Q)) :
  torch.is_floating_point dt = true ->
  ndim X = 2%nat ->
  (0 < n_cols X)%nat ->
  length bin_edges = n_cols X ->
  (forall j, (j < n_cols X)%nat ->
     (2 <= length (nth j bin_edges []))%nat /\
     fits torch.int64 (Z.of_nat (length (nth j bin_edges [])))) ->
  exists I V,
    compute_bin_indices (float_matrix dt X) bin_edges = Ok I /\
    bin_values (float_matrix dt X) (int_matrix torch.int64 I) bin_edges = Ok V /\
    shape I = shape X /\ shape V = shape X /\
    forall i j, (i < n_rows X)%nat -> (j < n_cols X)%nat ->
      in_bin (nth j bin_edges []) (get2 0%Q X i j) (get2 0 I i j) /\
      get2 (real 0) V i j
      = bin_value (nth j bin_edges []) (real (get2 0%Q X i j)) (get2 0 I i j).
Proof.
  intros Hdt Hdim Hpos Hlen Hedges.
  destruct (compute_bin_indices_entries (float_matrix dt X) bin_edges Hdt Hdim Hpos Hlen)
    as [I [EI [HshI HgetI]]].
  assert (Hin : forall i j, (i < n_rows X)%nat -> (j < n_cols X)%nat ->
            in_bin (nth j bin_edges []) (get2 0%Q X i j) (get2 0 I i j)).
  { intros i j Hi Hj. rewrite (HgetI i j Hi Hj), get2_float_matrix.
    now apply bin_index_in_bin, Hedges. }
  destruct (compute_piecewise_linear_bin_values_int other_index_dtype torch.int64
              (float_matrix dt X) I bin_edges eq_refl Hdim HshI Hpos Hlen)
    as [V [EV [HshV HgetV]]].
  { intros j Hj. now apply Hedges. }
  { intros i j Hi Hj. destruct (Hin i j Hi Hj) as [Hr _].
    destruct (Hedges j Hj) as [_ Hf].
    unfold fits in *. cbn [torch.int_range] in *. lia. }
  exists I, V. do 4 (split; [assumption |]).
  intros i j Hi Hj. split; [now apply Hin |].
  rewrite (HgetV i j Hi Hj), get2_float_matrix. reflexivity.
Qed.

(** For strictly increasing edges, the bin values computed from the
    indices of [compute_bin_indices] are finite; they are at least 0 for
    the values from the first edge on, and at most 1 for the values up to
    the last edge; only in the first bin can a bin value be under 0, and
    only in the last bin can it be over 1. *)
Theorem bin_values_range (dt : torch.dtype) (X : ndarray Q) (bin_edges : list (list Q)) :
  torch.is_floating_point dt = true ->
  ndim X = 2%nat ->
  (0 < n_cols X)%nat ->
  length bin_edges = n_cols X ->
  (forall j, (j < n_cols X)%nat ->
     strictly_increasing (nth j bin_edges []) /\
     (2 <= length (nth j bin_edges []))%nat /\
     fits torch.int64 (Z.of_nat (length (nth j bin_edges [])))) ->
  exists I V,
    compute_bin_indices (float_matrix dt X) bin_edges = Ok I /\
    bin_values (float_matrix dt X) (int_matrix torch.int64 I) bin_edges = Ok V /\
    forall i j, (i < n_rows X)%nat -> (j < n_cols X)%nat ->
      let edges := nth j bin_edges [] in
      let x := get2 0%Q X i j in
      let k := get2 0 I i j in
      exists v : Q,
        get2 (real 0) V i j = real v /\
        ((nth 0 edges 0 <= x)%Q -> (0 <= v)%Q) /\
        ((x <= nth (length edges - 1) edges 0)%Q -> (v <= 1)%Q) /\
        (0 < k -> (0 <= v)%Q) /\
        (k < Z.of_nat (length edges) - 2 -> (v <= 1)%Q) /\
        ((x < nth 0 edges 0)%Q -> k = 0 /\ (v <= 0)%Q) /\
        ((nth (length edges - 1) edges 0 < x)%Q ->
           k = Z.of_nat (length edges) - 2 /\ (1 <= v)%Q).
Proof.
  intros Hdt Hdim Hpos Hlen Hedges.
  destruct (bin_indices_then_values dt X bin_edges Hdt Hdim Hpos Hlen)
    as [I [V [EI [EV [_ [_ H]]]]]].
  { intros j Hj. split; now apply Hedges. }
  exists I, V. do 2 (split; [assumption |]).
  intros i j Hi Hj edges x k. destruct (H i j Hi Hj) as [[Hk [Hlo Hhi]] Hv].
  fold edges x k in Hk, Hlo, Hhi, Hv.
  destruct (Hedges j Hj) as [Hinc [HL _]]. fold edges in Hinc, HL.
  exists (bin_fraction edges x k).
  split; [rewrite Hv; apply bin_value_real, bin_edges_differ; assumption |].
  destruct (bin_fraction_sign edges x k Hinc Hk) as [S1 [S2 [S3 S4]]].
  rewrite !edge_at_nonneg in S1, S2, S3, S4 by lia.
  assert (Hfirst : (nth 0 edges 0 <= nth (Z.to_nat k) edges 0)%Q)
    by (apply strictly_increasing_le; [exact Hinc | lia]).
  assert (Hlast : (nth (Z.to_nat (k + 1)) edges 0 <= nth (length edges - 1) edges 0)%Q)
    by (apply strictly_increasing_le; [exact Hinc | lia]).
  split.
  { intros Hx. apply S1. destruct Hlo as [-> | Hlo]; [exact Hx | exact Hlo]. }
  split.
  { intros Hx. apply S3. destruct Hhi as [E | Hhi]; [| now apply Qlt_le_weak].
    replace (Z.to_nat (k + 1)) with (length edges - 1)%nat by lia. exact Hx. }
  split.
  { intros Hk0. apply S1. destruct Hlo as [E | Hlo]; [lia | exact Hlo]. }
  split.
  { intros Hk1. apply S3. destruct Hhi as [E | Hhi]; [lia | now apply Qlt_le_weak]. }
  split.
  { intros Hx.
    assert (Hk0 : k = 0).
    { destruct Hlo as [E | Hlo]; [exact E | exfalso].
      apply (Qlt_irrefl x). eapply Qlt_le_trans; [exact Hx |].
      eapply Qle_trans; [exact Hfirst | exact Hlo]. }
    split; [exact Hk0 |]. apply S2. rewrite Hk0. now apply Qlt_le_weak. }
  intros Hx.
  assert (Hk1 : k = Z.of_nat (length edges) - 2).
  { destruct Hhi as [E | Hhi]; [exact E | exfalso].
    apply (Qlt_irrefl x). eapply Qlt_le_trans; [exact Hhi |].
    eapply Qle_trans; [exact Hlast |]. now apply Qlt_le_weak. }
  split; [exact Hk1 |]. apply S4.
  replace (Z.to_nat (k + 1)) with (length edges - 1)%nat by lia. now apply Qlt_le_weak.
Qed.

End IndicesThenValues.

Lemma bin_values_range_witness :
  exists I V,
    compute_bin_indices (float_matrix torch.float32 Sample.X_beyond) Sample.bin_edges = Ok I /\
    compute_piecewise_linear_bin_values Sample.no_index
      (float_matrix torch.float32 Sample.X_beyond) (int_matrix torch.int64 I)
      Sample.bin_edges = Ok V /\
    forall i j, (i < n_rows Sample.X_beyond)%nat -> (j < n_cols Sample.X_beyond)%nat ->
      let edges := nth j Sample.bin_edges [] in
      let x := get2 0%Q Sample.X_beyond i j in
      let k := get2 0 I i j in
      exists v : Q,
        get2 (real 0) V i j = real v /\
        ((nth 0 edges 0 <= x)%Q -> (0 <= v)%Q) /\
        ((x <= nth (length edges - 1) edges 0)%Q -> (v <= 1)%Q) /\
        (0 < k -> (0 <= v)%Q) /\
        (k < Z.of_nat (length edges) - 2 -> (v <= 1)%Q) /\
        ((x < nth 0 edges 0)%Q -> k = 0 /\ (v <= 0)%Q) /\
        ((nth (length edges - 1) edges 0 < x)%Q ->
           k = Z.of_nat (length edges) - 2 /\ (1 <= v)%Q).
Proof.
  apply (bin_values_range Sample.no_index torch.float32).
  - reflexivity.
  - reflexivity.
  - cbv. lia.
  - reflexivity.
  - intros [| [| j]] Hj.
    + split; [apply increasingb_sound; reflexivity |].
      split; [cbv; lia | vm_compute; split; discriminate].
    + split; [apply increasingb_sound; reflexivity |].
      split; [cbv; lia | vm_compute; split; discriminate].
    + cbv in Hj. lia.
Defined.

(** ** From bin values to the piecewise-linear encoding *)

Lemma length_flat_map_rows {A : Type} (g : nat -> list A) (f : nat) :
  (forall i, length (g i) = f) ->
  forall n a, length (flat_map g (seq a n)) = (n * f)%nat.
Proof.
  intros Hg. induction n as [| n IH]; intros a; simpl; [reflexivity |].
  now rewrite length_app, Hg, IH.
Qed.

Lemma torch_stack1_size {A : Type} (d : A) (cols : list (list A)) (R : ndarray A) :
  torch_stack1 d cols = Ok R -> length (data R) = (n_rows R * n_cols R)%nat.
Proof.
  destruct cols as [| c cols]; simpl; intros E; [discriminate |].
  injection E as <-. unfold stack1, n_rows, n_cols. cbn [shape data nth].
  apply length_flat_map_rows. intros i. now rewrite length_map.
Qed.

Lemma compute_bin_indices_size (X : Matrix) (bin_edges : list (list Q)) (R : ndarray Z) :
  compute_bin_indices X bin_edges = Ok R -> length (data R) = (n_rows R * n_cols R)%nat.
Proof.
  unfold compute_bin_indices.
  destruct (negb (ndim X =? 2)%nat); [discriminate |].
  destruct (negb (n_cols X =? length bin_edges)%nat); [discriminate |].
  destruct (torch_tensor _ _) as [inf | e]; cbn [bind]; [| discriminate].
  destruct (torch_neg _ _) as [neg_inf | e]; cbn [bind]; [| discriminate].
  destruct (mapM _ _) as [bin_indices_list | e]; cbn [bind]; [| discriminate].
  apply torch_stack1_size.
Qed.

(** The pairs of the elements of two arrays of one shape, taken in
    row-major order, are the pairs of their entries. *)
Lemma In_combine_data {A B : Type} (a : A) (b : B) (U : ndarray A) (W : ndarray B)
    (u : A) (w : B) :
  shape W = shape U ->
  length (data U) = (n_rows U * n_cols U)%nat ->
  length (data W) = (n_rows W * n_cols W)%nat ->
  In (u, w) (combine (data U) (data W)) ->
  exists i j, (i < n_rows U)%nat /\ (j < n_cols U)%nat /\
    u = get2 a U i j /\ w = get2 b W i j.
Proof.
  intros Hsh HU HW Hin.
  assert (Hr : n_rows W = n_rows U) by (unfold n_rows; now rewrite Hsh).
  assert (Hc : n_cols W = n_cols U) by (unfold n_cols; now rewrite Hsh).
  rewrite Hr, Hc in HW.
  destruct (In_nth _ _ (a, b) Hin) as [k [Hk E]].
  rewrite length_combine, HU, HW, Nat.min_id in Hk.
  rewrite combine_nth in E by congruence. injection E as <- <-.
  assert (Hf : n_cols U <> 0%nat) by (intros H0; rewrite H0 in Hk; lia).
  exists (k / n_cols U)%nat, (k mod n_cols U)%nat.
  split; [apply Nat.Div0.div_lt_upper_bound; lia |].
  split; [now apply Nat.mod_upper_bound |].
  unfold get2. rewrite Hc.
  replace (k / n_cols U * n_cols U + k mod n_cols U)%nat with k
    by (rewrite (Nat.div_mod_eq k (n_cols U)) at 1; lia).
  split; reflexivity.
Qed.

Lemma In_data_get2 {A : Type} (a : A) (U : ndarray A) (u : A) :
  length (data U) = (n_rows U * n_cols U)%nat ->
  In u (data U) ->
  exists i j, (i < n_rows U)%nat /\ (j < n_cols U)%nat /\ u = get2 a U i j.
Proof.
  intros HU Hin.
  destruct (In_nth _ _ a Hin) as [k [Hk E]]. rewrite HU in Hk.
  assert (Hf : n_cols U <> 0%nat) by (intros H0; rewrite H0 in Hk; lia).
  exists (k / n_cols U)%nat, (k mod n_cols U)%nat.
  split; [apply Nat.Div0.div_lt_upper_bound; lia |].
  split; [now apply Nat.mod_upper_bound |].
  unfold get2.
  replace (k / n_cols U * n_cols U + k mod n_cols U)%nat with k
    by (rewrite (Nat.div_mod_eq k (n_cols U)) at 1; lia).
  now symmetry.
Qed.

Lemma In_combine_map_l {A B C : Type} (f : A -> C) (l : list A) (l' : list B) (c : C) (b : B) :
  In (c, b) (combine (map f l) l') -> exists a, c = f a /\ In (a, b) (combine l l').
Proof.
  revert l'. induction l as [| a l IH]; intros [| b' l']; simpl; try easy.
  intros [E | H].
  - injection E as <- <-. exists a. split; [reflexivity | now left].
  - destruct (IH l' H) as [a' [-> H']]. exists a'. split; [reflexivity | now right].
Qed.

Section ValuesThenEncoding.

Variable other_index_dtype : Matrix -> Matrix -> list (list Q) -> result (ndarray float_value).

Local Abbreviation bin_values := (compute_piecewise_linear_bin_values other_index_dtype).

Lemma compute_piecewise_linear_bin_values_size (X indices : Matrix)
    (bin_edges : list (list Q)) (V : ndarray float_value) :
  is_index_dtype (matrix_dtype indices) = true ->
  bin_values X indices bin_edges = Ok V ->
  length (data V) = (n_rows V * n_cols V)%nat.
Proof.
  intros Hdt. unfold compute_piecewise_linear_bin_values. rewrite Hdt. cbn [negb].
  destruct (negb (ndim X =? 2)%nat); [discriminate |].
  destruct (negb (shape_eqb (shape X) (shape indices))); [discriminate |].
  destruct (negb (n_cols X =? length bin_edges)%nat); [discriminate |].
  destruct (mapM _ _) as [values_list | e]; cbn [bind]; [| discriminate].
  apply torch_stack1_size.
Qed.

(** When every column has [d_encoding + 1] strictly increasing edges, the
    bin values and the bin indices that the two binning functions compute
    for a floating-point matrix of reals always pass the two domain
    checks of [piecewise_linear_encoding], also for values outside of the
    outer edges: the bin values are finite, and the call never ends in the
    domain error, it ends in the error of [_LVR_encoding] on the dtype. *)
Theorem binned_values_pass_domain_checks (dt : torch.dtype) (X : ndarray Q)
    (bin_edges : list (list Q)) (d_encoding : Z) :
  torch.is_floating_point dt = true ->
  ndim X = 2%nat ->
  (0 < n_cols X)%nat ->
  length bin_edges = n_cols X ->
  (forall j, (j < n_cols X)%nat ->
     strictly_increasing (nth j bin_edges []) /\
     (2 <= length (nth j bin_edges []))%nat /\
     Z.of_nat (length (nth j bin_edges [])) = d_encoding + 1 /\
     fits torch.int64 (Z.of_nat (length (nth j bin_edges [])))) ->
  exists (I : ndarray Z) (V : ndarray float_value) (W : ndarray Q),
    compute_bin_indices (float_matrix dt X) bin_edges = Ok I /\
    bin_values (float_matrix dt X) (int_matrix torch.int64 I) bin_edges = Ok V /\
    V = float_matrix dt W /\
    piecewise_linear_encoding (float_tensor dt W) I d_encoding
    = Raise (ValueError msg_dtype).
Proof.
  intros Hfl Hdim Hpos Hlen Hedges.
  destruct (bin_indices_then_values other_index_dtype dt X bin_edges Hfl Hdim Hpos Hlen)
    as [I [V [EI [EV [HshI [HshV H]]]]]].
  { intros j Hj. destruct (Hedges j Hj) as [_ [HL [_ Hf]]]. now split. }
  pose proof (compute_bin_indices_size _ _ _ EI) as HsI.
  pose proof (compute_piecewise_linear_bin_values_size (float_matrix dt X)
                (int_matrix torch.int64 I) bin_edges V eq_refl EV) as HsV.
  assert (HrV : n_rows V = n_rows X) by (unfold n_rows; now rewrite HshV).
  assert (HcV : n_cols V = n_cols X) by (unfold n_cols; now rewrite HshV).
  assert (Hreal : forall i j, (i < n_rows X)%nat -> (j < n_cols X)%nat ->
            get2 (real 0) V i j
            = real (bin_fraction (nth j bin_edges []) (get2 0%Q X i j) (get2 0 I i j))).
  { intros i j Hi Hj. destruct (H i j Hi Hj) as [[Hk _] Hv].
    destruct (Hedges j Hj) as [Hinc _].
    rewrite Hv. now apply bin_value_real, bin_edges_differ. }
  assert (Hdata : map real (map real_part (data V)) = data V).
  { rewrite map_map. rewrite <- (map_id (data V)) at 2. apply map_ext_in. intros x Hx.
    destruct (In_data_get2 (real 0) V x HsV Hx) as [i [j [Hi [Hj ->]]]].
    rewrite HrV in Hi. rewrite HcV in Hj. now rewrite (Hreal i j Hi Hj). }
  exists I, V, (mk_ndarray (shape V) (map real_part (data V))).
  do 2 (split; [assumption |]).
  split.
  { unfold float_matrix. cbn [entries shape data]. rewrite Hdata. now destruct V. }
  apply piecewise_linear_encoding_within.
  - exact Hfl.
  - cbn. congruence.
  - cbn. rewrite !length_map, HsI, HsV.
    unfold n_rows, n_cols. now rewrite HshI, HshV.
  - intros v k Hin. cbn in Hin.
    apply In_combine_map_l in Hin. destruct Hin as [q [-> Hin]].
    apply In_combine_map_l in Hin. destruct Hin as [x [-> Hin]].
    destruct (In_combine_data (real 0) 0 V I x k) as [i [j [Hi [Hj [-> ->]]]]];
      [congruence | assumption | assumption | assumption |].
    rewrite HrV in Hi. rewrite HcV in Hj.
    destruct (H i j Hi Hj) as [[Hk [Hlo Hhi]] _].
    destruct (Hedges j Hj) as [Hinc [_ [HL _]]].
    destruct (bin_fraction_sign _ (get2 0%Q X i j) _ Hinc Hk) as [S1 [_ [S3 _]]].
    rewrite !edge_at_nonneg in S1, S3 by lia.
    rewrite (Hreal i j Hi Hj). cbn [real_part real].
    split.
    + unfold lower_bound. destruct (Z.eqb_spec (get2 0 I i j) 0) as [E | E]; [reflexivity |].
      cbn [scalar_ltb]. apply Qltb_ge. apply S1.
      destruct Hlo as [E' | Hlo]; [contradiction | exact Hlo].
    + unfold upper_bound.
      destruct (Z.eqb_spec (get2 0 I i j + 1) d_encoding) as [E | E]; [reflexivity |].
      cbn [scalar_ltb]. apply Qltb_ge, S3, Qlt_le_weak.
      destruct Hhi as [E' | Hhi]; [lia | exact Hhi].
Qed.

End ValuesThenEncoding.

Lemma binned_values_pass_domain_checks_witness :
  exists (I : ndarray Z) (V : ndarray float_value) (W : ndarray Q),
    compute_bin_indices (float_matrix torch.float32 Sample.X_beyond)
      [[1; 2; 5]%Q; [10; 15; 20]%Q] = Ok I /\
    compute_piecewise_linear_bin_values Sample.no_index
      (float_matrix torch.float32 Sample.X_beyond) (int_matrix torch.int64 I)
      [[1; 2; 5]%Q; [10; 15; 20]%Q] = Ok V /\
    V = float_matrix torch.float32 W /\
    piecewise_linear_encoding (float_tensor torch.float32 W) I 2
    = Raise (ValueError msg_dtype).
Proof.
  apply (binned_values_pass_domain_checks Sample.no_index torch.float32).
  - reflexivity.
  - reflexivity.
  - cbv. lia.
  - reflexivity.
  - intros [| [| j]] Hj.
    + split; [apply increasingb_sound; reflexivity |].
      split; [cbv; lia |]. split; [reflexivity | vm_compute; split; discriminate].
    + split; [apply increasingb_sound; reflexivity |].
      split; [cbv; lia |]. split; [reflexivity | vm_compute; split; discriminate].
    + cbv in Hj. lia.
Defined.

(** ** The quantile edges span the column *)

Lemma inject_Z_nonneg (z : Z) : 0 <= z -> (0 <= inject_Z z)%Q.
Proof.
  intros H. change 0%Q with (inject_Z 0). now rewrite <- Zle_Qle.
Qed.

Lemma inject_Z_pos (z : Z) : 0 < z -> (0 < inject_Z z)%Q.
Proof.
  intros H. change 0%Q with (inject_Z 0). now rewrite <- Zlt_Qlt.
Qed.

Lemma sorted_nth_le (l : list Q) (a b : nat) :
  StronglySorted (order_le Qle_bool) l -> (a <= b < length l)%nat ->
  (nth a l 0 <= nth b l 0)%Q.
Proof.
  intros Hs [Hab Hb]. destruct (Nat.eq_dec a b) as [-> | Hne]; [apply Qle_refl |].
  apply Qle_bool_iff. apply (StronglySorted_nth (order_le Qle_bool)); [exact Hs | lia].
Qed.

(** A quantile at a level of [0, 1] lies between the least and the
    greatest value. *)
Lemma np_quantile_bounds (a : list Q) (q : Q) :
  a <> [] -> (0 <= q <= 1)%Q ->
  (nth 0 (sort Qle_bool a) 0 <= np_quantile a q <= nth (length a - 1) (sort Qle_bool a) 0)%Q.
Proof.
  intros Ha [Hq0 Hq1].
  assert (Hn : (1 <= length a)%nat) by (destruct a; [congruence | simpl; lia]).
  pose proof (sort_sorted Qle_bool Qleb_total Qleb_trans a) as Hs.
  pose proof (length_sort Qle_bool a) as Hlen.
  unfold np_quantile. cbv zeta.
  set (s := sort Qle_bool a) in *.
  set (n1 := Z.of_nat (length a) - 1).
  set (pos := (q * inject_Z n1)%Q).
  assert (Hn1 : (0 <= inject_Z n1)%Q) by (apply inject_Z_nonneg; unfold n1; lia).
  assert (Hpos0 : (0 <= pos)%Q) by (unfold pos; now apply Qmult_le_0_compat).
  assert (Hpos1 : (pos <= inject_Z n1)%Q).
  { unfold pos. rewrite <- (Qmult_1_l (inject_Z n1)) at 2.
    now apply Qmult_le_compat_r. }
  set (lo := Qfloor pos).
  assert (Hlo0 : 0 <= lo)
    by (unfold lo; change 0 with (Qfloor 0); now apply Qfloor_resp_le).
  assert (Hlo1 : lo <= n1)
    by (unfold lo; rewrite <- (Qfloor_Z n1); now apply Qfloor_resp_le).
  set (hi := Z.min (lo + 1) n1).
  assert (Hhi : lo <= hi <= n1) by (unfold hi; lia).
  set (gamma := (pos - inject_Z lo)%Q).
  assert (Hg0 : (0 <= gamma)%Q).
  { unfold gamma. pose proof (Qfloor_le pos) as H. fold lo in H. lra. }
  assert (Hg1 : (gamma <= 1)%Q).
  { unfold gamma. pose proof (Qlt_floor pos) as H. fold lo in H.
    rewrite inject_Z_plus in H. change (inject_Z 1) with 1%Q in H. lra. }
  set (x_lo := nth (Z.to_nat lo) s 0%Q).
  set (x_hi := nth (Z.to_nat hi) s 0%Q).
  assert (H1 : (nth 0 s 0 <= x_lo)%Q) by (apply sorted_nth_le; [exact Hs | unfold n1 in *; lia]).
  assert (H2 : (x_lo <= x_hi)%Q) by (apply sorted_nth_le; [exact Hs | unfold n1 in *; lia]).
  assert (H3 : (x_hi <= nth (length a - 1) s 0)%Q)
    by (apply sorted_nth_le; [exact Hs | unfold n1 in *; lia]).
  assert (H4 : (0 <= (x_hi - x_lo) * gamma)%Q) by (apply Qmult_le_0_compat; lra).
  assert (H5 : ((x_hi - x_lo) * gamma <= (x_hi - x_lo) * 1)%Q).
  { rewrite !(Qmult_comm (x_hi - x_lo)). apply Qmult_le_compat_r; lra. }
  split; lra.
Qed.

Lemma np_linspace_unit (num : Z) (q : Q) :
  2 <= num -> In q (np_linspace 0 1 num) -> (0 <= q <= 1)%Q.
Proof.
  intros Hn Hin. destruct (In_nth _ _ 0%Q Hin) as [k [Hk <-]].
  rewrite length_np_linspace in Hk. rewrite nth_np_linspace by exact Hk.
  assert (Hd : (0 < inject_Z (num - 1))%Q) by (apply inject_Z_pos; lia).
  split.
  - apply Qle_shift_div_l; [exact Hd |]. rewrite Qmult_0_l.
    apply inject_Z_nonneg. lia.
  - apply Qle_shift_div_r; [exact Hd |]. rewrite Qmult_1_l.
    rewrite <- Zle_Qle. lia.
Qed.

(** The first quantile edge is the least order statistic of the column and
    the last one the greatest. *)
Lemma quantile_edges_ends (column : list Q) (adjusted_n_bins : Z) :
  2 <= n_distinct column -> 1 <= adjusted_n_bins ->
  let edges := quantile_edges column adjusted_n_bins in
  (nth 0 edges 0 == nth 0 (sort Qle_bool column) 0)%Q /\
  (nth (length edges - 1) edges 0 == nth (length column - 1) (sort Qle_bool column) 0)%Q.
Proof.
  intros Hc Hb edges.
  pose proof (n_distinct_nonempty column Hc) as Hne.
  pose proof (quantile_edges_length column adjusted_n_bins Hc Hb) as HL. fold edges in HL.
  set (levels := np_linspace 0 1 (adjusted_n_bins + 1)).
  assert (Hsorted : StronglySorted (order_lt Qle_bool) edges)
    by (apply np_unique_sorted; [apply Qleb_total | apply Qleb_trans]).
  assert (Hbounds : forall v, In v edges ->
            (nth 0 (sort Qle_bool column) 0 <= v
             <= nth (length column - 1) (sort Qle_bool column) 0)%Q).
  { intros v Hv. apply (np_unique_In Qle_bool) in Hv. apply in_map_iff in Hv.
    destruct Hv as [q [<- Hq]]. apply np_quantile_bounds; [exact Hne |].
    apply (np_linspace_unit (adjusted_n_bins + 1)); [lia | exact Hq]. }
  assert (Hle : forall a b, (a <= b < length edges)%nat -> (nth a edges 0 <= nth b edges 0)%Q).
  { intros a b [Hab Hb']. destruct (Nat.eq_dec a b) as [-> | Hne']; [apply Qle_refl |].
    apply Qlt_le_weak, Qleb_false_lt.
    apply (StronglySorted_nth (order_lt Qle_bool)); [exact Hsorted | lia]. }
  split.
  - apply Qle_antisym; [| apply Hbounds, nth_In; lia].
    destruct (np_unique_Q_complete (map (np_quantile column) levels)
                (np_quantile column (nth 0 levels 0%Q))) as [v' [Hv' Ev']].
    { apply in_map, nth_In. unfold levels. rewrite length_np_linspace. lia. }
    fold (quantile_edges column adjusted_n_bins) in Hv'. fold edges in Hv'.
    destruct (In_nth _ _ 0%Q Hv') as [k [Hk Ek]].
    change (k < length edges)%nat in Hk.
    rewrite <- (np_quantile_first column (nth 0 levels 0%Q))
      by (apply np_linspace_first; lia).
    rewrite <- Ev', <- Ek. apply Hle. lia.
  - apply Qle_antisym; [apply Hbounds, nth_In; lia |].
    destruct (np_unique_Q_complete (map (np_quantile column) levels)
                (np_quantile column (nth (Z.to_nat adjusted_n_bins) levels 0%Q)))
      as [v' [Hv' Ev']].
    { apply in_map, nth_In. unfold levels. rewrite length_np_linspace. lia. }
    fold (quantile_edges column adjusted_n_bins) in Hv'. fold edges in Hv'.
    destruct (In_nth _ _ 0%Q Hv') as [k [Hk Ek]].
    change (k < length edges)%nat in Hk.
    rewrite <- (np_quantile_last column (nth (Z.to_nat adjusted_n_bins) levels 0%Q));
      [| exact Hne
       | unfold levels; replace adjusted_n_bins with (adjusted_n_bins + 1 - 1) at 1 by lia;
         apply np_linspace_last; lia].
    rewrite <- Ev', <- Ek. apply Hle. lia.
Qed.

Lemma sort_ends (column : list Q) :
  column <> [] ->
  is_min_Q column (nth 0 (sort Qle_bool column) 0%Q) /\
  is_max_Q column (nth (length column - 1) (sort Qle_bool column) 0%Q).
Proof.
  intros Hne.
  assert (Hn : (1 <= length column)%nat) by (destruct column; [congruence | simpl; lia]).
  pose proof (sort_sorted Qle_bool Qleb_total Qleb_trans column) as Hs.
  pose proof (length_sort Qle_bool column) as Hlen.
  assert (Hin : forall k, (k < length column)%nat -> In (nth k (sort Qle_bool column) 0%Q) column).
  { intros k Hk. eapply Permutation_in; [apply sort_perm |]. apply nth_In. lia. }
  split; (split; [apply Hin; lia |]); intros v Hv.
  - assert (Hv' : In v (sort Qle_bool column))
      by (eapply Permutation_in; [symmetry; apply sort_perm | exact Hv]).
    destruct (sorted_bounds Qle_bool Qleb_total _ 0%Q v Hs Hv') as [H _].
    now apply Qle_bool_iff.
  - assert (Hv' : In v (sort Qle_bool column))
      by (eapply Permutation_in; [symmetry; apply sort_perm | exact Hv]).
    destruct (sorted_bounds Qle_bool Qleb_total _ 0%Q v Hs Hv') as [_ H].
    rewrite Hlen in H. now apply Qle_bool_iff.
Qed.

Lemma quantile_edges_span (column : list Q) (adjusted_n_bins : Z) :
  2 <= n_distinct column -> 1 <= adjusted_n_bins ->
  let edges := quantile_edges column adjusted_n_bins in
  (exists m M, is_min_Q column m /\ is_max_Q column M /\
     (nth 0 edges 0 == m)%Q /\ (nth (length edges - 1) edges 0 == M)%Q) /\
  forall x, In x column -> (nth 0 edges 0 <= x <= nth (length edges - 1) edges 0)%Q.
Proof.
  intros Hc Hb edges.
  destruct (quantile_edges_ends column adjusted_n_bins Hc Hb) as [E0 E1]. fold edges in E0, E1.
  destruct (sort_ends column (n_distinct_nonempty column Hc)) as [Hmin Hmax].
  split.
  - exists (nth 0 (sort Qle_bool column) 0%Q), (nth (length column - 1) (sort Qle_bool column) 0%Q).
    repeat split; try apply Hmin; try apply Hmax; assumption.
  - intros x Hx. rewrite E0, E1. split; [now apply Hmin | now apply Hmax].
Qed.

(** The quantile edges of a column start at its minimum and end at its
    maximum, so that every value of the matrix lies within the outer edges
    of its column. *)
Theorem compute_quantile_bin_edges_span (X : ndarray Q) (n_bins : Z) :
  ndim X = 2%nat ->
  2 <= n_bins ->
  (forall j, (j < n_cols X)%nat -> 2 <= n_distinct (column 0%Q X j)) ->
  exists ws edges,
    compute_quantile_bin_edges X n_bins = (ws, Ok edges) /\
    forall j, (j < n_cols X)%nat ->
      let e := nth j edges [] in
      (exists m M, is_min_Q (column 0%Q X j) m /\ is_max_Q (column 0%Q X j) M /\
         (nth 0 e 0 == m)%Q /\ (nth (length e - 1) e 0 == M)%Q) /\
      forall i, (i < n_rows X)%nat ->
        (nth 0 e 0 <= get2 0 X i j <= nth (length e - 1) e 0)%Q.
Proof.
  intros Hdim Hn Hc.
  rewrite compute_quantile_bin_edges_Ok by assumption.
  do 2 eexists. split; [reflexivity |].
  intros j Hj e. unfold e.
  rewrite (nth_map_lt _ _ _ []) by (rewrite length_columns; exact Hj).
  rewrite nth_columns by exact Hj.
  pose proof (effective_bins_bounds n_bins (column 0%Q X j) Hn (Hc j Hj)) as Hb.
  destruct (quantile_edges_span (column 0%Q X j) (effective_bins n_bins (column 0%Q X j))
              (Hc j Hj) ltac:(lia)) as [Hends Hspan].
  split; [exact Hends |].
  intros i Hi. apply Hspan. now apply In_get2_column.
Qed.

Lemma compute_quantile_bin_edges_span_witness :
  exists ws edges,
    compute_quantile_bin_edges Sample.X 5 = (ws, Ok edges) /\
    forall j, (j < n_cols Sample.X)%nat ->
      let e := nth j edges [] in
      (exists m M, is_min_Q (column 0%Q Sample.X j) m /\ is_max_Q (column 0%Q Sample.X j) M /\
         (nth 0 e 0 == m)%Q /\ (nth (length e - 1) e 0 == M)%Q) /\
      forall i, (i < n_rows Sample.X)%nat ->
        (nth 0 e 0 <= get2 0 Sample.X i j <= nth (length e - 1) e 0)%Q.
Proof.
  apply compute_quantile_bin_edges_span.
  - reflexivity.
  - lia.
  - intros [| [| j]] Hj; [vm_compute; discriminate | vm_compute; discriminate |].
    cbv in Hj. lia.
Defined.

Section QuantileBinning.

Variable other_index_dtype : Matrix -> Matrix -> list (list Q) -> result (ndarray float_value).

Local Abbreviation bin_values := (compute_piecewise_linear_bin_values other_index_dtype).

(** Binning a floating-point matrix of reals with its own quantile edges:
    the three functions return in a row, every index is a bin of its
    column, and every bin value is a fraction of [0, 1]. *)
Theorem quantile_binning_of_training_data (dt : torch.dtype) (X : ndarray Q) (n_bins : Z) :
  torch.is_floating_point dt = true ->
  ndim X = 2%nat ->
  (0 < n_cols X)%nat ->
  2 <= n_bins ->
  fits torch.int64 (n_bins + 1) ->
  (forall j, (j < n_cols X)%nat -> 2 <= n_distinct (column 0%Q X j)) ->
  exists ws edges I V,
    compute_quantile_bin_edges X n_bins = (ws, Ok edges) /\
    compute_bin_indices (float_matrix dt X) edges = Ok I /\
    bin_values (float_matrix dt X) (int_matrix torch.int64 I) edges = Ok V /\
    forall i j, (i < n_rows X)%nat -> (j < n_cols X)%nat ->
      0 <= get2 0 I i j <= Z.of_nat (length (nth j edges [])) - 2 /\
      exists v : Q, get2 (real 0) V i j = real v /\ (0 <= v <= 1)%Q.
Proof.
  intros Hdt Hdim Hpos Hn Hfit Hc.
  rewrite compute_quantile_bin_edges_Ok by assumption.
  set (edges := map (fun c => quantile_edges c (effective_bins n_bins c)) (columns 0%Q X)).
  assert (Hnth : forall j, (j < n_cols X)%nat ->
            nth j edges []
            = quantile_edges (column 0%Q X j) (effective_bins n_bins (column 0%Q X j))).
  { intros j Hj. unfold edges.
    rewrite (nth_map_lt _ _ _ []) by (rewrite length_columns; exact Hj).
    now rewrite nth_columns. }
  assert (Hlen : length edges = n_cols X)
    by (unfold edges; now rewrite length_map, length_columns).
  assert (HL : forall j, (j < n_cols X)%nat ->
            (2 <= length (nth j edges []))%nat /\
            fits torch.int64 (Z.of_nat (length (nth j edges [])))).
  { intros j Hj. rewrite Hnth by exact Hj.
    pose proof (effective_bins_bounds n_bins (column 0%Q X j) Hn (Hc j Hj)) as Hb.
    pose proof (quantile_edges_length (column 0%Q X j)
                  (effective_bins n_bins (column 0%Q X j)) (Hc j Hj) ltac:(lia)).
    split; [lia |]. unfold fits in *. cbn [torch.int_range] in *. lia. }
  destruct (bin_indices_then_values other_index_dtype dt X edges Hdt Hdim Hpos Hlen HL)
    as [I [V [EI [EV [_ [_ H]]]]]].
  exists (bin_warnings n_bins (enumerate (columns 0%Q X))), edges, I, V.
  do 3 (split; [assumption || reflexivity |]).
  intros i j Hi Hj. destruct (H i j Hi Hj) as [[Hk [Hlo Hhi]] Hv].
  split; [exact Hk |].
  pose proof (effective_bins_bounds n_bins (column 0%Q X j) Hn (Hc j Hj)) as Hb.
  destruct (quantile_edges_span (column 0%Q X j) (effective_bins n_bins (column 0%Q X j))
              (Hc j Hj) ltac:(lia)) as [_ Hspan].
  rewrite <- (Hnth j Hj) in Hspan.
  destruct (Hspan (get2 0%Q X i j) (In_get2_column 0%Q X i j Hi)) as [Hx0 Hx1].
  assert (Hinc : strictly_increasing (nth j edges []))
    by (rewrite (Hnth j Hj); apply np_unique_increasing).
  exists (bin_fraction (nth j edges []) (get2 0%Q X i j) (get2 0 I i j)).
  split; [rewrite Hv; now apply bin_value_real, bin_edges_differ |].
  destruct (bin_fraction_sign _ (get2 0%Q X i j) _ Hinc Hk) as [S1 [_ [S3 _]]].
  rewrite !edge_at_nonneg in S1, S3 by lia.
  split.
  - apply S1. destruct Hlo as [E | Hlo]; [now rewrite E | exact Hlo].
  - apply S3. destruct Hhi as [E | Hhi]; [| now apply Qlt_le_weak].
    replace (Z.to_nat (get2 0 I i j + 1)) with (length (nth j edges []) - 1)%nat by lia.
    exact Hx1.
Qed.

End QuantileBinning.

Lemma quantile_binning_of_training_data_witness :
  exists ws edges I V,
    compute_quantile_bin_edges Sample.X 5 = (ws, Ok edges) /\
    compute_bin_indices (float_matrix torch.float32 Sample.X) edges = Ok I /\
    compute_piecewise_linear_bin_values Sample.no_index
      (float_matrix torch.float32 Sample.X) (int_matrix torch.int64 I) edges = Ok V /\
    forall i j, (i < n_rows Sample.X)%nat -> (j < n_cols Sample.X)%nat ->
      0 <= get2 0 I i j <= Z.of_nat (length (nth j edges [])) - 2 /\
      exists v : Q, get2 (real 0) V i j = real v /\ (0 <= v <= 1)%Q.
Proof.
  apply (quantile_binning_of_training_data Sample.no_index torch.float32).
  - reflexivity.
  - reflexivity.
  - cbv. lia.
  - lia.
  - vm_compute. split; discriminate.
  - intros [| [| j]] Hj; [vm_compute; discriminate | vm_compute; discriminate |].
    cbv in Hj. lia.
Defined.

(** * Further properties of the category sizes *)

Lemma mapM_inv {A B : Type} (f : A -> result B) (l : list A) (bs : list B) :
  mapM f l = Ok bs ->
  length bs = length l /\
  forall k a b, (k < length l)%nat -> f (nth k l a) = Ok (nth k bs b).
Proof.
  revert bs. induction l as [| x l IH]; simpl; intros bs E.
  - injection E as <-. split; [reflexivity | intros; lia].
  - destruct (f x) as [y | e] eqn:Ex; simpl in E; [| discriminate].
    destruct (mapM f l) as [ys | e]; simpl in E; [| discriminate].
    injection E as <-. destruct (IH ys eq_refl) as [Hlen Hnth].
    split; [simpl; now rewrite Hlen |].
    intros [| k] a b Hk; [exact Ex | apply Hnth; lia].
Qed.

Lemma np_min_Ok_In {A : Type} (leb : A -> A -> bool) (l : list A) (m : A) :
  np_min leb l = Ok m -> l <> [].
Proof.
  destruct l; [discriminate | congruence].
Qed.

(** A column that [category_size] accepts holds exactly the integers from 0
    to its size minus one. *)
Lemma category_size_inv (itemsize : positive) (i : nat) (column : list Z) (s : Z) :
  (forall v, In v column -> np_fits itemsize v = true) ->
  category_size itemsize i column = Ok s ->
  1 <= s /\ covers_range column (s - 1) /\ s = Z.of_nat (distinct_count column).
Proof.
  unfold category_size. intros Hfit E.
  set (u := np_unique Z.leb column) in *.
  destruct (np_min Z.leb u) as [m | e] eqn:Emin; cbn [bind] in E; [| discriminate].
  destruct (Z.eqb_spec m 0) as [-> | Hm]; cbn [negb] in E; [| discriminate].
  destruct (np_max Z.leb u) as [M | e] eqn:Emax; cbn [bind] in E; [| discriminate].
  destruct (Z.eqb_spec (np_add itemsize M 1) (Z.of_nat (length u))) as [HM | HM];
    cbn [negb] in E; [| discriminate].
  injection E as <-.
  pose proof (np_min_Ok_In _ _ _ Emin) as Hne.
  destruct (np_min_spec Z.leb Zleb_total Zleb_trans u Hne) as [m' [Emin' [Hin0 Hle0]]].
  rewrite Emin in Emin'. injection Emin' as <-.
  destruct (np_max_spec Z.leb Zleb_total Zleb_trans u Hne) as [M' [Emax' [HinM HleM]]].
  rewrite Emax in Emax'. injection Emax' as <-.
  rewrite np_add_one in HM by (apply Hfit; now apply (np_unique_Z_In M column)).
  pose proof (np_int_range_sign itemsize) as Hsign.
  destruct (Z.eqb_spec M (snd (np_int_range itemsize))) as [Htop | _]; [lia |].
  assert (Hrange : forall v, In v u -> 0 <= v <= M).
  { intros v Hv. specialize (Hle0 v Hv). specialize (HleM v Hv).
    unfold order_le in Hle0, HleM. apply Z.leb_le in Hle0, HleM. lia. }
  assert (HM0 : 0 <= M) by (apply (Hrange M HinM)).
  assert (Hall : incl (map Z.of_nat (seq 0 (Z.to_nat (M + 1)))) u).
  { apply NoDup_length_incl.
    - apply np_unique_Z_NoDup.
    - rewrite length_map, length_seq. lia.
    - intros v Hv. apply in_map_iff. exists (Z.to_nat v).
      specialize (Hrange v Hv). split; [lia | apply in_seq; lia]. }
  split; [lia |]. split.
  - intros v. rewrite <- (np_unique_Z_In v column). fold u. split.
    + intros Hv. specialize (Hrange v Hv). lia.
    + intros Hv. apply Hall. apply in_map_iff. exists (Z.to_nat v).
      split; [lia | apply in_seq; lia].
  - unfold u. now rewrite length_np_unique_Z.
Qed.

(** Whenever [get_category_sizes] returns, the array is a 2-D array of
    signed integers, there is one size for each column, and every column
    holds exactly the integers from 0 to its size minus one: the size is
    the maximum of the column plus one, and the number of its distinct
    values. *)
Theorem get_category_sizes_returns (X : int_array) (sizes : list Z) :
  get_category_sizes X = Ok sizes ->
  ndim X = 2%nat /\ np_kind X = np.signedinteger /\
  length sizes = n_cols X /\
  forall j, (j < n_cols X)%nat ->
    1 <= nth j sizes 0 /\
    covers_range (column 0 X j) (nth j sizes 0 - 1) /\
    is_max (column 0 X j) (nth j sizes 0 - 1) /\
    nth j sizes 0 = Z.of_nat (distinct_count (column 0 X j)).
Proof.
  unfold get_category_sizes. intros E.
  destruct (Nat.eqb_spec (ndim X) 2) as [Hdim | Hdim]; cbn [negb] in E; [| discriminate].
  destruct (np_kind X) eqn:Hkind; try discriminate.
  destruct (mapM_inv _ _ _ E) as [Hlen Hnth].
  unfold enumerate in Hlen. rewrite length_combine, length_seq, Nat.min_id, length_columns in Hlen.
  do 3 (split; [assumption || reflexivity |]).
  intros j Hj.
  assert (Hj' : (j < length (enumerate (columns 0%Z X)))%nat)
    by (unfold enumerate; rewrite length_combine, length_seq, Nat.min_id, length_columns; exact Hj).
  specialize (Hnth j (0%nat, []) 0 Hj').
  rewrite nth_enumerate in Hnth by (rewrite length_columns; exact Hj).
  rewrite nth_columns in Hnth by exact Hj. cbn [fst snd] in Hnth.
  destruct (category_size_inv _ _ _ _ (fun v => int_array_fits X j v Hkind) Hnth)
    as [H1 [Hr Hc]].
  split; [exact H1 |]. split; [exact Hr |]. split; [| exact Hc].
  split; [apply Hr; lia | intros v Hv; apply Hr in Hv; lia].
Qed.

Lemma get_category_sizes_returns_witness :
  ndim Sample.categories = 2%nat /\ np_kind Sample.categories = np.signedinteger /\
  length [3; 2; 1] = n_cols Sample.categories /\
  forall j, (j < n_cols Sample.categories)%nat ->
    1 <= nth j [3; 2; 1] 0 /\
    covers_range (column 0 Sample.categories j) (nth j [3; 2; 1] 0 - 1) /\
    is_max (column 0 Sample.categories j) (nth j [3; 2; 1] 0 - 1) /\
    nth j [3; 2; 1] 0 = Z.of_nat (distinct_count (column 0 Sample.categories j)).
Proof.
  apply get_category_sizes_returns. reflexivity.
Defined.

(** What [get_category_sizes] does at the edges: an array that is not 2-D
    and a 2-D array whose dtype is not a signed integer one (unsigned
    integers included) are refused with the errors of the function; a 2-D
    array without columns gives the empty list; and with columns but
    without rows, the minimum of an empty column is what raises. *)
Theorem get_category_sizes_edges (X : int_array) :
  (ndim X <> 2%nat -> get_category_sizes X = Raise (ValueError msg_two_dimensional)) /\
  (ndim X = 2%nat -> np_kind X <> np.signedinteger ->
   get_category_sizes X = Raise (ValueError msg_integer)) /\
  (ndim X = 2%nat -> np_kind X = np.signedinteger -> n_cols X = 0%nat ->
   get_category_sizes X = Ok []) /\
  (ndim X = 2%nat -> np_kind X = np.signedinteger -> (0 < n_cols X)%nat -> n_rows X = 0%nat ->
   get_category_sizes X = Raise (ValueError (msg_empty_reduction "minimum"))).
Proof.
  unfold get_category_sizes. repeat split.
  - intros H. destruct (Nat.eqb_spec (ndim X) 2); [contradiction | reflexivity].
  - intros Hdim Hk. rewrite Hdim. cbn [Nat.eqb negb].
    destruct (np_kind X); try reflexivity. contradiction.
  - intros Hdim Hk Hc. rewrite Hdim, Hk. cbn [Nat.eqb negb].
    unfold columns. rewrite Hc. reflexivity.
  - intros Hdim Hk Hc Hr. rewrite Hdim, Hk. cbn [Nat.eqb negb].
    unfold columns, column. rewrite Hr.
    destruct (n_cols X) as [| f]; [lia |]. reflexivity.
Qed.

Lemma get_category_sizes_edges_witness :
  get_category_sizes (mk_int_array np.unsignedinteger 8 Sample.categories eq_refl)
  = Raise (ValueError msg_integer) /\
  get_category_sizes (mk_int_array np.signedinteger 8 (mk_ndarray [3%nat] [0; 1; 2]) eq_refl)
  = Raise (ValueError msg_two_dimensional) /\
  get_category_sizes (mk_int_array np.signedinteger 8 (mk_ndarray [3%nat; 0%nat] []) eq_refl)
  = Ok [] /\
  get_category_sizes (mk_int_array np.signedinteger 8 (mk_ndarray [0%nat; 2%nat] []) eq_refl)
  = Raise (ValueError (msg_empty_reduction "minimum")).
Proof.
  split.
  { apply (proj1 (proj2 (get_category_sizes_edges _))); [reflexivity | discriminate]. }
  split.
  { apply (proj1 (get_category_sizes_edges _)). discriminate. }
  split.
  { apply (proj1 (proj2 (proj2 (get_category_sizes_edges _)))); reflexivity. }
  apply (proj2 (proj2 (proj2 (get_category_sizes_edges _)))); try reflexivity.
  cbv. lia.
Defined.

(** * Further properties of the bin counts *)

Lemma list_split_nth {A : Type} (l : list A) (j : nat) (d : A) :
  (j < length l)%nat -> l = (firstn j l ++ nth j l d :: skipn (S j) l)%list.
Proof.
  revert j. induction l as [| x l IH]; simpl; intros j Hj; [lia |].
  destruct j as [| j]; [reflexivity |].
  simpl. f_equal. apply IH. lia.
Qed.

Lemma In_firstn_nth {A : Type} (l : list A) (j : nat) (x d : A) :
  In x (firstn j l) -> exists k, (k < j)%nat /\ (k < length l)%nat /\ nth k l d = x.
Proof.
  intros H. destruct (In_nth _ _ d H) as [k [Hk E]].
  rewrite length_firstn in Hk. rewrite nth_firstn in E.
  destruct (Nat.ltb_spec k j); [| lia].
  exists k. repeat split; [lia | lia | exact E].
Qed.

(** The loop stops at the first column with fewer than two distinct
    values: the warnings of the columns before it have been issued. *)
Lemma adjust_columns_first_constant (n_bins : Z) (pre rest : list (nat * list Q))
    (i : nat) (c : list Q) :
  (forall ic, In ic pre -> 2 <= n_distinct (snd ic)) ->
  n_distinct c < 2 ->
  adjust_columns n_bins (pre ++ (i, c) :: rest)
  = (bin_warnings n_bins pre, Raise (ValueError (msg_constant_column i))).
Proof.
  intros Hpre Hc. induction pre as [| [i' c'] pre IH].
  - cbn [app adjust_columns]. fold (n_distinct c).
    destruct (Z.ltb_spec (n_distinct c) 2); [reflexivity | lia].
  - cbn [app adjust_columns]. fold (n_distinct c').
    pose proof (Hpre (i', c') (or_introl eq_refl)) as H2. cbn [snd] in H2.
    destruct (Z.ltb_spec (n_distinct c') 2); [lia |].
    rewrite IH by (intros ic Hic; apply Hpre; now right).
    reflexivity.
Qed.

Lemma bin_warnings_nil (n_bins : Z) (cols : list (nat * list Q)) :
  bin_warnings n_bins cols = [] <->
  forall ic, In ic cols -> n_bins <= n_distinct (snd ic).
Proof.
  unfold bin_warnings. induction cols as [| ic cols IH]; simpl.
  - split; [intros _ ic [] | reflexivity].
  - destruct (Z.ltb_spec (n_distinct (snd ic)) n_bins) as [Hlt | Hge]; simpl.
    + split; [discriminate |]. intros H. specialize (H ic (or_introl eq_refl)). lia.
    + rewrite IH. split.
      * intros H ic' [<- | Hin]; [exact Hge | now apply H].
      * intros H ic' Hin. apply H. now right.
Qed.

Lemma length_bin_warnings (n_bins : Z) (cols : list (nat * list Q)) :
  (length (bin_warnings n_bins cols) <= length cols)%nat.
Proof.
  unfold bin_warnings. induction cols as [| ic cols IH]; simpl; [lia |].
  rewrite length_app. destruct (n_distinct (snd ic) <? n_bins); simpl; lia.
Qed.

(** The error of [_adjust_bin_counts] names the first column whose values
    are all the same, and the warnings of the columns before it, and only
    those, have been issued by then; [compute_quantile_bin_edges] passes
    both on. *)
Theorem first_constant_column_is_reported (X : ndarray Q) (n_bins : Z) (j : nat) :
  2 <= n_bins ->
  (j < n_cols X)%nat ->
  n_distinct (column 0%Q X j) < 2 ->
  (forall j', (j' < j)%nat -> 2 <= n_distinct (column 0%Q X j')) ->
  _adjust_bin_counts X n_bins
  = (bin_warnings n_bins (firstn j (enumerate (columns 0%Q X))),
     Raise (ValueError (msg_constant_column j))) /\
  (ndim X = 2%nat ->
   compute_quantile_bin_edges X n_bins
   = (bin_warnings n_bins (firstn j (enumerate (columns 0%Q X))),
      Raise (ValueError (msg_constant_column j)))).
Proof.
  intros Hn Hj Hc Hbefore.
  assert (Hlen : (j < length (enumerate (columns 0%Q X)))%nat)
    by (unfold enumerate; rewrite length_combine, length_seq, Nat.min_id, length_columns;
        exact Hj).
  assert (E : _adjust_bin_counts X n_bins
              = (bin_warnings n_bins (firstn j (enumerate (columns 0%Q X))),
                 Raise (ValueError (msg_constant_column j)))).
  { unfold _adjust_bin_counts. destruct (Z.ltb_spec n_bins 2); [lia |].
    rewrite (list_split_nth (enumerate (columns 0%Q X)) j (0%nat, []) Hlen) at 1.
    rewrite nth_enumerate by (rewrite length_columns; exact Hj).
    rewrite nth_columns by exact Hj.
    apply adjust_columns_first_constant; [| exact Hc].
    intros ic Hic. apply (In_firstn_nth _ _ _ (0%nat, [])) in Hic.
    destruct Hic as [k [Hk [Hk' <-]]].
    unfold enumerate in Hk'. rewrite length_combine, length_seq, Nat.min_id, length_columns in Hk'.
    rewrite nth_enumerate by (rewrite length_columns; exact Hk').
    rewrite nth_columns by exact Hk'. cbn [snd]. now apply Hbefore. }
  split; [exact E |].
  intros Hdim. unfold compute_quantile_bin_edges.
  rewrite Hdim, E. reflexivity.
Qed.

Lemma first_constant_column_is_reported_witness :
  _adjust_bin_counts (mk_ndarray [2%nat; 3%nat] [1; 7; 3; 2; 7; 4]%Q) 3
  = ([msg_fewer_bins 0], Raise (ValueError (msg_constant_column 1))) /\
  compute_quantile_bin_edges (mk_ndarray [2%nat; 3%nat] [1; 7; 3; 2; 7; 4]%Q) 3
  = ([msg_fewer_bins 0], Raise (ValueError (msg_constant_column 1))).
Proof.
  pose proof (first_constant_column_is_reported
                (mk_ndarray [2%nat; 3%nat] [1; 7; 3; 2; 7; 4]%Q) 3 1) as H.
  destruct H as [H1 H2].
  - lia.
  - cbv. lia.
  - vm_compute. reflexivity.
  - intros [| j'] Hj'; [vm_compute; discriminate | lia].
  - split; [exact H1 | apply H2; reflexivity].
Defined.

(** The bin counts that [_adjust_bin_counts] returns: one for each column,
    each of them at least 2, at most [n_bins] and at most the number of
    distinct values of its column, and equal to one of the two.  No warning
    is issued exactly when every column has [n_bins] distinct values or
    more, which is when every count is [n_bins]; there is at most one
    warning for each column. *)
Theorem adjust_bin_counts_returns (X : ndarray Q) (n_bins : Z) (ws : list string)
    (counts : list Z) :
  _adjust_bin_counts X n_bins = (ws, Ok counts) ->
  2 <= n_bins /\
  length counts = n_cols X /\
  (forall j, (j < n_cols X)%nat ->
     2 <= nth j counts 0 <= n_bins /\
     nth j counts 0 <= n_distinct (column 0%Q X j) /\
     (nth j counts 0 = n_bins \/ nth j counts 0 = n_distinct (column 0%Q X j))) /\
  (ws = [] <-> forall j, (j < n_cols X)%nat -> n_bins <= n_distinct (column 0%Q X j)) /\
  (ws = [] <-> forall j, (j < n_cols X)%nat -> nth j counts 0 = n_bins) /\
  (length ws <= n_cols X)%nat.
Proof.
  intros E.
  assert (Hok : is_Ok (snd (_adjust_bin_counts X n_bins)) = true) by now rewrite E.
  assert (Hn : 2 <= n_bins).
  { destruct (Z_lt_le_dec n_bins 2) as [Hlt | Hge]; [| exact Hge].
    rewrite (adjust_bin_counts_n_bins X n_bins Hlt) in Hok. discriminate. }
  assert (Hc : forall j, (j < n_cols X)%nat -> 2 <= n_distinct (column 0%Q X j)).
  { intros j Hj. destruct (Z_lt_le_dec (n_distinct (column 0%Q X j)) 2) as [Hlt | Hge];
      [| exact Hge].
    rewrite (adjust_bin_counts_constant X n_bins j Hj Hlt) in Hok. discriminate. }
  rewrite (adjust_bin_counts_Ok X n_bins Hn Hc) in E.
  injection E as <- <-.
  assert (Hlen : length (enumerate (columns 0%Q X)) = n_cols X)
    by (unfold enumerate; now rewrite length_combine, length_seq, Nat.min_id, length_columns).
  assert (Hnth : forall j, (j < n_cols X)%nat ->
            nth j (map (fun ic => effective_bins n_bins (snd ic)) (enumerate (columns 0%Q X))) 0
            = effective_bins n_bins (column 0%Q X j)).
  { intros j Hj. rewrite (nth_map_lt _ _ _ (0%nat, [])) by (rewrite Hlen; exact Hj).
    rewrite nth_enumerate by (rewrite length_columns; exact Hj).
    now rewrite nth_columns. }
  assert (Hw : bin_warnings n_bins (enumerate (columns 0%Q X)) = [] <->
               forall j, (j < n_cols X)%nat -> n_bins <= n_distinct (column 0%Q X j)).
  { rewrite bin_warnings_nil. split.
    - intros H j Hj. apply (H (j, column 0%Q X j)).
      rewrite <- (nth_columns 0%Q X j [] Hj).
      apply In_enumerate_nth. now rewrite length_columns.
    - intros H ic Hic. apply In_enumerate_columns in Hic. destruct Hic as [Hi ->].
      now apply H. }
  split; [exact Hn |]. split; [now rewrite length_map |].
  split.
  { intros j Hj. rewrite (Hnth j Hj). specialize (Hc j Hj). unfold effective_bins. lia. }
  split; [exact Hw |]. split.
  - rewrite Hw. split; intros H j Hj; specialize (H j Hj).
    + rewrite (Hnth j Hj). unfold effective_bins. lia.
    + rewrite (Hnth j Hj) in H. unfold effective_bins in H. lia.
  - rewrite <- Hlen. apply length_bin_warnings.
Qed.

Lemma adjust_bin_counts_returns_witness :
  2 <= 3 /\
  length [3; 2] = n_cols Sample.X /\
  (forall j, (j < n_cols Sample.X)%nat ->
     2 <= nth j [3; 2] 0 <= 3 /\
     nth j [3; 2] 0 <= n_distinct (column 0%Q Sample.X j) /\
     (nth j [3; 2] 0 = 3 \/ nth j [3; 2] 0 = n_distinct (column 0%Q Sample.X j))) /\
  ([msg_fewer_bins 1] = [] <->
   forall j, (j < n_cols Sample.X)%nat -> 3 <= n_distinct (column 0%Q Sample.X j)) /\
  ([msg_fewer_bins 1] = [] <->
   forall j, (j < n_cols Sample.X)%nat -> nth j [3; 2] 0 = 3) /\
  (length [msg_fewer_bins 1] <= n_cols Sample.X)%nat.
Proof.
  apply (adjust_bin_counts_returns Sample.X 3 [msg_fewer_bins 1] [3; 2]).
  vm_compute. reflexivity.
Defined.

(** [compute_quantile_bin_edges] returns on exactly these inputs: a 2-D
    matrix, [n_bins] of 2 or more, and two distinct values or more in
    every column.  A matrix without columns gets the empty list of edges,
    and a matrix with columns but without rows is refused, as its columns
    have no two distinct values. *)
Theorem compute_quantile_bin_edges_domain (X : ndarray Q) (n_bins : Z) :
  ((exists ws edges, compute_quantile_bin_edges X n_bins = (ws, Ok edges)) <->
   ndim X = 2%nat /\ 2 <= n_bins /\
   forall j, (j < n_cols X)%nat -> 2 <= n_distinct (column 0%Q X j)) /\
  (ndim X = 2%nat -> 2 <= n_bins -> n_cols X = 0%nat ->
   compute_quantile_bin_edges X n_bins = ([], Ok [])) /\
  (ndim X = 2%nat -> 2 <= n_bins -> (0 < n_cols X)%nat -> n_rows X = 0%nat ->
   compute_quantile_bin_edges X n_bins = ([], Raise (ValueError (msg_constant_column 0)))).
Proof.
  split; [split |].
  - intros [ws [edges E]].
    assert (Hok : is_Ok (snd (compute_quantile_bin_edges X n_bins)) = true) by now rewrite E.
    split; [| split].
    + unfold compute_quantile_bin_edges in Hok.
      destruct (Nat.eqb_spec (ndim X) 2) as [H | H]; [exact H | discriminate Hok].
    + destruct (Z_lt_le_dec n_bins 2) as [Hlt | Hge]; [| exact Hge].
      rewrite (compute_quantile_bin_edges_n_bins X n_bins Hlt) in Hok. discriminate.
    + intros j Hj.
      destruct (Z_lt_le_dec (n_distinct (column 0%Q X j)) 2) as [Hlt | Hge]; [| exact Hge].
      rewrite (compute_quantile_bin_edges_constant X n_bins j Hj Hlt) in Hok. discriminate.
  - intros [Hdim [Hn Hc]]. rewrite compute_quantile_bin_edges_Ok by assumption.
    now do 2 eexists.
  - split.
    + intros Hdim Hn H0. rewrite compute_quantile_bin_edges_Ok; [| assumption | assumption | lia].
      unfold columns. rewrite H0. reflexivity.
    + intros Hdim Hn Hpos Hrows. unfold compute_quantile_bin_edges, _adjust_bin_counts.
      rewrite Hdim. cbn [Nat.eqb negb].
      destruct (Z.ltb_spec n_bins 2); [lia |].
      unfold columns, column. rewrite Hrows.
      destruct (n_cols X) as [| c]; [lia |]. reflexivity.
Qed.

Lemma compute_quantile_bin_edges_domain_witness :
  (exists ws edges, compute_quantile_bin_edges Sample.X 5 = (ws, Ok edges)) /\
  compute_quantile_bin_edges Sample.X_no_column 5 = ([], Ok []) /\
  compute_quantile_bin_edges (mk_ndarray [0%nat; 2%nat] []) 5
  = ([], Raise (ValueError (msg_constant_column 0))).
Proof.
  split; [| split].
  - apply (proj2 (proj1 (compute_quantile_bin_edges_domain Sample.X 5))).
    split; [reflexivity |]. split; [lia |].
    intros [| [| j]] Hj; [vm_compute; discriminate | vm_compute; discriminate |].
    cbv in Hj. lia.
  - apply (proj1 (proj2 (compute_quantile_bin_edges_domain Sample.X_no_column 5)));
      [reflexivity | lia | reflexivity].
  - apply (proj2 (proj2 (compute_quantile_bin_edges_domain (mk_ndarray [0%nat; 2%nat] []) 5)));
      [reflexivity | lia | cbv; lia | reflexivity].
Defined.

(** * The indices that the bin values take *)

Lemma torch_stack1_Ok_nonempty {A : Type} (d : A) (cols : list (list A)) (V : ndarray A) :
  torch_stack1 d cols = Ok V -> cols <> [].
Proof.
  destruct cols; [discriminate | congruence].
Qed.

Lemma getitem_Ok_range (l : list Q) (i : Z) (y : Q) :
  getitem l i = Ok y -> - Z.of_nat (length l) <= i < Z.of_nat (length l).
Proof.
  unfold getitem, normalize_index.
  destruct (Z.ltb_spec i (- Z.of_nat (length l))); cbn [orb bind]; [discriminate |].
  destruct (Z.leb_spec (Z.of_nat (length l)) i); cbn [bind]; [discriminate |]. lia.
Qed.

(** The loop body returns only for indices with both of their edges. *)
Lemma column_bin_values_inv (dt : torch.dtype) (c_i : nat) (c_values : list float_value)
    (c_indices : list Z) (c_bin_edges : list Q) (r : list float_value) :
  fits dt (Z.of_nat (length c_bin_edges)) ->
  column_bin_values dt c_i c_values c_indices c_bin_edges = Ok r ->
  forall i, In i c_indices ->
    - Z.of_nat (length c_bin_edges) <= i /\ i + 1 < Z.of_nat (length c_bin_edges).
Proof.
  unfold column_bin_values. intros Hlen E i Hi.
  destruct (any _) eqn:Ea; [discriminate |].
  rewrite any_map in Ea.
  assert (Hup : wrap dt (i + 1) < Z.of_nat (length c_bin_edges)).
  { destruct (In_nth _ _ 0 Hi) as [k [Hk Ek]].
    pose proof (existsb_nth _ c_indices 0 Hk Ea) as Hup. rewrite Ek in Hup.
    now apply Z.leb_gt in Hup. }
  destruct (mapM (getitem c_bin_edges) c_indices) as [ls | e] eqn:El; cbn [bind] in E;
    [| discriminate].
  assert (Hr : - Z.of_nat (length c_bin_edges) <= i < Z.of_nat (length c_bin_edges)).
  { destruct (getitem c_bin_edges i) as [y | e] eqn:Eg.
    - exact (getitem_Ok_range _ _ _ Eg).
    - pose proof (mapM_Raise (getitem c_bin_edges) c_indices i Hi) as Hr.
      rewrite Eg, El in Hr. specialize (Hr eq_refl). discriminate Hr. }
  split; [lia |].
  destruct (Z_lt_le_dec (i + 1) (Z.of_nat (length c_bin_edges))) as [H | H]; [exact H |].
  replace (i + 1) with (Z.of_nat (length c_bin_edges)) in Hup by lia.
  rewrite (wrap_fits dt _ Hlen) in Hup. lia.
Qed.

Lemma fits_zero (dt : torch.dtype) : is_index_dtype dt = true -> fits dt 0.
Proof.
  unfold fits. destruct dt; try discriminate; cbn [torch.int_range]; lia.
Qed.

Section BinValuesDomain.

Variable other_index_dtype : Matrix -> Matrix -> list (list Q) -> result (ndarray float_value).

Local Abbreviation bin_values := (compute_piecewise_linear_bin_values other_index_dtype).

(** For a floating-point matrix, a tensor of 32-bit or of 64-bit integers
    as indices, and edge sequences whose lengths are values of the dtype
    of the indices, [compute_piecewise_linear_bin_values] returns on
    exactly these inputs: a 2-D matrix with at least one column, indices
    of the same shape, one edge sequence for each column, and every index
    [i] of a column with [-len <= i] and [i + 1 < len] for the length
    [len] of its edge sequence.  On every other such input it raises. *)
Theorem compute_piecewise_linear_bin_values_domain (dt : torch.dtype) (X : Matrix)
    (indices : ndarray Z) (bin_edges : list (list Q)) :
  torch.is_floating_point (matrix_dtype X) = true ->
  is_index_dtype dt = true ->
  (forall k, In k (data indices) -> fits dt k) ->
  (forall edges, In edges bin_edges -> fits dt (Z.of_nat (length edges))) ->
  ((exists V, bin_values X (int_matrix dt indices) bin_edges = Ok V) <->
   ndim X = 2%nat /\ shape indices = shape X /\ (0 < n_cols X)%nat /\
   length bin_edges = n_cols X /\
   forall i j, (i < n_rows X)%nat -> (j < n_cols X)%nat ->
     - Z.of_nat (length (nth j bin_edges [])) <= get2 0 indices i j /\
     get2 0 indices i j + 1 < Z.of_nat (length (nth j bin_edges []))).
Proof.
  intros _ Hdt Hidx Hedges. split.
  - intros [V E]. unfold compute_piecewise_linear_bin_values in E.
    destruct (Nat.eqb_spec (ndim X) 2) as [Hdim | Hdim]; cbn [negb] in E; [| discriminate].
    unfold shape_eqb in E.
    destruct (list_eq_dec Nat.eq_dec (shape X) (shape (int_matrix dt indices)))
      as [Hsh | Hsh]; cbn [negb] in E; [| discriminate].
    destruct (Nat.eqb_spec (n_cols X) (length bin_edges)) as [Hlen | Hlen];
      cbn [negb] in E; [| discriminate].
    cbn [matrix_dtype int_matrix] in E. rewrite Hdt in E. cbn [negb] in E.
    apply bind_Ok in E. destruct E as [values_list [Em Es]].
    apply torch_stack1_Ok_nonempty in Es.
    destruct (mapM_inv _ _ _ Em) as [Hl Hnth].
    change (shape (int_matrix dt indices)) with (shape indices) in Hsh.
    assert (Hcols : n_cols (int_matrix dt indices) = n_cols X)
      by (unfold n_cols; cbn [int_matrix entries shape]; now rewrite Hsh).
    assert (Hrows : n_rows indices = n_rows X) by (unfold n_rows; now rewrite Hsh).
    set (zs := zip3 (columns (real 0) X) (columns (real 0) (int_matrix dt indices))
                 bin_edges) in *.
    assert (Hzs : length zs = n_cols X).
    { unfold zs, zip3. rewrite !length_combine, !length_columns. lia. }
    assert (Hen : length (enumerate zs) = n_cols X)
      by (unfold enumerate; rewrite length_combine, length_seq; lia).
    rewrite Hen in Hl, Hnth.
    split; [exact Hdim |]. split; [now symmetry |]. split.
    { destruct values_list; [congruence | simpl in Hl; lia]. }
    split; [now symmetry |].
    intros i j Hi Hj.
    specialize (Hnth j (0%nat, ([], [], [])) [] Hj).
    rewrite nth_enumerate in Hnth by lia.
    assert (Ez : nth j zs ([], [], [])
                 = (column (real 0) X j, column (real 0) (int_matrix dt indices) j,
                    nth j bin_edges [])).
    { unfold zs, zip3.
      rewrite combine_nth by (rewrite length_combine, !length_columns; lia).
      rewrite combine_nth by (rewrite !length_columns; lia).
      rewrite !nth_columns by lia. reflexivity. }
    rewrite Ez in Hnth. rewrite column_int_matrix in Hnth.
    assert (Hj' : (j < length bin_edges)%nat) by lia.
    apply (column_bin_values_inv _ _ _ _ _ _ (Hedges _ (nth_In _ _ Hj')) Hnth).
    apply In_get2_column. lia.
  - intros [Hdim [Hsh [Hpos [Hlen Hin]]]].
    destruct (compute_piecewise_linear_bin_values_int other_index_dtype dt X indices
                bin_edges Hdt Hdim Hsh Hpos Hlen) as [V [E _]].
    + intros j Hj. apply Hedges, nth_In. lia.
    + intros i j Hi Hj. split; [| now apply Hin].
      unfold get2. destruct (nth_in_or_default (i * n_cols indices + j) (data indices) 0)
        as [H | ->]; [now apply Hidx | now apply fits_zero].
    + now exists V.
Qed.

End BinValuesDomain.

Lemma compute_piecewise_linear_bin_values_domain_witness :
  (exists V, compute_piecewise_linear_bin_values Sample.no_index
               (float_matrix torch.float32 Sample.X_beyond)
               (int_matrix torch.int64 Sample.first_bins) Sample.bin_edges = Ok V) /\
  ~ (exists V, compute_piecewise_linear_bin_values Sample.no_index
                 (float_matrix torch.float32 Sample.X_one)
                 (int_matrix torch.int64 Sample.index_before_start) [[0; 1]%Q] = Ok V).
Proof.
  assert (Hfit : forall (l : list Z) k, forallb (fun v => (- 2 ^ 63 <=? v) && (v <=? 2 ^ 63 - 1)) l = true ->
            In k l -> fits torch.int64 k).
  { intros l k Hl Hk. rewrite forallb_forall in Hl. specialize (Hl k Hk).
    apply andb_true_iff in Hl. destruct Hl as [H1 H2]. apply Z.leb_le in H1, H2.
    unfold fits. cbn [torch.int_range]. lia. }
  split.
  - apply (compute_piecewise_linear_bin_values_domain Sample.no_index torch.int64
             (float_matrix torch.float32 Sample.X_beyond) Sample.first_bins Sample.bin_edges).
    + reflexivity.
    + reflexivity.
    + intros k. apply Hfit. reflexivity.
    + intros e He.
      apply (Hfit (map (fun x : list Q => Z.of_nat (length x)) Sample.bin_edges));
        [reflexivity | exact (in_map (fun x : list Q => Z.of_nat (length x)) _ e He)].
    + split; [reflexivity |]. split; [reflexivity |]. split; [cbv; lia |].
      split; [reflexivity |].
      intros [| i] [| [| j]] Hi Hj; try (cbv in Hi; lia); try (cbv in Hj; lia);
        vm_compute; (split; [discriminate | reflexivity]).
  - intros H.
    apply (compute_piecewise_linear_bin_values_domain Sample.no_index torch.int64
             (float_matrix torch.float32 Sample.X_one) Sample.index_before_start
             [[0; 1]%Q]) in H.
    + destruct H as [_ [_ [_ [_ H]]]].
      specialize (H 0%nat 0%nat ltac:(cbv; lia) ltac:(cbv; lia)).
      vm_compute in H. destruct H as [H _]. now apply H.
    + reflexivity.
    + reflexivity.
    + intros k. apply Hfit. reflexivity.
    + intros e He.
      apply (Hfit (map (fun x : list Q => Z.of_nat (length x)) [[0; 1]%Q]));
        [reflexivity | exact (in_map (fun x : list Q => Z.of_nat (length x)) _ e He)].
Defined.

(** * Binning with the edges of decision trees *)

Lemma strictly_increasing_NoDup (edges : list Q) :
  strictly_increasing edges -> NoDup edges.
Proof.
  intros Hinc. apply (NoDup_nth edges 0%Q). intros i j Hi Hj E.
  destruct (lt_eq_lt_dec i j) as [[H | H] | H]; [| exact H |]; exfalso.
  - pose proof (Hinc i j ltac:(lia)) as Hlt. rewrite E in Hlt.
    exact (Qlt_irrefl _ Hlt).
  - pose proof (Hinc j i ltac:(lia)) as Hlt. rewrite E in Hlt.
    exact (Qlt_irrefl _ Hlt).
Qed.

(** The edges of the tree of a column with two distinct values or more:
    at least two, at most two more than the tree has split nodes, and all
    the values of the column lie between the first and the last one. *)
Lemma tree_edges_of_span (tree : Tree) (column edges : list Q) :
  2 <= n_distinct column ->
  tree_edges_of tree column edges ->
  (2 <= length edges <= length (split_thresholds tree) + 2)%nat /\
  forall x, In x column -> (nth 0 edges 0 <= x <= nth (length edges - 1) edges 0)%Q.
Proof.
  intros Hc [mn [mx [[_ Hmin] [[_ Hmax] [Hinc [Hsound Hcomplete]]]]]].
  destruct (n_distinct_two column Hc) as [x [y [Hx [Hy Hxy]]]].
  assert (Hlt : (mn < mx)%Q).
  { apply Qle_lt_trans with x; [now apply Hmin |].
    apply Qlt_le_trans with y; [exact Hxy | now apply Hmax]. }
  destruct (Hcomplete mn (or_introl eq_refl)) as [v1 [Hv1 E1]].
  destruct (Hcomplete mx (or_intror (or_introl eq_refl))) as [v2 [Hv2 E2]].
  destruct (In_nth _ _ 0%Q Hv1) as [p1 [Hp1 N1]].
  destruct (In_nth _ _ 0%Q Hv2) as [p2 [Hp2 N2]].
  assert (Hlen : (2 <= length edges)%nat).
  { destruct (le_lt_dec 2 (length edges)) as [H | H]; [exact H | exfalso].
    assert (p1 = p2) by lia. subst p2. rewrite N1 in N2. subst v2.
    rewrite E1 in E2. rewrite E2 in Hlt. exact (Qlt_irrefl _ Hlt). }
  split; [split; [exact Hlen |] |].
  - change (length (split_thresholds tree) + 2)%nat
      with (length (split_thresholds tree) + length [mn; mx])%nat.
    rewrite <- length_app.
    apply NoDup_incl_length; [now apply strictly_increasing_NoDup |].
    intros v Hv. apply in_or_app.
    destruct (Hsound v Hv) as [-> | [-> | Hnd]].
    + right. now left.
    + right. right. now left.
    + left. now apply In_split_thresholds.
  - intros v Hv. split.
    + apply Qle_trans with mn; [| now apply Hmin].
      rewrite <- E1, <- N1. apply strictly_increasing_le; [exact Hinc | lia].
    + apply Qle_trans with mx; [now apply Hmax |].
      rewrite <- E2, <- N2. apply strictly_increasing_le; [exact Hinc | lia].
Qed.

Section TreeBinning.

Variable target : Type.
Variable len : target -> nat.
Variable Any : Type.
Variable fit : bool -> Z -> list (string * Any) -> list Q -> target -> Tree.
Variable other_index_dtype : Matrix -> Matrix -> list (list Q) -> result (ndarray float_value).

Local Abbreviation bin_values := (compute_piecewise_linear_bin_values other_index_dtype).

(** Binning a floating-point matrix of reals with the edges of its own
    decision trees: whenever [compute_decision_tree_bin_edges] returns
    edges for a matrix with a column or more, [compute_bin_indices] and
    [compute_piecewise_linear_bin_values] return on these edges, every
    column has at least two edges and at most two more than its tree has
    split nodes, every index is a bin of its column, and every bin value
    is a fraction of [0, 1]. *)
Theorem tree_binning_of_training_data (dt : torch.dtype) (X : ndarray Q) (n_bins : Z)
    (y : target) (regression : bool) (tree_kwargs : list (string * Any))
    (ws : list string) (edges : list (list Q)) :
  compute_decision_tree_bin_edges target len Any fit X n_bins y regression tree_kwargs
  = (ws, Ok edges) ->
  torch.is_floating_point dt = true ->
  (0 < n_cols X)%nat ->
  (forall j, (j < n_cols X)%nat -> fits torch.int64 (Z.of_nat (length (nth j edges [])))) ->
  exists I V,
    compute_bin_indices (float_matrix dt X) edges = Ok I /\
    bin_values (float_matrix dt X) (int_matrix torch.int64 I) edges = Ok V /\
    (forall j, (j < n_cols X)%nat ->
       (2 <= length (nth j edges [])
        <= length (split_thresholds
                     (fit regression (effective_bins n_bins (column 0%Q X j)) tree_kwargs
                          (column 0%Q X j) y)) + 2)%nat) /\
    forall i j, (i < n_rows X)%nat -> (j < n_cols X)%nat ->
      0 <= get2 0 I i j <= Z.of_nat (length (nth j edges [])) - 2 /\
      exists v : Q, get2 (real 0) V i j = real v /\ (0 <= v <= 1)%Q.
Proof.
  intros Eedges Hdt Hpos Hfit.
  destruct (compute_decision_tree_bin_edges_inv target len Any fit X n_bins y regression
              tree_kwargs ws edges Eedges) as [Hdim [Hrows [Hkw [Hn Hc]]]].
  destruct (compute_decision_tree_bin_edges_Ok target len Any fit X n_bins y regression
              tree_kwargs Hdim Hrows Hkw Hn Hc) as [edges' [E [Hlen Hspec]]].
  rewrite Eedges in E. injection E as _ <-.
  assert (Hspan : forall j, (j < n_cols X)%nat ->
            (2 <= length (nth j edges [])
             <= length (split_thresholds
                          (fit regression (effective_bins n_bins (column 0%Q X j)) tree_kwargs
                               (column 0%Q X j) y)) + 2)%nat /\
            forall x, In x (column 0%Q X j) ->
              (nth 0 (nth j edges []) 0 <= x
               <= nth (length (nth j edges []) - 1) (nth j edges []) 0)%Q).
  { intros j Hj. apply tree_edges_of_span; [now apply Hc | now apply Hspec]. }
  assert (HL : forall j, (j < n_cols X)%nat ->
            (2 <= length (nth j edges []))%nat /\
            fits torch.int64 (Z.of_nat (length (nth j edges []))))
    by (intros j Hj; split; [apply (Hspan j Hj) | now apply Hfit]).
  destruct (bin_indices_then_values other_index_dtype dt X edges Hdt Hdim Hpos Hlen HL)
    as [I [V [EI [EV [_ [_ H]]]]]].
  exists I, V.
  do 2 (split; [assumption |]).
  split; [intros j Hj; apply (Hspan j Hj) |].
  intros i j Hi Hj. destruct (H i j Hi Hj) as [[Hk [Hlo Hhi]] Hv].
  split; [exact Hk |].
  destruct (Hspan j Hj) as [_ Hx].
  destruct (Hx (get2 0%Q X i j) (In_get2_column 0%Q X i j Hi)) as [Hx0 Hx1].
  assert (Hinc : strictly_increasing (nth j edges [])).
  { destruct (Hspec j Hj) as [mn [mx [_ [_ [Hinc _]]]]]. exact Hinc. }
  exists (bin_fraction (nth j edges []) (get2 0%Q X i j) (get2 0 I i j)).
  split; [rewrite Hv; now apply bin_value_real, bin_edges_differ |].
  destruct (bin_fraction_sign _ (get2 0%Q X i j) _ Hinc Hk) as [S1 [_ [S3 _]]].
  rewrite !edge_at_nonneg in S1, S3 by lia.
  split.
  - apply S1. destruct Hlo as [E0 | Hlo]; [now rewrite E0 | exact Hlo].
  - apply S3. destruct Hhi as [E1 | Hhi]; [| now apply Qlt_le_weak].
    replace (Z.to_nat (get2 0 I i j + 1)) with (length (nth j edges []) - 1)%nat by lia.
    exact Hx1.
Qed.

End TreeBinning.

Lemma tree_binning_of_training_data_witness :
  exists ws edges,
    compute_decision_tree_bin_edges (list Q) (@length Q) unit Sample.stump
      Sample.X 5 Sample.y true [] = (ws, Ok edges) /\
    exists I V,
      compute_bin_indices (float_matrix torch.float32 Sample.X) edges = Ok I /\
      compute_piecewise_linear_bin_values Sample.no_index
        (float_matrix torch.float32 Sample.X) (int_matrix torch.int64 I) edges = Ok V /\
      (forall j, (j < n_cols Sample.X)%nat ->
         (2 <= length (nth j edges [])
          <= length (split_thresholds
                       (Sample.stump true (effective_bins 5 (column 0%Q Sample.X j)) []
                          (column 0%Q Sample.X j) Sample.y)) + 2)%nat) /\
      forall i j, (i < n_rows Sample.X)%nat -> (j < n_cols Sample.X)%nat ->
        0 <= get2 0 I i j <= Z.of_nat (length (nth j edges [])) - 2 /\
        exists v : Q, get2 (real 0) V i j = real v /\ (0 <= v <= 1)%Q.
Proof.
  do 2 eexists. split; [reflexivity |].
  eapply (tree_binning_of_training_data (list Q) (@length Q) unit Sample.stump
            Sample.no_index torch.float32 Sample.X 5 Sample.y true []).
  - reflexivity.
  - reflexivity.
  - cbv. lia.
  - intros [| [| j]] Hj; [vm_compute; split; discriminate | vm_compute; split; discriminate |].
    cbv in Hj. lia.
Defined.

(** * The scalar class of a dtype *)

(** What the two substring tests of [_get_scalar_class] amount to: the
    integer dtypes, [uint8] included, give [int]; the floating-point
    dtypes, [bfloat16] included, give [float]; the complex dtypes and
    [bool] are refused.  So [ordinal_binary_encoding] stops at
    'unsupported dtype' for the latter and at the dtype guard of
    [_LVR_encoding] for the others, whatever the indices.  A numpy class
    that has the name of a dtype is resolved to that dtype. *)
Theorem get_scalar_class_by_kind (d : torch.dtype) :
  _get_scalar_class d
  = (match torch.int_range d with
     | Some _ => Ok py_int
     | None => if torch.is_floating_point d then Ok py_float
               else Raise (ValueError "unsupported dtype")
     end) /\
  _get_torch_dtype (np_number (torch.name d)) = Ok d /\
  forall indices d_encoding,
    ordinal_binary_encoding indices d_encoding (torch_dtype d)
    = Raise (ValueError (match torch.int_range d with
                         | Some _ => msg_dtype
                         | None => if torch.is_floating_point d then msg_dtype
                                   else "unsupported dtype"
                         end)).
Proof.
  split; [destruct d; reflexivity |].
  split; [destruct d; reflexivity |].
  intros indices d_encoding.
  destruct (_get_scalar_class d) as [cls | e] eqn:E.
  - rewrite (ordinal_binary_encoding_supported indices d_encoding (torch_dtype d) d cls eq_refl E).
    destruct d; try reflexivity; discriminate E.
  - unfold ordinal_binary_encoding. cbn [_get_torch_dtype bind]. rewrite E. cbn [bind].
    destruct d; try discriminate E; injection E as <-; reflexivity.
Qed.

(** * The constructors of the backbones *)

Lemma range_pos (n : Z) :
  1 <= n -> range n = 0 :: map Z.of_nat (seq 1 (Z.to_nat n - 1)).
Proof.
  intros Hn. unfold range. destruct (Z.to_nat n) as [| k] eqn:E; [lia |].
  cbn [seq map Z.of_nat]. now rewrite Nat.sub_succ, Nat.sub_0_r.
Qed.

Lemma length_range (n : Z) : length (range n) = Z.to_nat n.
Proof.
  unfold range. now rewrite length_map, length_seq.
Qed.

Lemma eq_str_true (o : option string) (s : string) : eq_str o s = true <-> o = Some s.
Proof.
  destruct o as [s' |]; simpl; [| split; discriminate].
  rewrite String.eqb_eq. split; [now intros -> | now intros [= ->]].
Qed.

Lemma eq_str_false (o : option string) (s : string) : eq_str o s = false <-> o <> Some s.
Proof.
  rewrite <- (eq_str_true o s). destruct (eq_str o s); split; congruence.
Qed.

Lemma mapM_nth_error {A B : Type} (f : A -> result B) (l : list A) (bs : list B) :
  mapM f l = Ok bs ->
  length bs = length l /\
  forall k x, nth_error l k = Some x -> exists y, nth_error bs k = Some y /\ f x = Ok y.
Proof.
  revert bs. induction l as [| a l IH]; simpl; intros bs E.
  - injection E as <-. split; [reflexivity |]. intros [| k] x H; discriminate H.
  - destruct (f a) as [y | e] eqn:Ea; simpl in E; [| discriminate].
    destruct (mapM f l) as [ys | e]; simpl in E; [| discriminate].
    injection E as <-. destruct (IH ys eq_refl) as [Hlen Hnth].
    split; [simpl; now rewrite Hlen |].
    intros [| k] x H; simpl in H.
    + injection H as <-. now exists y.
    + now apply Hnth.
Qed.

Lemma nth_error_enumerate {A : Type} (l : list A) (k : nat) (x : A) :
  nth_error l k = Some x -> nth_error (enumerate l) k = Some (k, x).
Proof.
  intros H.
  assert (Hk : (k < length l)%nat) by (apply nth_error_Some; congruence).
  rewrite (nth_error_nth' (enumerate l) (0%nat, x))
    by (unfold enumerate; rewrite length_combine, length_seq; lia).
  rewrite nth_enumerate by exact Hk.
  now rewrite (nth_error_nth _ _ _ H).
Qed.

Section BackbonesFacts.

Variable nn_Module : Type.
Variable callable : Type.
Variable is_ReGLU : callable -> bool.
Variable make_nn_module : option (ModuleType callable) -> list Z -> result nn_Module.
Variable nn_Linear : Z -> Z -> bool -> result nn_Module.
Variable nn_Dropout : scalar -> result nn_Module.
Variable MultiheadAttention :
  Z -> Z -> scalar -> option scalar -> option string -> option Z -> result nn_Module.
Variable all_or_none :
  option Z -> option string -> option (ModuleType callable) ->
  option (ModuleType callable) -> result bool.

Local Abbreviation MLP_init' :=
  (MLP_init nn_Module callable make_nn_module nn_Linear nn_Dropout).
Local Abbreviation MLP_make_baseline' :=
  (MLP_make_baseline nn_Module callable make_nn_module nn_Linear nn_Dropout).
Local Abbreviation ResNet_init' :=
  (ResNet_init nn_Module callable make_nn_module nn_Linear nn_Dropout).
Local Abbreviation ResNet_make_baseline' :=
  (ResNet_make_baseline nn_Module callable make_nn_module nn_Linear nn_Dropout).
Local Abbreviation Transformer_init' :=
  (Transformer_init nn_Module callable is_ReGLU make_nn_module nn_Linear nn_Dropout
     MultiheadAttention all_or_none).
Local Abbreviation Transformer_make_baseline' :=
  (Transformer_make_baseline nn_Module callable is_ReGLU make_nn_module nn_Linear
     nn_Dropout MultiheadAttention all_or_none).

(** ** Transformer *)

Section TransformerArguments.

Variable WARNINGS : Transformer_WARNINGS.
Variables (d_embedding : Z) (d_out : option Z) (n_blocks : Z).
Variables (attention_n_heads : Z) (attention_dropout : scalar).
Variables (attention_normalization : ModuleType callable).
Variables (attention_residual_dropout : scalar).
Variables (ffn_d_hidden : Z) (ffn_dropout : scalar).
Variables (ffn_activation ffn_normalization : ModuleType callable).
Variables (ffn_residual_dropout : scalar).
Variables (prenormalization first_prenormalization : bool).
Variables (pooling : option string) (cls_token_index : option Z).
Variables (last_block_cls_only : bool).
Variables (head_activation head_normalization : option (ModuleType callable)).
Variables (linformer_compression_ratio : option scalar).
Variables (linformer_sharing_policy : option string) (n_tokens : option Z).

Local Abbreviation the_Transformer :=
  (Transformer_init' WARNINGS d_embedding d_out n_blocks attention_n_heads
     attention_dropout attention_normalization attention_residual_dropout
     ffn_d_hidden ffn_dropout ffn_activation ffn_normalization ffn_residual_dropout
     prenormalization first_prenormalization pooling cls_token_index last_block_cls_only
     head_activation head_normalization linformer_compression_ratio
     linformer_sharing_policy n_tokens).

(** The warnings of a call that passes the checks of the arguments. *)
Local Abbreviation the_warnings :=
  ((if negb prenormalization && WARNINGS_prenormalization WARNINGS
    then [warning_prenormalization] else [])
   ++ (if prenormalization && first_prenormalization
          && WARNINGS_first_prenormalization WARNINGS
       then [warning_first_prenormalization] else []))%list.

(** Once the arguments have passed the checks, the first block is to be
    built, and for it [self.prenormalization] is read, which nothing has
    assigned. *)
Lemma Transformer_init_checked :
  1 <= n_blocks ->
  (pooling = Some "cls" /\ cls_token_index <> None) \/
  (pooling = Some "avg" /\ last_block_cls_only = false) ->
  all_or_none d_out pooling head_activation head_normalization = Ok true ->
  (prenormalization = false -> first_prenormalization = false) ->
  the_Transformer = (the_warnings, Raise AttributeError).
Proof.
  intros Hn Hp Ha Hf. unfold Transformer_init.
  destruct (Z.ltb_spec n_blocks 1) as [H | _]; [lia |].
  assert (E1 : eq_str pooling "cls" && is_None cls_token_index = false).
  { destruct Hp as [[-> Hc] | [-> _]]; [| reflexivity].
    destruct cls_token_index; [reflexivity | congruence]. }
  assert (E2 : negb (eq_str pooling "cls") && last_block_cls_only = false).
  { destruct Hp as [[-> _] | [-> ->]]; reflexivity. }
  assert (E3 : negb (eq_str pooling "cls" || eq_str pooling "avg") = false).
  { destruct Hp as [[-> _] | [-> _]]; reflexivity. }
  rewrite E1, E2, E3, Ha. cbn [negb].
  assert (E4 : negb prenormalization && first_prenormalization = false).
  { destruct prenormalization; [reflexivity |]. now rewrite Hf. }
  rewrite E4. rewrite (range_pos n_blocks Hn). reflexivity.
Qed.

Lemma Transformer_init_raises : is_Ok (snd the_Transformer) = false.
Proof.
  unfold Transformer_init.
  destruct (Z.ltb_spec n_blocks 1) as [H | Hn]; [reflexivity |].
  destruct (eq_str pooling "cls" && is_None cls_token_index); [reflexivity |].
  destruct (negb (eq_str pooling "cls") && last_block_cls_only); [reflexivity |].
  destruct (negb (eq_str pooling "cls" || eq_str pooling "avg")); [reflexivity |].
  destruct (all_or_none d_out pooling head_activation head_normalization) as [[|] | e];
    [| reflexivity | reflexivity].
  cbn [negb].
  destruct (negb prenormalization && first_prenormalization); [reflexivity |].
  rewrite (range_pos n_blocks ltac:(lia)). reflexivity.
Qed.

(** A pooling that is neither ['cls'] nor ['avg'], [None] included, is
    refused before anything else is looked at. *)
Lemma Transformer_init_pooling :
  1 <= n_blocks ->
  pooling <> Some "cls" -> pooling <> Some "avg" ->
  the_Transformer
  = quiet (Raise (ValueError (if last_block_cls_only then msg_last_block_cls_only
                              else msg_pooling))).
Proof.
  intros Hn Hc Ha. unfold Transformer_init.
  destruct (Z.ltb_spec n_blocks 1) as [H | _]; [lia |].
  apply eq_str_false in Hc, Ha. rewrite Hc, Ha. cbn [andb orb negb].
  destruct last_block_cls_only; reflexivity.
Qed.

End TransformerArguments.

(** No call of the constructor of [Transformer] returns a model, and none
    of [Transformer.make_baseline] does, whatever the arguments, the
    [WARNINGS] and the modules that the blocks are made of: a call whose
    arguments are refused raises for them, and every other call raises
    when [self.prenormalization] is read for the first block, which is
    never assigned to the model (the blocks have it, the model does
    not). *)
Theorem Transformer_is_never_constructed :
  (forall WARNINGS d_embedding d_out n_blocks attention_n_heads attention_dropout
          attention_normalization attention_residual_dropout ffn_d_hidden ffn_dropout
          ffn_activation ffn_normalization ffn_residual_dropout prenormalization
          first_prenormalization pooling cls_token_index last_block_cls_only
          head_activation head_normalization linformer_compression_ratio
          linformer_sharing_policy n_tokens,
     is_Ok (snd (Transformer_init' WARNINGS d_embedding d_out n_blocks attention_n_heads
                   attention_dropout attention_normalization attention_residual_dropout
                   ffn_d_hidden ffn_dropout ffn_activation ffn_normalization
                   ffn_residual_dropout prenormalization first_prenormalization pooling
                   cls_token_index last_block_cls_only head_activation head_normalization
                   linformer_compression_ratio linformer_sharing_policy n_tokens))
     = false) /\
  (forall WARNINGS d_embedding d_out n_blocks attention_n_heads attention_dropout
          ffn_d_hidden ffn_dropout activation residual_dropout pooling cls_token_index
          last_block_cls_only linformer_compression_ratio linformer_sharing_policy
          n_tokens,
     is_Ok (snd (Transformer_make_baseline' WARNINGS d_embedding d_out n_blocks
                   attention_n_heads attention_dropout ffn_d_hidden ffn_dropout
                   activation residual_dropout pooling cls_token_index
                   last_block_cls_only linformer_compression_ratio
                   linformer_sharing_policy n_tokens))
     = false).
Proof.
  split.
  - intros. apply Transformer_init_raises.
  - intros. unfold Transformer_make_baseline. apply Transformer_init_raises.
Qed.

(** Which error a call of the constructor of [Transformer] ends in.  With
    a positive [n_blocks], a pooling other than ['cls'] and ['avg'], [None]
    included, is refused before [all_or_none] is consulted and without a
    warning, so that a model without a head, for which [d_out] and
    [pooling] would both be [None], is refused as well.  And when all the
    checks pass, the call issues its warnings and raises
    AttributeError. *)
Theorem Transformer_init_error
    WARNINGS d_embedding d_out n_blocks attention_n_heads attention_dropout
    attention_normalization attention_residual_dropout ffn_d_hidden ffn_dropout
    ffn_activation ffn_normalization ffn_residual_dropout prenormalization
    first_prenormalization pooling cls_token_index last_block_cls_only
    head_activation head_normalization linformer_compression_ratio
    linformer_sharing_policy n_tokens :
  1 <= n_blocks ->
  (pooling <> Some "cls" -> pooling <> Some "avg" ->
   Transformer_init' WARNINGS d_embedding d_out n_blocks attention_n_heads
     attention_dropout attention_normalization attention_residual_dropout
     ffn_d_hidden ffn_dropout ffn_activation ffn_normalization ffn_residual_dropout
     prenormalization first_prenormalization pooling cls_token_index last_block_cls_only
     head_activation head_normalization linformer_compression_ratio
     linformer_sharing_policy n_tokens
   = quiet (Raise (ValueError (if last_block_cls_only then msg_last_block_cls_only
                               else msg_pooling)))) /\
  ((pooling = Some "cls" /\ cls_token_index <> None) \/
   (pooling = Some "avg" /\ last_block_cls_only = false) ->
   all_or_none d_out pooling head_activation head_normalization = Ok true ->
   (prenormalization = false -> first_prenormalization = false) ->
   Transformer_init' WARNINGS d_embedding d_out n_blocks attention_n_heads
     attention_dropout attention_normalization attention_residual_dropout
     ffn_d_hidden ffn_dropout ffn_activation ffn_normalization ffn_residual_dropout
     prenormalization first_prenormalization pooling cls_token_index last_block_cls_only
     head_activation head_normalization linformer_compression_ratio
     linformer_sharing_policy n_tokens
   = (((if negb prenormalization && WARNINGS_prenormalization WARNINGS
        then [warning_prenormalization] else [])
       ++ (if prenormalization && first_prenormalization
              && WARNINGS_first_prenormalization WARNINGS
           then [warning_first_prenormalization] else []))%list,
      Raise AttributeError)).
Proof.
  intros Hn. split.
  - intros Hc Ha. now apply Transformer_init_pooling.
  - intros Hp Ha Hf. now apply Transformer_init_checked.
Qed.

(** ** MLP *)

Lemma MLP_Block_init_linear (d_in d_out : Z) (bias : bool)
    (activation : ModuleType callable) (dropout : scalar) (b : MLP_Block nn_Module) :
  MLP_Block_init nn_Module callable make_nn_module nn_Linear nn_Dropout
    d_in d_out bias activation dropout = Ok b ->
  nn_Linear d_in d_out bias = Ok (MLP_Block_linear b).
Proof.
  unfold MLP_Block_init. intros E.
  apply bind_Ok in E. destruct E as [linear [El E]].
  apply bind_Ok in E. destruct E as [act [_ E]].
  apply bind_Ok in E. destruct E as [drop [_ E]].
  injection E as <-. exact El.
Qed.

Lemma nth_error_combine {A B : Type} (l : list A) (l' : list B) (k : nat) (x : A) :
  length l' = length l -> nth_error l k = Some x ->
  exists y, nth_error (combine l l') k = Some (x, y).
Proof.
  revert l' k. induction l as [| a l IH]; intros [| b l'] [| k] Hlen H;
    simpl in *; try discriminate.
  - injection H as <-. now exists b.
  - apply IH; [lia | exact H].
Qed.

(** What a returned [MLP] is made of: as many blocks as [d_layers] has
    entries; the linear layer of the first block takes [d_in], that of
    every other block takes the width of the block before it, and the
    head, which there is exactly when [d_out] is given, takes the last
    width. *)
Lemma MLP_init_inv (d_in : Z) (d_out : option Z) (d_layers : list Z)
    (dropouts : dropouts_arg) (activation : ModuleType callable) (m : MLP nn_Module) :
  MLP_init' d_in d_out d_layers dropouts activation = Ok m ->
  d_layers <> [] /\
  length (MLP_blocks m) = length d_layers /\
  (forall i d, nth_error d_layers i = Some d ->
     exists b, nth_error (MLP_blocks m) i = Some b /\
       nn_Linear (nth i (d_in :: d_layers) 0) d true = Ok (MLP_Block_linear b)) /\
  match d_out with
  | None => MLP_head m = None
  | Some d_out =>
      exists h, MLP_head m = Some h /\ nn_Linear (last d_layers 0) d_out true = Ok h
  end.
Proof.
  unfold MLP_init. intros E.
  destruct d_layers as [| d0 dl] eqn:Ed; [discriminate E |].
  rewrite <- Ed in *. replace (is_empty d_layers) with false in E by now rewrite Ed.
  cbn [negb] in E.
  set (ps := match dropouts with
             | dropouts_float p => repeat p (length d_layers)
             | dropouts_list l => l
             end) in *.
  destruct (Nat.eqb_spec (length ps) (length d_layers)) as [Hlen | Hlen];
    cbn [negb] in E; [| discriminate E].
  apply bind_Ok in E. destruct E as [blocks [Eb E]].
  apply bind_Ok in E. destruct E as [head [Eh E]].
  injection E as <-. cbn [MLP_blocks MLP_head].
  destruct (mapM_nth_error _ _ _ Eb) as [Hl Hnth].
  split; [rewrite Ed; discriminate |]. split.
  { rewrite Hl. unfold enumerate.
    rewrite length_combine, length_seq, Nat.min_id, length_combine. lia. }
  split.
  - intros i d Hd.
    destruct (nth_error_combine d_layers ps i d Hlen Hd) as [p Hp].
    destruct (Hnth i _ (nth_error_enumerate _ _ _ Hp)) as [b [Hb Hf]].
    exists b. split; [exact Hb |].
    apply MLP_Block_init_linear in Hf.
    destruct i as [| i]; [exact Hf |].
    cbn [Nat.eqb negb] in Hf. rewrite Nat.sub_succ, Nat.sub_0_r in Hf. exact Hf.
  - destruct d_out as [o |].
    + apply bind_Ok in Eh. destruct Eh as [h [El Eh]]. injection Eh as <-.
      now exists h.
    + now injection Eh as <-.
Qed.

(** The constructor of [MLP] refuses an empty [d_layers] and a list of
    dropouts of another length than [d_layers].  In a model that it returns
    there are as many blocks as [d_layers] has entries, the linear layer of
    block [i] is made for the input width [d_layers[i-1]] ([d_in] for the
    first block) and the output width [d_layers[i]], and there is a head
    exactly when [d_out] is given, a linear layer from the last width to
    [d_out]. *)
Theorem MLP_init_layers (d_in : Z) (d_out : option Z) (d_layers : list Z)
    (dropouts : dropouts_arg) (activation : ModuleType callable) :
  (d_layers = [] ->
   MLP_init' d_in d_out d_layers dropouts activation = Raise (ValueError msg_d_layers)) /\
  (forall l, d_layers <> [] -> length l <> length d_layers ->
     MLP_init' d_in d_out d_layers (dropouts_list l) activation
     = Raise (ValueError msg_dropouts_size)) /\
  (forall m, MLP_init' d_in d_out d_layers dropouts activation = Ok m ->
     d_layers <> [] /\
     length (MLP_blocks m) = length d_layers /\
     (forall i d, nth_error d_layers i = Some d ->
        exists b, nth_error (MLP_blocks m) i = Some b /\
          nn_Linear (nth i (d_in :: d_layers) 0) d true = Ok (MLP_Block_linear b)) /\
     match d_out with
     | None => MLP_head m = None
     | Some d_out =>
         exists h, MLP_head m = Some h /\ nn_Linear (last d_layers 0) d_out true = Ok h
     end).
Proof.
  split; [| split].
  - intros ->. reflexivity.
  - intros l Hne Hlen. unfold MLP_init.
    destruct d_layers as [| d0 dl]; [congruence |]. cbn [is_empty].
    destruct (Nat.eqb_spec (length l) (length (d0 :: dl))); [contradiction | reflexivity].
  - intros m. apply MLP_init_inv.
Qed.

(** [MLP.make_baseline] refuses an [n_blocks] of 0 or less and a dropout
    that is not a float.  A model that it returns has [n_blocks] blocks,
    whose linear layers all have the output width [d_layer]; the first one
    takes [d_in] and the others [d_layer]; the head, if [d_out] is given,
    takes [d_layer]. *)
Theorem MLP_make_baseline_layers (d_in : Z) (d_out : option Z) (n_blocks d_layer : Z)
    (dropout : Number) :
  (n_blocks <= 0 ->
   MLP_make_baseline' d_in d_out n_blocks d_layer dropout
   = Raise (ValueError msg_n_blocks)) /\
  (0 < n_blocks -> type dropout = py_int ->
   MLP_make_baseline' d_in d_out n_blocks d_layer dropout
   = Raise (ValueError msg_dropout_float)) /\
  (forall m, MLP_make_baseline' d_in d_out n_blocks d_layer dropout = Ok m ->
     0 < n_blocks /\ type dropout = py_float /\
     length (MLP_blocks m) = Z.to_nat n_blocks /\
     (forall i b, nth_error (MLP_blocks m) i = Some b ->
        nn_Linear (if (i =? 0)%nat then d_in else d_layer) d_layer true
        = Ok (MLP_Block_linear b)) /\
     match d_out with
     | None => MLP_head m = None
     | Some d_out =>
         exists h, MLP_head m = Some h /\ nn_Linear d_layer d_out true = Ok h
     end).
Proof.
  unfold MLP_make_baseline. split; [| split].
  - intros Hn. destruct (Z.leb_spec n_blocks 0); [reflexivity | lia].
  - intros Hn Ht. destruct (Z.leb_spec n_blocks 0); [lia |].
    destruct dropout; [reflexivity | discriminate Ht].
  - intros m E.
    destruct (Z.leb_spec n_blocks 0) as [| Hn]; [discriminate E |].
    destruct dropout as [z | p]; [discriminate E |].
    destruct (Z.eqb_spec n_blocks 0) as [| _]; [lia |]. cbn [negb] in E.
    destruct (MLP_init_inv _ _ _ _ _ _ E) as [_ [Hlen [Hblocks Hhead]]].
    rewrite repeat_length in Hlen.
    split; [exact Hn |]. split; [reflexivity |]. split; [exact Hlen |]. split.
    + intros i b Hb.
      assert (Hi : (i < Z.to_nat n_blocks)%nat)
        by (rewrite <- Hlen; apply nth_error_Some; congruence).
      assert (Hd : nth_error (repeat d_layer (Z.to_nat n_blocks)) i = Some d_layer).
      { rewrite (nth_error_nth' _ d_layer) by (rewrite repeat_length; exact Hi).
        now rewrite nth_repeat. }
      destruct (Hblocks i d_layer Hd) as [b' [Hb' Hl]].
      rewrite Hb in Hb'. injection Hb' as <-.
      destruct i as [| i]; [exact Hl |].
      cbn [nth] in Hl. cbn [Nat.eqb]. now rewrite nth_repeat_lt in Hl by lia.
    + destruct d_out as [o |]; [| exact Hhead].
      destruct Hhead as [h [Hh Hl]]. exists h. split; [exact Hh |].
      replace (last (repeat d_layer (Z.to_nat n_blocks)) 0) with d_layer in Hl; [exact Hl |].
      destruct (Z.to_nat n_blocks) as [| k] eqn:Ek; [lia |].
      clear. induction k as [| k IH]; [reflexivity |].
      change (repeat d_layer (S (S k))) with (d_layer :: repeat d_layer (S k)).
      rewrite IH at 1. reflexivity.
Qed.

(** ** ResNet *)

(** The constructor of [ResNet] checks nothing by itself.  A model that it
    returns has [n_blocks] blocks for a positive [n_blocks] and none
    otherwise: an [n_blocks] of 0 or less, which the other two backbones
    refuse, gives a model without blocks.  The first layer goes from [d_in]
    to [d_main], every block from [d_main] to [d_hidden] and back to
    [d_main] with its skip connection on, and the head, which there is
    exactly when [d_out] is given, is made for the input width
    [d_main]. *)
Theorem ResNet_init_layers (d_in : Z) (d_out : option Z) (n_blocks d_main d_hidden : Z)
    (dropout_first dropout_second : scalar) (normalization activation : ModuleType callable) :
  (forall r,
     ResNet_init' d_in d_out n_blocks d_main d_hidden dropout_first dropout_second
       normalization activation = Ok r ->
     length (ResNet_blocks r) = Z.to_nat n_blocks /\
     nn_Linear d_in d_main true = Ok (ResNet_first_layer r) /\
     (forall b, In b (ResNet_blocks r) ->
        nn_Linear d_main d_hidden true = Ok (ResNet_Block_linear_first nn_Module b) /\
        nn_Linear d_hidden d_main true = Ok (ResNet_Block_linear_second nn_Module b) /\
        ResNet_Block_skip_connection nn_Module b = true) /\
     match d_out with
     | None => ResNet_head r = None
     | Some d_out =>
         exists h, ResNet_head r = Some h /\
           nn_Linear d_main d_out true = Ok (ResNet_Head_linear h)
     end) /\
  (n_blocks <= 0 ->
   forall first_layer, nn_Linear d_in d_main true = Ok first_layer ->
     ResNet_init' d_in None n_blocks d_main d_hidden dropout_first dropout_second
       normalization activation = Ok (mk_ResNet nn_Module first_layer [] None)).
Proof.
  split.
  - unfold ResNet_init. intros r E.
    apply bind_Ok in E. destruct E as [first_layer [Ef E]].
    apply bind_Ok in E. destruct E as [blocks [Eb E]].
    apply bind_Ok in E. destruct E as [head [Eh E]].
    injection E as <-. cbn [ResNet_blocks ResNet_first_layer ResNet_head].
    destruct (mapM_nth_error _ _ _ Eb) as [Hl Hnth].
    split; [now rewrite Hl, length_range |]. split; [exact Ef |]. split.
    + intros b Hb. destruct (In_nth_error _ _ Hb) as [k Hk].
      assert (Hk' : (k < length (range n_blocks))%nat)
        by (rewrite <- Hl; apply nth_error_Some; congruence).
      destruct (Hnth k _ (nth_error_nth' _ 0 Hk')) as [b' [Hb' Hf]].
      rewrite Hk in Hb'. injection Hb' as <-.
      unfold ResNet_Block_init in Hf.
      apply bind_Ok in Hf. destruct Hf as [nrm [_ Hf]].
      apply bind_Ok in Hf. destruct Hf as [l1 [E1 Hf]].
      apply bind_Ok in Hf. destruct Hf as [act [_ Hf]].
      apply bind_Ok in Hf. destruct Hf as [dr1 [_ Hf]].
      apply bind_Ok in Hf. destruct Hf as [l2 [E2 Hf]].
      apply bind_Ok in Hf. destruct Hf as [dr2 [_ Hf]].
      injection Hf as <-. now repeat split.
    + destruct d_out as [o |].
      * apply bind_Ok in Eh. destruct Eh as [h [Eh' Eh]]. injection Eh as <-.
        exists h. split; [reflexivity |].
        unfold ResNet_Head_init in Eh'.
        apply bind_Ok in Eh'. destruct Eh' as [nrm [_ Eh']].
        apply bind_Ok in Eh'. destruct Eh' as [act [_ Eh']].
        apply bind_Ok in Eh'. destruct Eh' as [lin [El Eh']].
        injection Eh' as <-. exact El.
      * now injection Eh as <-.
  - intros Hn first_layer Ef. unfold ResNet_init. rewrite Ef. cbn [bind].
    unfold range. replace (Z.to_nat n_blocks) with 0%nat by lia. reflexivity.
Qed.

End BackbonesFacts.

(** The calls of the examples, with the stand-ins for the layers. *)

Lemma Transformer_init_error_witness :
  Transformer_init SampleNet.layer SampleNet.callable SampleNet.is_ReGLU
    SampleNet.make_nn_module SampleNet.nn_Linear SampleNet.nn_Dropout
    SampleNet.MultiheadAttention SampleNet.all_or_none
    WARNINGS 8 None 3 2 (Fin (1 # 5)) (module_name "LayerNorm") (Fin 0)
    16 (Fin (1 # 10)) (module_name "ReGLU") (module_name "LayerNorm") (Fin 0)
    true false None None false None None None None None
  = quiet (Raise (ValueError msg_pooling)) /\
  Transformer_init SampleNet.layer SampleNet.callable SampleNet.is_ReGLU
    SampleNet.make_nn_module SampleNet.nn_Linear SampleNet.nn_Dropout
    SampleNet.MultiheadAttention SampleNet.all_or_none
    WARNINGS 8 (Some 1) 3 2 (Fin (1 # 5)) (module_name "LayerNorm") (Fin 0)
    16 (Fin (1 # 10)) (module_name "ReGLU") (module_name "LayerNorm") (Fin 0)
    true false (Some "cls") (Some 0) true
    (Some (module_name "ReLU")) (Some (module_name "LayerNorm")) None None None
  = ([], Raise AttributeError).
Proof.
  split.
  - apply (Transformer_init_error SampleNet.layer SampleNet.callable SampleNet.is_ReGLU
             SampleNet.make_nn_module SampleNet.nn_Linear SampleNet.nn_Dropout
             SampleNet.MultiheadAttention SampleNet.all_or_none
             WARNINGS 8 None 3 2 (Fin (1 # 5)) (module_name "LayerNorm") (Fin 0)
             16 (Fin (1 # 10)) (module_name "ReGLU") (module_name "LayerNorm") (Fin 0)
             true false None None false None None None None None);
      [lia | discriminate | discriminate].
  - apply (Transformer_init_error SampleNet.layer SampleNet.callable SampleNet.is_ReGLU
             SampleNet.make_nn_module SampleNet.nn_Linear SampleNet.nn_Dropout
             SampleNet.MultiheadAttention SampleNet.all_or_none
             WARNINGS 8 (Some 1) 3 2 (Fin (1 # 5)) (module_name "LayerNorm") (Fin 0)
             16 (Fin (1 # 10)) (module_name "ReGLU") (module_name "LayerNorm") (Fin 0)
             true false (Some "cls") (Some 0) true
             (Some (module_name "ReLU")) (Some (module_name "LayerNorm")) None None None).
    + lia.
    + left. split; [reflexivity | discriminate].
    + reflexivity.
    + discriminate.
Defined.

Lemma MLP_init_layers_witness :
  MLP_init SampleNet.layer SampleNet.callable SampleNet.make_nn_module SampleNet.nn_Linear
    SampleNet.nn_Dropout 2 (Some 1) [] (dropouts_float (Fin (1 # 10))) (module_name "ReLU")
  = Raise (ValueError msg_d_layers) /\
  MLP_init SampleNet.layer SampleNet.callable SampleNet.make_nn_module SampleNet.nn_Linear
    SampleNet.nn_Dropout 2 (Some 1) [3; 4] (dropouts_list [Fin 0]) (module_name "ReLU")
  = Raise (ValueError msg_dropouts_size) /\
  exists m,
    MLP_init SampleNet.layer SampleNet.callable SampleNet.make_nn_module SampleNet.nn_Linear
      SampleNet.nn_Dropout 2 (Some 1) [3; 4] (dropouts_float (Fin (1 # 10)))
      (module_name "ReLU") = Ok m /\
    length (MLP_blocks m) = length [3; 4] /\
    exists b, nth_error (MLP_blocks m) 1 = Some b /\
      SampleNet.nn_Linear 3 4 true = Ok (MLP_Block_linear b).
Proof.
  split; [| split].
  - apply (proj1 (MLP_init_layers SampleNet.layer SampleNet.callable
                    SampleNet.make_nn_module SampleNet.nn_Linear SampleNet.nn_Dropout
                    2 (Some 1) [] (dropouts_float (Fin (1 # 10))) (module_name "ReLU"))).
    reflexivity.
  - apply (proj1 (proj2 (MLP_init_layers SampleNet.layer SampleNet.callable
                           SampleNet.make_nn_module SampleNet.nn_Linear
                           SampleNet.nn_Dropout 2 (Some 1) [3; 4]
                           (dropouts_list [Fin 0]) (module_name "ReLU"))));
      [discriminate | simpl; lia].
  - destruct (MLP_init SampleNet.layer SampleNet.callable SampleNet.make_nn_module
                SampleNet.nn_Linear SampleNet.nn_Dropout 2 (Some 1) [3; 4]
                (dropouts_float (Fin (1 # 10))) (module_name "ReLU")) as [m | e] eqn:E;
      [| vm_compute in E; discriminate E].
    exists m. split; [reflexivity |].
    destruct (proj2 (proj2 (MLP_init_layers SampleNet.layer SampleNet.callable
                              SampleNet.make_nn_module SampleNet.nn_Linear
                              SampleNet.nn_Dropout 2 (Some 1) [3; 4]
                              (dropouts_float (Fin (1 # 10))) (module_name "ReLU"))) m E)
      as [_ [Hlen [Hblocks _]]].
    split; [exact Hlen |]. exact (Hblocks 1%nat 4 eq_refl).
Defined.

Lemma MLP_make_baseline_layers_witness :
  MLP_make_baseline SampleNet.layer SampleNet.callable SampleNet.make_nn_module
    SampleNet.nn_Linear SampleNet.nn_Dropout 2 (Some 1) 0 3 (PyFloat (Fin (1 # 10)))
  = Raise (ValueError msg_n_blocks) /\
  MLP_make_baseline SampleNet.layer SampleNet.callable SampleNet.make_nn_module
    SampleNet.nn_Linear SampleNet.nn_Dropout 2 (Some 1) 2 3 (PyInt 0)
  = Raise (ValueError msg_dropout_float) /\
  exists m,
    MLP_make_baseline SampleNet.layer SampleNet.callable SampleNet.make_nn_module
      SampleNet.nn_Linear SampleNet.nn_Dropout 2 (Some 1) 2 3 (PyFloat (Fin (1 # 10)))
    = Ok m /\
    length (MLP_blocks m) = Z.to_nat 2 /\
    exists h, MLP_head m = Some h /\ SampleNet.nn_Linear 3 1 true = Ok h.
Proof.
  split; [| split].
  - apply (proj1 (MLP_make_baseline_layers SampleNet.layer SampleNet.callable
                    SampleNet.make_nn_module SampleNet.nn_Linear SampleNet.nn_Dropout
                    2 (Some 1) 0 3 (PyFloat (Fin (1 # 10))))).
    lia.
  - apply (proj1 (proj2 (MLP_make_baseline_layers SampleNet.layer SampleNet.callable
                           SampleNet.make_nn_module SampleNet.nn_Linear
                           SampleNet.nn_Dropout 2 (Some 1) 2 3 (PyInt 0))));
      [lia | reflexivity].
  - destruct (MLP_make_baseline SampleNet.layer SampleNet.callable SampleNet.make_nn_module
                SampleNet.nn_Linear SampleNet.nn_Dropout 2 (Some 1) 2 3
                (PyFloat (Fin (1 # 10)))) as [m | e] eqn:E;
      [| vm_compute in E; discriminate E].
    exists m. split; [reflexivity |].
    destruct (proj2 (proj2 (MLP_make_baseline_layers SampleNet.layer SampleNet.callable
                              SampleNet.make_nn_module SampleNet.nn_Linear
                              SampleNet.nn_Dropout 2 (Some 1) 2 3
                              (PyFloat (Fin (1 # 10))))) m E)
      as [_ [_ [Hlen [_ Hhead]]]].
    split; [exact Hlen | exact Hhead].
Defined.

Lemma ResNet_init_layers_witness :
  (exists r,
     ResNet_make_baseline SampleNet.layer SampleNet.callable SampleNet.make_nn_module
       SampleNet.nn_Linear SampleNet.nn_Dropout 2 (Some 1) 2 3 4 (Fin (1 # 4)) (Fin 0)
     = Ok r /\
     length (ResNet_blocks r) = Z.to_nat 2 /\
     exists h, ResNet_head r = Some h /\
       SampleNet.nn_Linear 3 1 true = Ok (ResNet_Head_linear h)) /\
  ResNet_init SampleNet.layer SampleNet.callable SampleNet.make_nn_module
    SampleNet.nn_Linear SampleNet.nn_Dropout 2 None (-1) 3 4 (Fin (1 # 4)) (Fin 0)
    (module_name "BatchNorm1d") (module_name "ReLU")
  = Ok (mk_ResNet SampleNet.layer "Linear(2, 3)" [] None).
Proof.
  split.
  - unfold ResNet_make_baseline.
    destruct (ResNet_init SampleNet.layer SampleNet.callable SampleNet.make_nn_module
                SampleNet.nn_Linear SampleNet.nn_Dropout 2 (Some 1) 2 3 4 (Fin (1 # 4))
                (Fin 0) (module_name "BatchNorm1d") (module_name "ReLU"))
      as [r | e] eqn:E; [| vm_compute in E; discriminate E].
    exists r. split; [reflexivity |].
    destruct (proj1 (ResNet_init_layers SampleNet.layer SampleNet.callable
                       SampleNet.make_nn_module SampleNet.nn_Linear SampleNet.nn_Dropout
                       2 (Some 1) 2 3 4 (Fin (1 # 4)) (Fin 0)
                       (module_name "BatchNorm1d") (module_name "ReLU")) r E)
      as [Hlen [_ [_ Hhead]]].
    split; [exact Hlen | exact Hhead].
  - apply (proj2 (ResNet_init_layers SampleNet.layer SampleNet.callable
                    SampleNet.make_nn_module SampleNet.nn_Linear SampleNet.nn_Dropout
                    2 None (-1) 3 4 (Fin (1 # 4)) (Fin 0)
                    (module_name "BatchNorm1d") (module_name "ReLU")));
      [lia | reflexivity].
Defined.
